(** * UEFI Tetris: the game engine of [tetris.c], embedded and verified

    The engine is the part of [tetris.c] between the piece table [TETRIS]
    and [drop]: collision detection, the active-piece operations, the
    gravity / lock / row-scan / scoring step [update], the delayed row
    compaction [clear_rows], and the shuffled bag of upcoming pieces.
    Around the engine, the file also embeds the timers [tps], [interval]
    and [wait], the number formatting of [itoa], and what
    [speaker_play] does at the I/O ports.

    Conventions of the embedding.
    - C integers are [Z]; a store into a narrower type is written out with
      [uint8], [sint8] or [uint32].
    - Arrays are lists read with [!!] and written with [<[_:=_]>].
    - A function yields [None] exactly where the C program would leave
      defined behaviour: an array index outside its array or a division
      by zero. The one loop without a bound, the reshuffle loop of the
      game setup, takes fuel and also yields [None] when it runs out.
    - [rdtsc], the CPU tick counter that [rand] samples, is a parameter:
      [rdtsc n] is the n-th reading taken by [rand]. The timers take the
      reading of their one [rdtsc()] call as an argument, and
      [speaker_play] the bytes it reads from its port. *)

From stdpp Require Import base option list numbers.

Open Scope Z_scope.

(** ** Machine integers *)

Definition uint8 (z : Z) : Z := z `mod` 256.
Definition sint8 (z : Z) : Z := (z + 128) `mod` 256 - 128.
Definition uint32 (z : Z) : Z := z `mod` 4294967296.

(** ** Constants ([#define]s of the source) *)

Definition WELL_WIDTH : Z := 10.
Definition WELL_HEIGHT : Z := 22.
Definition INITIAL_SPEED : Z := 1000.
Definition SCORE_FACTOR_1 : Z := 100.
Definition SCORE_FACTOR_2 : Z := 300.
Definition SCORE_FACTOR_3 : Z := 500.
Definition SCORE_FACTOR_4 : Z := 800.
Definition SOFT_DROP_SCORE : Z := 1.
Definition HARD_DROP_SCORE_FACTOR : Z := 2.
Definition ROWS_PER_LEVEL : Z := 10.
Definition BAG_SIZE : Z := 7.

(** ** Loops

    [for_each body l s] runs [body] on the elements of [l] in order,
    threading the state; it stops with [None] as soon as one iteration
    is undefined. *)

Fixpoint for_each {A S : Type} (body : A → S → option S) (l : list A) (s : S)
  : option S :=
  match l with
  | [] => Some s
  | a :: l' => s' ← body a s; for_each body l' s'
  end.

(** [arr[z]] for a C index [z]: undefined outside the array. *)
Definition array_get {A : Type} (arr : list A) (z : Z) : option A :=
  if 0 <=? z then arr !! Z.to_nat z else None.

(** ** The piece table

    [TETRIS[7][4][4][4]]: seven tetriminos, four rotations each, every
    rotation a 4x4 grid of colour values. The kinds, in table order. *)

Definition KIND_I : Z := 0.
Definition KIND_J : Z := 1.
Definition KIND_L : Z := 2.
Definition KIND_O : Z := 3.
Definition KIND_S : Z := 4.
Definition KIND_T : Z := 5.
Definition KIND_Z : Z := 6.

Abbreviation grid := (list (list Z)) (only parsing).

Definition TETRIS : list (list grid) :=
  [ (* I *)
    [ [[0;0;0;0]; [4;4;4;4]; [0;0;0;0]; [0;0;0;0]];
      [[0;4;0;0]; [0;4;0;0]; [0;4;0;0]; [0;4;0;0]];
      [[0;0;0;0]; [4;4;4;4]; [0;0;0;0]; [0;0;0;0]];
      [[0;4;0;0]; [0;4;0;0]; [0;4;0;0]; [0;4;0;0]] ];
    (* J *)
    [ [[7;0;0;0]; [7;7;7;0]; [0;0;0;0]; [0;0;0;0]];
      [[0;7;7;0]; [0;7;0;0]; [0;7;0;0]; [0;0;0;0]];
      [[0;0;0;0]; [7;7;7;0]; [0;0;7;0]; [0;0;0;0]];
      [[0;7;0;0]; [0;7;0;0]; [7;7;0;0]; [0;0;0;0]] ];
    (* L *)
    [ [[0;0;5;0]; [5;5;5;0]; [0;0;0;0]; [0;0;0;0]];
      [[0;5;0;0]; [0;5;0;0]; [0;5;5;0]; [0;0;0;0]];
      [[0;0;0;0]; [5;5;5;0]; [5;0;0;0]; [0;0;0;0]];
      [[5;5;0;0]; [0;5;0;0]; [0;5;0;0]; [0;0;0;0]] ];
    (* O *)
    [ [[0;0;0;0]; [0;1;1;0]; [0;1;1;0]; [0;0;0;0]];
      [[0;0;0;0]; [0;1;1;0]; [0;1;1;0]; [0;0;0;0]];
      [[0;0;0;0]; [0;1;1;0]; [0;1;1;0]; [0;0;0;0]];
      [[0;0;0;0]; [0;1;1;0]; [0;1;1;0]; [0;0;0;0]] ];
    (* S *)
    [ [[0;0;0;0]; [0;2;2;0]; [2;2;0;0]; [0;0;0;0]];
      [[0;2;0;0]; [0;2;2;0]; [0;0;2;0]; [0;0;0;0]];
      [[0;0;0;0]; [0;2;2;0]; [2;2;0;0]; [0;0;0;0]];
      [[0;2;0;0]; [0;2;2;0]; [0;0;2;0]; [0;0;0;0]] ];
    (* T *)
    [ [[0;6;0;0]; [6;6;6;0]; [0;0;0;0]; [0;0;0;0]];
      [[0;6;0;0]; [0;6;6;0]; [0;6;0;0]; [0;0;0;0]];
      [[0;0;0;0]; [6;6;6;0]; [0;6;0;0]; [0;0;0;0]];
      [[0;6;0;0]; [6;6;0;0]; [0;6;0;0]; [0;0;0;0]] ];
    (* Z *)
    [ [[0;0;0;0]; [3;3;0;0]; [0;3;3;0]; [0;0;0;0]];
      [[0;0;3;0]; [0;3;3;0]; [0;3;0;0]; [0;0;0;0]];
      [[0;0;0;0]; [3;3;0;0]; [0;3;3;0]; [0;0;0;0]];
      [[0;0;3;0]; [0;3;3;0]; [0;3;0;0]; [0;0;0;0]] ] ].

(** [TETRIS[i][r]]: undefined when [i] or [r] is outside the table. *)
Definition tetrimino (i r : Z) : option grid :=
  rots ← array_get TETRIS i; array_get rots r.

(** [t[yy][xx]] for a 4x4 grid and offsets that the loops keep in 0..3. *)
Definition grid_at (t : grid) (yy xx : Z) : Z :=
  default 0 (row ← array_get t yy; array_get row xx).

(** The offsets both 4x4 loops run over. *)
Definition offsets : list Z := seqZ 0 4.

(** ** The well *)

Abbreviation well_t := (list (list Z)) (only parsing).

Definition in_well (y x : Z) : bool :=
  (0 <=? y) && (y <? WELL_HEIGHT) && (0 <=? x) && (x <? WELL_WIDTH).

(** A read [well[y][x]]. Every read of the source is in bounds. *)
Definition well_get (w : well_t) (y x : Z) : option Z :=
  if in_well y x then row ← array_get w y; array_get row x else None.

(** A write [well[y][x] = v]. *)
Definition well_put (w : well_t) (y x v : Z) : option well_t :=
  if in_well y x
  then row ← array_get w y;
       Some (<[Z.to_nat y := <[Z.to_nat x := v]> row]> w)
  else None.

Definition empty_row : list Z := replicate (Z.to_nat WELL_WIDTH) 0.
Definition empty_well : well_t := replicate (Z.to_nat WELL_HEIGHT) empty_row.

(** The shape the C type [uint8_t well[22][10]] fixes. *)
Definition well_shape (w : well_t) : Prop :=
  length w = Z.to_nat WELL_HEIGHT ∧
  Forall (λ row, length row = Z.to_nat WELL_WIDTH) w.

(** ** Collision

    [blocked w x y xx yy] is the inner condition of [collide] for the
    grid cell at offsets [(xx, yy)]; the well is read only when the four
    bound tests have all failed. *)

Definition blocked (w : well_t) (x y xx yy : Z) : bool :=
  (x + xx <? 0) || (x + xx >=? WELL_WIDTH) ||
  (y + yy <? 0) || (y + yy >=? WELL_HEIGHT) ||
  negb (default 0 (well_get w (y + yy) (x + xx)) =? 0).

Definition collide_grid (t : grid) (w : well_t) (x y : Z) : bool :=
  existsb (λ yy,
    existsb (λ xx, negb (grid_at t yy xx =? 0) && blocked w x y xx yy)
            offsets)
          offsets.

Definition collide (w : well_t) (i r x y : Z) : option bool :=
  t ← tetrimino i r; Some (collide_grid t w x y).

(** ** Game state

    [struct current]: index and rotation into [TETRIS], index into the
    bag of the preview tetrimino, coordinates, and the ghost's y. *)

Record piece : Type := Piece {
  c_i : Z;   (* current.i, uint8_t *)
  c_r : Z;   (* current.r, uint8_t *)
  c_p : Z;   (* current.p, uint8_t *)
  c_x : Z;   (* current.x, int8_t *)
  c_y : Z;   (* current.y, int8_t *)
  c_g : Z    (* current.g, int8_t *)
}.

(** The globals of the engine, the function-static [level_rows] of
    [update], and the number of [rdtsc] readings [rand] has taken. *)

Record game : Type := Game {
  well : well_t;
  current : piece;
  bag : list Z;
  stats : list Z;
  score : Z;
  level : Z;
  speed : Z;
  level_up : Z;
  paused : bool;
  game_over : bool;
  cleared_rows : list Z;
  level_rows : Z;
  tsc : nat
}.

Definition set_well (w : well_t) (s : game) : game :=
  Game w (current s) (bag s) (stats s) (score s) (level s) (speed s)
       (level_up s) (paused s) (game_over s) (cleared_rows s) (level_rows s)
       (tsc s).

Definition set_current (c : piece) (s : game) : game :=
  Game (well s) c (bag s) (stats s) (score s) (level s) (speed s)
       (level_up s) (paused s) (game_over s) (cleared_rows s) (level_rows s)
       (tsc s).

Definition set_bag (b : list Z) (n : nat) (s : game) : game :=
  Game (well s) (current s) b (stats s) (score s) (level s) (speed s)
       (level_up s) (paused s) (game_over s) (cleared_rows s) (level_rows s)
       n.

Definition set_stats (st : list Z) (s : game) : game :=
  Game (well s) (current s) (bag s) st (score s) (level s) (speed s)
       (level_up s) (paused s) (game_over s) (cleared_rows s) (level_rows s)
       (tsc s).

Definition set_score (v : Z) (s : game) : game :=
  Game (well s) (current s) (bag s) (stats s) v (level s) (speed s)
       (level_up s) (paused s) (game_over s) (cleared_rows s) (level_rows s)
       (tsc s).

Definition set_game_over (b : bool) (s : game) : game :=
  Game (well s) (current s) (bag s) (stats s) (score s) (level s) (speed s)
       (level_up s) (paused s) b (cleared_rows s) (level_rows s) (tsc s).

Definition set_cleared_rows (cr : list Z) (s : game) : game :=
  Game (well s) (current s) (bag s) (stats s) (score s) (level s) (speed s)
       (level_up s) (paused s) (game_over s) cr (level_rows s) (tsc s).

Definition set_level_rows (v : Z) (s : game) : game :=
  Game (well s) (current s) (bag s) (stats s) (score s) (level s) (speed s)
       (level_up s) (paused s) (game_over s) (cleared_rows s) v (tsc s).

(** The three stores of a level-up: [level], [speed], [level_up]. *)
Definition set_level (lv sp up : Z) (s : game) : game :=
  Game (well s) (current s) (bag s) (stats s) (score s) lv sp up
       (paused s) (game_over s) (cleared_rows s) (level_rows s) (tsc s).

Definition set_xy (x y : Z) (c : piece) : piece :=
  Piece (c_i c) (c_r c) (c_p c) x y (c_g c).

Definition set_r (r : Z) (c : piece) : piece :=
  Piece (c_i c) r (c_p c) (c_x c) (c_y c) (c_g c).

Definition set_g (g : Z) (c : piece) : piece :=
  Piece (c_i c) (c_r c) (c_p c) (c_x c) (c_y c) g.

(** ** Active-piece operations that need no randomness *)

(** [ghost]: scan downwards from [current.y] until [collide]. The loop
    variable is an [int8_t] below 22, so [fuel] is the exact number of
    iterations left, not a cut-off. *)

Fixpoint ghost_loop (w : well_t) (i r x : Z) (fuel : nat) (y : Z) : option Z :=
  match fuel with
  | O => Some y
  | S fuel' =>
      c ← collide w i r x y;
      if c : bool then Some y else ghost_loop w i r x fuel' (y + 1)
  end.

Definition ghost (s : game) : option game :=
  let c := current s in
  y ← ghost_loop (well s) (c_i c) (c_r c) (c_x c)
                 (Z.to_nat (WELL_HEIGHT - c_y c)) (c_y c);
  Some (set_current (set_g (sint8 (y - 1)) c) s).

Definition move (dx dy : Z) (s : game) : option (bool * game) :=
  if game_over s then Some (false, s)
  else
    let c := current s in
    let x' := sint8 (c_x c + dx) in
    let y' := sint8 (c_y c + dy) in
    hit ← collide (well s) (c_i c) (c_r c) x' y';
    if hit : bool then Some (false, s)
    else Some (true, set_current (set_xy x' y' c) s).

Definition rotate (s : game) : option (bool * game) :=
  if game_over s then Some (false, s)
  else
    let c := current s in
    let r := uint8 ((c_r c + 1) `mod` 4) in
    hit ← collide (well s) (c_i c) r (c_x c) (c_y c);
    if hit : bool then Some (false, s)
    else Some (true, set_current (set_r r c) s).

Definition soft_drop (s : game) : option game :=
  '(ok, s') ← move 0 1 s;
  if ok : bool then Some (set_score (uint32 (score s' + SOFT_DROP_SCORE)) s')
  else Some s'.

(** [lock]: copy the nonzero cells of the current grid into the well. *)

Definition lock_cell (t : grid) (cx cy yy xx : Z) (w : well_t) : option well_t :=
  let v := grid_at t yy xx in
  if v =? 0 then Some w else well_put w (cy + yy) (cx + xx) v.

Definition lock (s : game) : option game :=
  let c := current s in
  t ← tetrimino (c_i c) (c_r c);
  w ← for_each (λ yy, for_each (lock_cell t (c_x c) (c_y c) yy) offsets)
               offsets (well s);
  Some (set_well w s).

(** [clear_rows]: for each recorded row, copy every row above it one
    down, cell by cell, from the recorded row up to row 1. A zero entry
    ends the outer loop. *)

Definition copy_cell (y x : Z) (w : well_t) : option well_t :=
  v ← well_get w (y - 1) x; well_put w y x v.

Definition copy_row (y : Z) (w : well_t) : option well_t :=
  for_each (copy_cell y) (seqZ 0 WELL_WIDTH) w.

(** [for (y = n; y > 0; y--)] *)
Fixpoint shift_down (n : nat) (w : well_t) : option well_t :=
  match n with
  | O => Some w
  | S n' => w' ← copy_row (Z.of_nat n) w; shift_down n' w'
  end.

Fixpoint clear_rows_loop (idx : list Z) (w : well_t) (cr : list Z)
  : option (well_t * list Z) :=
  match idx with
  | [] => Some (w, cr)
  | i :: idx' =>
      y ← array_get cr i;
      if y =? 0 then Some (w, cr)
      else
        w' ← shift_down (Z.to_nat y) w;
        clear_rows_loop idx' w' (<[Z.to_nat i := 0]> cr)
  end.

Definition clear_rows (s : game) : option game :=
  '(w, cr) ← clear_rows_loop (seqZ 0 4) (well s) (cleared_rows s);
  Some (set_cleared_rows cr (set_well w s)).

(** ** Randomness, the bag, and the operations that may reshuffle *)

Section WithTicks.

(** [rdtsc n]: the n-th tick count that [rand] reads. *)
Variable rdtsc : nat → Z.

(** [rand(range)]: [(uint32_t) rdtsc() % range]. *)
Definition rand (range : Z) (n : nat) : option (Z * nat) :=
  if range =? 0 then None
  else Some (uint32 (rdtsc n) `mod` range, S n).

(** [shuffle(arr, len)]: Fisher-Yates from [i = len - 1] down to 1. *)
Fixpoint shuffle_loop (i : nat) (arr : list Z) (n : nat)
  : option (list Z * nat) :=
  match i with
  | O => Some (arr, n)
  | S i' =>
      '(j, n') ← rand (uint32 (Z.of_nat i + 1)) n;
      t ← arr !! i;
      aj ← arr !! Z.to_nat j;
      shuffle_loop i' (<[Z.to_nat j := t]> (<[i := aj]> arr)) n'
  end.

Definition shuffle (arr : list Z) (len : Z) (n : nat) : option (list Z * nat) :=
  shuffle_loop (Z.to_nat (uint32 (len - 1))) arr n.

Definition spawn (s : game) : option game :=
  let c := current s in
  i ← array_get (bag s) (c_p c);
  st ← array_get (stats s) i;
  let s1 := set_stats (<[Z.to_nat i := uint32 (st + 1)]> (stats s)) s in
  let p := uint8 (c_p c + 1) in
  let c1 := Piece i 0 p (WELL_WIDTH / 2 - 2) 0 (c_g c) in
  if p =? BAG_SIZE then
    '(b, n) ← shuffle (bag s) BAG_SIZE (tsc s);
    Some (set_bag b n (set_current (Piece i 0 0 (WELL_WIDTH / 2 - 2) 0 (c_g c)) s1))
  else Some (set_current c1 s1).

(** *** [update]

    First the gravity step. [Stopped s'] is the early [return] after
    setting [game_over]; [Falling s'] goes on to the row scan. *)

Inductive gravity_result : Type :=
  | Stopped (s : game)
  | Falling (s : game).

Definition gravity (s : game) : option gravity_result :=
  '(ok, s1) ← move 0 1 s;
  if ok : bool then Some (Falling s1)
  else if c_y (current s1) =? 0 then Some (Stopped (set_game_over true s1))
  else s2 ← lock s1; s3 ← spawn s2; Some (Falling s3).

(** The row scan. [full_count w y] is the counter [a] after the inner
    loop; a full row is stored at [cleared_rows[i++]], which is undefined
    from the fifth full row on. The state of the outer loop is
    [(cleared_rows, i, rows)]. *)

Definition full_count (w : well_t) (y : Z) : Z :=
  Z.of_nat (length (filter (λ x, default 0 (well_get w y x) ≠ 0)
                           (seqZ 0 WELL_WIDTH))).

Definition scan_row (w : well_t) (y : Z) (st : list Z * Z * Z)
  : option (list Z * Z * Z) :=
  let '(cr, i, rows) := st in
  if full_count w y =? WELL_WIDTH then
    _ ← array_get cr i;
    Some (<[Z.to_nat i := y]> cr, i + 1, rows + 1)
  else Some st.

Definition scan (w : well_t) (cr : list Z) : option (list Z * Z * Z) :=
  for_each (scan_row w) (seqZ 0 WELL_HEIGHT) (cr, 0, 0).

(** The [switch (rows)] of the scoring step. *)
Definition row_score (rows lv sc : Z) : Z :=
  if rows =? 1 then uint32 (sc + uint32 (SCORE_FACTOR_1 * lv))
  else if rows =? 2 then uint32 (sc + uint32 (SCORE_FACTOR_2 * lv))
  else if rows =? 3 then uint32 (sc + uint32 (SCORE_FACTOR_3 * lv))
  else if rows =? 4 then uint32 (sc + uint32 (SCORE_FACTOR_4 * lv))
  else sc.

Definition speed_of_level (lv : Z) : Z := uint32 (10 + 990 / lv).

(** Leveling: [level_rows += rows] and the level-up test. *)
Definition leveling (rows : Z) (s : game) : option game :=
  let lr := uint8 (level_rows s + rows) in
  if lr >=? ROWS_PER_LEVEL then
    let lv := uint32 (level s + 1) in
    if lv =? 0 then None
    else Some (set_level lv (speed_of_level lv) 1
                 (set_level_rows (uint8 (lr - ROWS_PER_LEVEL)) s))
  else Some (set_level_rows lr s).

Definition update_rows (s : game) : option game :=
  '(cr, _, rows) ← scan (well s) (cleared_rows s);
  leveling rows
    (set_score (row_score rows (level s) (score s)) (set_cleared_rows cr s)).

Definition update (s : game) : option game :=
  g ← gravity s;
  match g with
  | Stopped s' => Some s'
  | Falling s' => update_rows s'
  end.

(** [drop]: the hard drop. [drop_stores] is its two stores, to [score]
    and [current.y]; the [update] call follows them. *)
Definition drop_stores (s : game) : game :=
  let c := current s in
  set_current (set_xy (c_x c) (c_g c) c)
    (set_score (uint32 (score s + HARD_DROP_SCORE_FACTOR * (c_g c - c_y c))) s).

Definition drop (s : game) : option game :=
  if game_over s then Some s else update (drop_stores s).

(** *** Start of a game ([efi_main])

    The values the globals have when [efi_main] reaches the game setup:
    static initialisers, zeroed storage, and the stores at the top of
    [efi_main]. *)

Definition boot_state : game :=
  Game empty_well (Piece 0 0 0 0 0 0) (seqZ 0 BAG_SIZE)
       (replicate (Z.to_nat BAG_SIZE) 0) 0 1 INITIAL_SPEED 0 false false
       (replicate 4%nat 0) 0 0.

(** [do { shuffle(bag, BAG_SIZE); } while (bag[0] == 4 || bag[0] == 6);]
    The loop has no bound in the source; [None] also covers running out
    of [fuel]. *)
Fixpoint first_bag (fuel : nat) (b : list Z) (n : nat) : option (list Z * nat) :=
  match fuel with
  | O => None
  | S fuel' =>
      '(b', n') ← shuffle b BAG_SIZE n;
      b0 ← b' !! 0%nat;
      if (b0 =? 4) || (b0 =? 6) then first_bag fuel' b' n' else Some (b', n')
  end.

Definition new_game (fuel : nat) : option game :=
  '(b, n) ← first_bag fuel (bag boot_state) (tsc boot_state);
  s ← spawn (set_bag b n boot_state);
  ghost s.

(** *** Player input and the clock as a step function *)

Inductive action : Type :=
  | Move (dx dy : Z)
  | Rotate
  | SoftDrop
  | HardDrop
  | Update
  | ClearRows
  | Ghost.

Definition step (a : action) (s : game) : option game :=
  match a with
  | Move dx dy => snd <$> move dx dy s
  | Rotate => snd <$> rotate s
  | SoftDrop => soft_drop s
  | HardDrop => drop s
  | Update => update s
  | ClearRows => clear_rows s
  | Ghost => ghost s
  end.

Definition run (acts : list action) (s : game) : option game :=
  for_each step acts s.

End WithTicks.

(** * Formatting ([itoa])

    [itoa(n, r, w)] writes digits of [n] in radix [r] from the end of a
    static buffer [s[34]] towards its start and returns a pointer into
    the buffer. Characters are their codes; [itoa_digits] is the table
    [d[16] = "0123456789ABCDEF"]. A store [s[i] = c]: *)

Definition array_put {A : Type} (arr : list A) (z : Z) (v : A)
  : option (list A) :=
  if (0 <=? z) && (z <? Z.of_nat (length arr))
  then Some (<[Z.to_nat z := v]> arr) else None.

Definition itoa_digits : list Z :=
  [48; 49; 50; 51; 52; 53; 54; 55; 56; 57; 65; 66; 67; 68; 69; 70].

(** The body of the [do ... while (i > 33 - w)] loop, entered with the
    [uint8_t] index [i]: [i--], which wraps from 0 to 255, the store of
    the digit, [n /= r], and the loop test in [int]. The recursion is on
    the index the loop counts down. *)
Fixpoint itoa_loop (i : nat) (n r w : Z) (s : list Z) : option (nat * list Z) :=
  match i with
  | O => None (* i is 255 now, and s[255] lies outside the buffer *)
  | S i' =>
      if r =? 0 then None
      else
        c ← array_get itoa_digits (n `mod` r);
        s' ← array_put s (Z.of_nat i') c;
        if Z.of_nat i' >? 33 - w then itoa_loop i' (n / r) r w s'
        else Some (i', s')
  end.

(** [itoa]: the buffer as the call finds it, the index of the returned
    pointer and the buffer as the call leaves it. *)
Definition itoa (n r w : Z) (s : list Z) : option (nat * list Z) :=
  s0 ← array_put s 33 0;
  itoa_loop 33 n r w s0.

(** The C string at [s + i]: the characters up to the first 0. *)
Fixpoint c_string (s : list Z) : list Z :=
  match s with
  | [] => []
  | c :: s' => if c =? 0 then [] else c :: c_string s'
  end.

Definition string_at (s : list Z) (i : nat) : list Z := c_string (skipn i s).

(** * Timing ([tps], [interval], [wait])

    The timing state: the statics [ti] and [last_sec] of [tps], the
    global [tpms] (CPU ticks per millisecond) and the array [timers].
    The functions take what they read from the hardware as arguments:
    [sec] is the value [rtcs()] returns and [tf] the value of the one
    [rdtsc()] the call evaluates. *)

Definition uint64 (z : Z) : Z := z `mod` 18446744073709551616.

Definition TIMER_UPDATE : Z := 0.
Definition TIMER_CLEAR : Z := 1.
Definition TIMER__LENGTH : Z := 2.
Definition CLEAR_DELAY : Z := 100.

Record clock : Type := Clock {
  ti : Z;
  last_sec : Z;
  tpms : Z;
  timers : list Z
}.

Definition set_timers (t : list Z) (k : clock) : clock :=
  Clock (ti k) (last_sec k) (tpms k) t.

(** The clock when [efi_main] starts. *)
Definition boot_clock : clock :=
  Clock 0 255 0 (replicate (Z.to_nat TIMER__LENGTH) 0).

(** [tps]: [tpms = (uint32_t) ((tf - ti) >> 3) / 125] when the second of
    the real-time clock has changed. *)
Definition tps (sec tf : Z) (k : clock) : clock :=
  if sec =? last_sec k then k
  else Clock tf sec (uint32 (Z.shiftr (uint64 (tf - ti k)) 3) / 125) (timers k).

Definition interval (timer ms tf : Z) (k : clock) : option (bool * clock) :=
  t ← array_get (timers k) timer;
  if uint64 (tf - t) >=? uint64 (tpms k * ms)
  then Some (true, set_timers (<[Z.to_nat timer := tf]> (timers k)) k)
  else Some (false, k).

Definition wait (timer ms tf : Z) (k : clock) : option (bool * clock) :=
  t ← array_get (timers k) timer;
  if t =? 0
  then Some (false, set_timers (<[Z.to_nat timer := tf]> (timers k)) k)
  else if uint64 (tf - t) >=? uint64 (tpms k * ms)
       then Some (true, set_timers (<[Z.to_nat timer := 0]> (timers k)) k)
       else Some (false, k).

(** * The speaker ([speaker_play])

    What [speaker_play] does at the I/O ports, in order: [v1] and [v2]
    are the two values it reads from port 0x61. *)

Inductive io : Type :=
  | Outb (port val : Z)
  | Inb (port val : Z)
  | Stall (us : Z).

Definition speaker_play (hz time v1 v2 : Z) : option (list io) :=
  let hz1 := if hz <? 20 then 20 else hz in
  let hz2 := if hz1 >? 20000 then 20000 else hz1 in
  if hz2 =? 0 then None
  else
    let div := uint32 (1193180 / hz2) in
    let ms := uint64 (time * 1000) in
    Some [Outb 67 182;
          Outb 66 (uint8 div);
          Outb 66 (uint8 (Z.shiftr div 8));
          Inb 97 v1; Outb 97 (uint8 (Z.lor v1 3));
          Stall ms;
          Inb 97 v2; Outb 97 (uint8 (Z.land v2 252))].

(** * Specification vocabulary *)

(** ** Collision *)

(** A well cell that holds a locked fragment. *)
Definition occupied (w : well_t) (y x : Z) : Prop :=
  ∃ v, well_get w y x = Some v ∧ v ≠ 0.

(** What [collide] tests for the cell at offsets [(xx, yy)]: left or
    right of the well, above it, at or below its floor, or on an
    occupied cell. *)
Definition hits (w : well_t) (x y xx yy : Z) : Prop :=
  x + xx < 0 ∨ WELL_WIDTH ≤ x + xx ∨
  y + yy < 0 ∨ WELL_HEIGHT ≤ y + yy ∨
  occupied w (y + yy) (x + xx).

(** The same without the test against the top. *)
Definition hits_no_top (w : well_t) (x y xx yy : Z) : Prop :=
  x + xx < 0 ∨ WELL_WIDTH ≤ x + xx ∨
  WELL_HEIGHT ≤ y + yy ∨
  occupied w (y + yy) (x + xx).

(** Some nonzero cell of grid [t] satisfies [cond]. *)
Definition some_cell (t : grid) (cond : Z → Z → Prop) : Prop :=
  ∃ yy xx, 0 ≤ yy < 4 ∧ 0 ≤ xx < 4 ∧ grid_at t yy xx ≠ 0 ∧ cond xx yy.

(** C1 as the spec words it: [collide] is true exactly when some nonzero
    cell is out of horizontal bounds, at or below the floor, or on an
    occupied cell, so that a cell above the top alone does not count. *)
Definition collide_ignores_top (w : well_t) (i r x y : Z) : Prop :=
  ∀ t, tetrimino i r = Some t →
       (collide w i r x y = Some true ↔ some_cell t (hits_no_top w x y)).

(** ** Game over *)

(** The calls a player can trigger on the active piece. *)
Definition piece_call (a : action) : Prop :=
  match a with
  | Move _ _ | Rotate | SoftDrop | HardDrop => True
  | _ => False
  end.

(** ** Ghost *)

(** The piece rests at [y]: it fits there and not one row lower. *)
Definition rests (w : well_t) (i r x y : Z) : Prop :=
  collide w i r x y = Some false ∧ collide w i r x (y + 1) = Some true.

(** C4 as the spec words it: the ghost is the one and only resting place
    at or below the piece. *)
Definition ghost_is_only_rest (s : game) : Prop :=
  ∀ s', ghost s = Some s' →
    let c := current s in
    rests (well s) (c_i c) (c_r c) (c_x c) (c_g (current s')) ∧
    ∀ y', c_y c ≤ y' → rests (well s) (c_i c) (c_r c) (c_x c) y' →
          y' = c_g (current s').

(** A well with an overhang: an upright I in column 0 on the floor and a
    J lying on top of it, reaching over columns 1 and 2. *)
Definition overhang_well : well_t :=
  replicate 16%nat empty_row ++
  [ [7;0;0;0;0;0;0;0;0;0];
    [7;7;7;0;0;0;0;0;0;0];
    [4;0;0;0;0;0;0;0;0;0];
    [4;0;0;0;0;0;0;0;0;0];
    [4;0;0;0;0;0;0;0;0;0];
    [4;0;0;0;0;0;0;0;0;0] ].

(** The values [efi_main] stores before the game setup, with a given
    well and active piece. *)
Definition state_with (w : well_t) (c : piece) : game :=
  Game w c (seqZ 0 BAG_SIZE) (replicate (Z.to_nat BAG_SIZE) 0)
       0 1 INITIAL_SPEED 0 false false (replicate 4%nat 0) 0 0.

(** An O over columns 1 and 2 of [overhang_well], still at the top. *)
Definition under_overhang : game :=
  state_with overhang_well (Piece KIND_O 0 1 0 0 0).

(** ** Rows *)

(** Row [y] of the well, top row first. *)
Definition well_row (w : well_t) (y : Z) : list Z :=
  default [] (array_get w y).

(** The rows [update] finds full, in the order of its scan. *)
Definition full_rows (w : well_t) : list Z :=
  filter (λ y, full_count w y = WELL_WIDTH) (seqZ 0 WELL_HEIGHT).

(** C2 as the spec words it, for a well whose full rows are exactly
    [R1 < R2] and the record [update] makes of them: every other row
    above [R2] moves down by two, every other row below [R1] stays, the
    two top rows end up empty and the record is zeroed. *)
Definition clears_two_rows (s : game) (R1 R2 : Z) : Prop :=
  full_rows (well s) = [R1; R2] →
  cleared_rows s = [R1; R2; 0; 0] →
  ∃ s', clear_rows s = Some s' ∧
        (∀ y, 0 ≤ y < R2 → y ≠ R1 →
              well_row (well s') (y + 2) = well_row (well s) y) ∧
        (∀ y, R1 < y < WELL_HEIGHT → y ≠ R2 →
              well_row (well s') y = well_row (well s) y) ∧
        well_row (well s') 0 = empty_row ∧
        well_row (well s') 1 = empty_row ∧
        cleared_rows s' = [0; 0; 0; 0].

(** Rows 10 and 20 full, one fragment in row 15 between them and one in
    the top row. *)
Definition two_rows_well : well_t :=
  <[20%nat := replicate 10%nat 4]>
    (<[15%nat := [0;5;0;0;0;0;0;0;0;0]]>
       (<[10%nat := replicate 10%nat 4]>
          (<[0%nat := [3;0;0;0;0;0;0;0;0;0]]> empty_well))).

Definition two_rows_pending : game :=
  set_cleared_rows [10; 20; 0; 0]
    (state_with two_rows_well (Piece KIND_O 0 1 3 0 0)).

(** ** The bag *)

(** The bag holds each of the seven kinds once. *)
Definition bag_ok (b : list Z) : Prop := b ≡ₚ seqZ 0 BAG_SIZE.

(** A change of state that is no draw: the bag, its cursor and the size
    of [stats] are as before. Every operation of the engine other than
    [spawn] is of this kind. *)
Definition quiet (s s' : game) : Prop :=
  bag s' = bag s ∧ c_p (current s') = c_p (current s) ∧
  length (stats s') = length (stats s).

Section Draws.

Variable rdtsc : nat → Z.

(** [draws s ks s']: the game gets from [s] to [s'] by [spawn] calls
    that deal the kinds [ks], in this order, with any quiet changes
    before, between and after them. *)
Inductive draws : game → list Z → game → Prop :=
  | draws_done s : draws s [] s
  | draws_quiet s s1 ks s2 :
      quiet s s1 → draws s1 ks s2 → draws s ks s2
  | draws_spawn s s1 ks s2 :
      spawn rdtsc s = Some s1 → draws s1 ks s2 →
      draws s (c_i (current s1) :: ks) s2.

(** [n] calls of [spawn] in a row, with the kinds they deal. *)
Fixpoint deal (n : nat) (s : game) : option (list Z * game) :=
  match n with
  | O => Some ([], s)
  | S n' =>
      s1 ← spawn rdtsc s;
      '(ks, s2) ← deal n' s1;
      Some (c_i (current s1) :: ks, s2)
  end.

End Draws.

(** A tick counter that always reads zero. *)
Definition still_clock : nat → Z := λ _, 0.

(** A well with every cell occupied. *)
Definition full_well : well_t :=
  replicate (Z.to_nat WELL_HEIGHT) (replicate (Z.to_nat WELL_WIDTH) 1).

(** The first seven draws of a game whose bag was never shuffled. *)
Definition first_seven : option (list Z * game) := Eval vm_compute in
  deal still_clock 7 boot_state.

(** ** Scoring and leveling *)

(** The factors F1..F4 by the number of rows found full; no bonus for
    any other count. *)
Definition score_factor (k : Z) : Z :=
  if k =? 1 then SCORE_FACTOR_1
  else if k =? 2 then SCORE_FACTOR_2
  else if k =? 3 then SCORE_FACTOR_3
  else if k =? 4 then SCORE_FACTOR_4
  else 0.

(** The number of rows an [update] call finds full: those of the well
    after the gravity step, none when the call returns early. *)
Definition detected (g : gravity_result) : Z :=
  match g with
  | Stopped _ => 0
  | Falling s => Z.of_nat (length (full_rows (well s)))
  end.

(** The gravity step leaves the scoring variables alone. *)
Definition same_scoring (s s' : game) : Prop :=
  score s' = score s ∧ level s' = level s ∧ speed s' = speed s ∧
  level_up s' = level_up s ∧ cleared_rows s' = cleared_rows s ∧
  level_rows s' = level_rows s.

(** The gravity interval in milliseconds at level [lv]. *)
Definition interval_at (lv : Z) : Z := 10 + 990 / lv.

(** C6 as the spec words its last part: a larger level always has a
    strictly smaller interval. *)
Definition speed_strictly_decreasing : Prop :=
  ∀ l1 l2, 1 ≤ l1 → l1 < l2 → interval_at l2 < interval_at l1.

(** An O in the air over a well whose bottom row is full, nine rows
    into level 32. *)
Definition level_32_state : game :=
  Game (<[21%nat := replicate 10%nat 4]> empty_well)
       (Piece KIND_O 0 1 3 0 0) (seqZ 0 BAG_SIZE)
       (replicate (Z.to_nat BAG_SIZE) 0)
       0 32 (interval_at 32) 0 false false (replicate 4%nat 0) 9 0.

(** [level_32_state] after its O has fallen one row. *)
Definition level_32_fallen : game :=
  set_current (Piece KIND_O 0 1 3 1 0) level_32_state.

(** The game [efi_main] sets up when the tick counter reads zero
    throughout: one shuffle is enough. *)
Definition opening : option game := Eval vm_compute in
  new_game still_clock 1.

(** An I lying in the top rows of a well whose row 2 is full: it cannot
    fall. *)
Definition stuck_state : game :=
  state_with (<[2%nat := replicate 10%nat 4]> empty_well)
             (Piece KIND_I 0 1 3 0 0).

(** A fresh T at the top of an empty well. *)
Definition free_state : game :=
  state_with empty_well (Piece KIND_T 0 1 3 0 0).

(** The well [clear_rows] leaves behind in [two_rows_pending]. *)
Definition two_rows_cleared : well_t := Eval vm_compute in
  default [] (well <$> clear_rows two_rows_pending).

(** [two_rows_well] with its top row emptied. *)
Definition two_rows_clean : game :=
  set_cleared_rows [10; 20; 0; 0]
    (state_with (<[0%nat := empty_row]> two_rows_well) (Piece KIND_O 0 1 3 0 0)).

(** ** The active piece and the well-formed states *)

(** The active piece fits where it is: inside the well and on no
    occupied cell. *)
Definition fits (s : game) : Prop :=
  let c := current s in
  collide (well s) (c_i c) (c_r c) (c_x c) (c_y c) = Some false.

(** The grid [t] placed at [(cx, cy)] has a nonzero cell on board cell
    [(y, x)]. *)
Definition covers (t : grid) (cx cy y x : Z) : Prop :=
  0 ≤ y - cy < 4 ∧ 0 ≤ x - cx < 4 ∧ grid_at t (y - cy) (x - cx) ≠ 0.

(** What a key press can do to the active piece without ending its
    fall, and the recomputation of the ghost that follows it. *)
Definition player_move (a : action) : Prop :=
  match a with
  | Move _ _ | Rotate | SoftDrop | Ghost => True
  | _ => False
  end.

(** The state has the shape its C declarations give it: the arrays have
    their sizes, the bag is a permutation with its cursor inside, the
    recorded rows are rows of the well, and the kind and rotation of the
    active piece index the piece table. *)
Definition wf (s : game) : Prop :=
  well_shape (well s) ∧
  bag_ok (bag s) ∧ 0 ≤ c_p (current s) < BAG_SIZE ∧
  length (stats s) = Z.to_nat BAG_SIZE ∧
  length (cleared_rows s) = 4%nat ∧
  Forall (λ y, 0 ≤ y < WELL_HEIGHT) (cleared_rows s) ∧
  is_Some (tetrimino (c_i (current s)) (c_r (current s))).

(** A T in the middle of an empty well. *)
Definition mid_state : game :=
  state_with empty_well (Piece KIND_T 0 1 3 10 0).

(** [mid_state] after a step left, a rotation, a soft drop, a push
    against the right wall that fails, and a new ghost. *)
Definition moved_state : game := Eval vm_compute in
  default mid_state
    (run still_clock [Move (-1) 0; Rotate; SoftDrop; Move 9 0; Ghost] mid_state).

(** The opening game of [opening] after a hard drop of its first piece,
    a step to the left and a new ghost. *)
Definition second_piece : game := Eval vm_compute in
  default boot_state
    (run still_clock [HardDrop; Move (-1) 0; Ghost] (default boot_state opening)).

(** The calls that lock no piece: those of [player_move], and the
    [clear_rows] of the clear timer. *)
Definition quiet_call (a : action) : Prop :=
  player_move a ∨ a = ClearRows.

(** A J just spawned onto the arm of a T that lies locked in rows 1 and
    2 of the well. *)
Definition overlapped_state : game :=
  state_with (<[2%nat := [0;0;0;6;6;6;0;0;0;0]]>
                (<[1%nat := [0;0;0;0;6;0;0;0;0;0]]> empty_well))
             (Piece KIND_J 0 2 3 0 0).

(** ** Row removal *)

(** A row without an empty cell. *)
Definition row_full (row : list Z) : Prop := Forall (λ v, v ≠ 0) row.

#[global] Instance row_full_dec (row : list Z) : Decision (row_full row).
Proof. unfold row_full. apply _. Defined.

(** One round of [clear_rows] on the well as a list of rows: row [n]
    goes, a copy of the top row [r0] is put on top. *)
Definition remove_row (r0 : list Z) (w : well_t) (n : Z) : well_t :=
  r0 :: delete (Z.to_nat n) w.

(** The well without its full rows, the other rows in their order at
    the bottom, and a copy of the old top row for every row taken out. *)
Definition compact (w : well_t) : well_t :=
  let keep := filter (λ row, ¬ row_full row) w in
  replicate (length w - length keep) (well_row w 0) ++ keep.

(** The rows of [l] that are full, by index. *)
Definition full_at (l : well_t) (y : Z) : Prop :=
  from_option row_full False (l !! Z.to_nat y).

#[global] Instance full_at_dec l y : Decision (full_at l y).
Proof. unfold full_at. destruct (l !! Z.to_nat y); simpl; apply _. Defined.

(** A well whose four bottom rows are full, under a fragment in row 17,
    and the state in which [update] has recorded the four rows. *)
Definition four_rows_well : well_t :=
  replicate 17%nat empty_row ++ [[0; 0; 0; 3; 3; 0; 0; 0; 0; 0]]
    ++ replicate 4%nat (replicate 10%nat 4).

Definition four_rows_pending : game :=
  set_cleared_rows [18; 19; 20; 21]
    (state_with four_rows_well (Piece KIND_O 0 1 3 0 0)).

(** A well with five full rows and a piece falling above them. *)
Definition five_rows_state : game :=
  state_with (replicate 17%nat empty_row ++ replicate 5%nat (replicate 10%nat 4))
             (Piece KIND_O 0 1 3 0 0).

(** The state a gravity step leaves. *)
Definition after (g : gravity_result) : game :=
  match g with Stopped s | Falling s => s end.

(** ** Formatting *)

(** The [m] low digits of [n] in radix [r], the most significant
    first, and the number a list of digits stands for. *)
Fixpoint digits_of (r : Z) (m : nat) (n : Z) : list Z :=
  match m with
  | O => []
  | S m' => digits_of r m' (n / r) ++ [n `mod` r]
  end.

Definition number_of (r : Z) (ds : list Z) : Z :=
  foldl (λ acc d, acc * r + d) 0 ds.

(** The character [itoa] writes for a digit. *)
Definition digit_char (d : Z) : Z := default 0 (array_get itoa_digits d).

(** The buffer of [itoa] before the first call. *)
Definition fresh_buffer : list Z := replicate 34%nat 0.

(** ** Pace *)

(** The level, the rows counted towards the next level and the gravity
    interval fit together. *)
Definition paced (s : game) : Prop :=
  1 ≤ level s < 2 ^ 32 ∧ 0 ≤ level_rows s < ROWS_PER_LEVEL ∧
  speed s = interval_at (level s).

(** The start of [opening] after two hard drops. *)
Definition third_piece : game := Eval vm_compute in
  default boot_state
    (run still_clock [HardDrop; HardDrop] (default boot_state opening)).

(** [two_rows_clean] after one [update] and after two. *)
Definition scored_once : game := Eval vm_compute in
  default boot_state (update still_clock two_rows_clean).

Definition scored_twice : game := Eval vm_compute in
  default boot_state (update still_clock scored_once).

(** * Verification *)

(** ** Machine integers and loops *)

(** Case analysis on a hypothesis [H : z = a ∨ z = b ∨ ...]. *)
Ltac cases H := repeat (destruct H as [H|H]); subst.

Lemma uint8_id z : 0 ≤ z < 256 → uint8 z = z.
Proof. intros. unfold uint8. by rewrite Z.mod_small. Qed.

Lemma sint8_id z : -128 ≤ z < 128 → sint8 z = z.
Proof. intros. unfold sint8. rewrite Z.mod_small; lia. Qed.

Lemma uint32_id z : 0 ≤ z < 4294967296 → uint32 z = z.
Proof. intros. unfold uint32. by rewrite Z.mod_small. Qed.

Lemma uint32_add_idemp a b : uint32 (a + uint32 b) = uint32 (a + b).
Proof. unfold uint32. by rewrite Zplus_mod_idemp_r. Qed.

Lemma array_get_Some {A} (arr : list A) z a :
  array_get arr z = Some a ↔ 0 ≤ z ∧ arr !! Z.to_nat z = Some a.
Proof.
  unfold array_get. destruct (Z.leb_spec 0 z); split.
  - by intros ->.
  - by intros [_ ->].
  - done.
  - intros [? _]. lia.
Qed.

Lemma array_get_nat {A} (arr : list A) (n : nat) :
  array_get arr (Z.of_nat n) = arr !! n.
Proof.
  unfold array_get. destruct (Z.leb_spec 0 (Z.of_nat n)); [|lia].
  by rewrite Nat2Z.id.
Qed.

Lemma for_each_app {A S} (body : A → S → option S) l1 l2 s :
  for_each body (l1 ++ l2) s = s' ← for_each body l1 s; for_each body l2 s'.
Proof.
  revert s. induction l1 as [|a l1 IH]; intros s; simpl; [done|].
  destruct (body a s); simpl; [apply IH | done].
Qed.

(** Every kind in 0..6 and rotation in 0..3 names a grid of the table. *)
Lemma tetrimino_defined i r :
  0 ≤ i < 7 → 0 ≤ r < 4 → is_Some (tetrimino i r).
Proof.
  intros Hi Hr.
  assert (i = 0 ∨ i = 1 ∨ i = 2 ∨ i = 3 ∨ i = 4 ∨ i = 5 ∨ i = 6) as Hi' by lia.
  assert (r = 0 ∨ r = 1 ∨ r = 2 ∨ r = 3) as Hr' by lia.
  cases Hi'; cases Hr'; by eexists.
Qed.

Lemma tetrimino_range i r t :
  tetrimino i r = Some t → 0 ≤ i < 7 ∧ 0 ≤ r < 4.
Proof.
  unfold tetrimino. intros H.
  apply bind_Some in H as (rots & Hi & Hr).
  apply array_get_Some in Hi as [Hi0 Hi].
  apply array_get_Some in Hr as [Hr0 Hr].
  apply lookup_lt_Some in Hi as Hi'. simpl in Hi'.
  assert (i = 0 ∨ i = 1 ∨ i = 2 ∨ i = 3 ∨ i = 4 ∨ i = 5 ∨ i = 6) as Hi'' by lia.
  cases Hi''; simpl in Hi; simplify_eq;
    apply lookup_lt_Some in Hr; simpl in Hr; lia.
Qed.

(** ** Collision (C1) *)

Lemma occupied_default w y x :
  default 0 (well_get w y x) ≠ 0 ↔ occupied w y x.
Proof.
  unfold occupied. destruct (well_get w y x) as [v|]; simpl; split.
  - intros Hv. by exists v.
  - by intros (? & [= <-] & ?).
  - done.
  - by intros (? & [=] & _).
Qed.

Lemma blocked_hits w x y xx yy :
  blocked w x y xx yy = true ↔ hits w x y xx yy.
Proof.
  unfold blocked, hits.
  rewrite !orb_true_iff, !Z.ltb_lt, !Z.geb_le, negb_true_iff, Z.eqb_neq.
  rewrite occupied_default. tauto.
Qed.

Lemma collide_grid_true t w x y :
  collide_grid t w x y = true ↔ some_cell t (hits w x y).
Proof.
  unfold collide_grid, some_cell, offsets. rewrite existsb_exists. split.
  - intros (yy & Hyy & H). apply existsb_exists in H as (xx & Hxx & H).
    apply list_elem_of_In, elem_of_seqZ in Hyy.
    apply list_elem_of_In, elem_of_seqZ in Hxx.
    apply andb_true_iff in H as [Hc Hb].
    apply negb_true_iff, Z.eqb_neq in Hc. apply blocked_hits in Hb.
    exists yy, xx. repeat split; try lia; done.
  - intros (yy & xx & Hyy & Hxx & Hc & Hb).
    exists yy. split; [apply list_elem_of_In, elem_of_seqZ; lia|].
    apply existsb_exists. exists xx.
    split; [apply list_elem_of_In, elem_of_seqZ; lia|].
    apply andb_true_iff. split; [|by apply blocked_hits].
    by apply negb_true_iff, Z.eqb_neq.
Qed.

(** C1 as the code has it. For every kind [i] in 0..6, rotation [r] in
    0..3 and coordinates [(x, y)], [collide] is defined, and it returns
    true if and only if some nonzero cell of [TETRIS[i][r]] lands left or
    right of the well, above its top row ([y + yy < 0]), at or below its
    floor, or on an occupied well cell. *)
Theorem C1_collide_iff w i r x y :
  0 ≤ i < 7 → 0 ≤ r < 4 →
  ∃ t b, tetrimino i r = Some t ∧ collide w i r x y = Some b ∧
         (b = true ↔ some_cell t (hits w x y)).
Proof.
  intros Hi Hr. destruct (tetrimino_defined i r Hi Hr) as [t Ht].
  exists t, (collide_grid t w x y). split; [done|]. split.
  - unfold collide. by rewrite Ht.
  - apply collide_grid_true.
Qed.

Lemma C1_collide_iff_witness :
  ∃ t b, tetrimino KIND_T 1 = Some t ∧
         collide empty_well KIND_T 1 8 5 = Some b ∧
         (b = true ↔ some_cell t (hits empty_well 8 5)).
Proof. apply C1_collide_iff; unfold KIND_T; lia. Defined.

(** C1, counterexample: the flat I piece two rows above an empty well.
    Its cells sit at board row -1, inside the horizontal bounds and on no
    occupied cell, and [collide] returns true. *)
Lemma C1_top_counterexample :
  collide empty_well KIND_I 0 3 (-2) = Some true ∧
  ¬ collide_ignores_top empty_well KIND_I 0 3 (-2).
Proof.
  split; [reflexivity|].
  intros H. specialize (H _ eq_refl) as [H _].
  destruct (H eq_refl) as (yy & xx & Hyy & Hxx & _ & Hh).
  unfold hits_no_top, occupied, WELL_WIDTH, WELL_HEIGHT in Hh.
  destruct Hh as [?|[?|[?|(v & Hv & Hne)]]]; try lia.
  assert (yy = 0 ∨ yy = 1 ∨ yy = 2 ∨ yy = 3) as Hy' by lia.
  assert (xx = 0 ∨ xx = 1 ∨ xx = 2 ∨ xx = 3) as Hx' by lia.
  cases Hy'; cases Hx'; vm_compute in Hv; congruence.
Qed.

Lemma collide_defined w i r x y :
  is_Some (tetrimino i r) → ∃ b, collide w i r x y = Some b.
Proof. intros [t Ht]. unfold collide. rewrite Ht. by eexists. Qed.

(** ** Moving and rotating (C7) *)

Lemma move_game_over dx dy s :
  game_over s = true → move dx dy s = Some (false, s).
Proof. intros H. unfold move. by rewrite H. Qed.

Lemma rotate_game_over s :
  game_over s = true → rotate s = Some (false, s).
Proof. intros H. unfold rotate. by rewrite H. Qed.

(** A failed [move] returns the state it was given. *)
Lemma move_false dx dy s s' :
  move dx dy s = Some (false, s') → s' = s.
Proof.
  unfold move. destruct (game_over s); [by intros [= <-]|].
  destruct (collide _ _ _ _ _) as [[]|]; simpl; by intros [= <-].
Qed.

(** [move] touches nothing but the coordinates of the current piece. *)
Lemma move_frame dx dy s ok s' :
  move dx dy s = Some (ok, s') →
  ∃ x y, s' = set_current (set_xy x y (current s)) s ∨ s' = s.
Proof.
  unfold move. destruct (game_over s); [intros [= <- <-]; by exists 0, 0; right|].
  destruct (collide _ _ _ _ _) as [[]|]; simpl; intros [= <- <-].
  - exists 0, 0. by right.
  - eexists _, _. by left.
Qed.

(** C7. In a state that is not game over, [move dx dy] tests [collide]
    for the current kind and rotation at the coordinates [x + dx],
    [y + dy] (as stored back into the [int8_t] fields, which is the plain
    sum whenever it fits): on a collision it returns false and the whole
    state is unchanged, otherwise it returns true and only the position
    changes, to the tested coordinates. [rotate] tests [collide] at the
    unchanged [(x, y)] with rotation [(r + 1) mod 4] and nothing else: on
    a collision it returns false and the state is unchanged, otherwise it
    returns true and only the rotation changes. Both are defined
    whenever the kind and the rotation tested are in the piece table. *)
Theorem C7_move_rotate s dx dy :
  game_over s = false →
  let c := current s in
  let x' := sint8 (c_x c + dx) in
  let y' := sint8 (c_y c + dy) in
  let r' := (c_r c + 1) `mod` 4 in
  (-128 ≤ c_x c + dx < 128 → x' = c_x c + dx) ∧
  (-128 ≤ c_y c + dy < 128 → y' = c_y c + dy) ∧
  (collide (well s) (c_i c) (c_r c) x' y' = Some true →
   move dx dy s = Some (false, s)) ∧
  (collide (well s) (c_i c) (c_r c) x' y' = Some false →
   move dx dy s =
     Some (true,
           set_current (Piece (c_i c) (c_r c) (c_p c) x' y' (c_g c)) s)) ∧
  (is_Some (tetrimino (c_i c) (c_r c)) → is_Some (move dx dy s)) ∧
  (collide (well s) (c_i c) r' (c_x c) (c_y c) = Some true →
   rotate s = Some (false, s)) ∧
  (collide (well s) (c_i c) r' (c_x c) (c_y c) = Some false →
   rotate s =
     Some (true,
           set_current (Piece (c_i c) r' (c_p c) (c_x c) (c_y c) (c_g c)) s)) ∧
  (is_Some (tetrimino (c_i c) r') → is_Some (rotate s)).
Proof.
  intros Hgo c x' y' r'.
  assert (uint8 r' = r') as Hr.
  { apply uint8_id. pose proof (Z.mod_pos_bound (c_r c + 1) 4). lia. }
  split; [apply sint8_id|]. split; [apply sint8_id|].
  unfold move, rotate. rewrite Hgo. fold c x' y' r'. rewrite Hr.
  split; [by intros ->|]. split; [by intros ->|]. split.
  { intros Ht. destruct (collide_defined (well s) _ _ x' y' Ht) as [[] ->]; by eexists. }
  split; [by intros ->|]. split; [by intros ->|].
  intros Ht.
  destruct (collide_defined (well s) _ _ (c_x c) (c_y c) Ht) as [[] ->]; by eexists.
Qed.

(** ** Game over (C3) *)

Section GameOver.

Variable rdtsc : nat → Z.

Lemma soft_drop_game_over s : game_over s = true → soft_drop s = Some s.
Proof. intros H. unfold soft_drop. by rewrite move_game_over. Qed.

Lemma drop_game_over s : game_over s = true → drop rdtsc s = Some s.
Proof. intros H. unfold drop. by rewrite H. Qed.

Lemma run_game_over acts s :
  game_over s = true → Forall piece_call acts → run rdtsc acts s = Some s.
Proof.
  intros Hgo Hacts. unfold run.
  induction Hacts as [|a acts Ha _ IH]; simpl; [done|].
  assert (step rdtsc a s = Some s) as ->; [|exact IH].
  destruct a; simpl in *; try done.
  - by rewrite move_game_over.
  - by rewrite rotate_game_over.
  - by apply soft_drop_game_over.
  - by apply drop_game_over.
Qed.

(** The early return of [update]. *)
Lemma update_stops s :
  fst <$> move 0 1 s = Some false → c_y (current s) = 0 →
  gravity rdtsc s = Some (Stopped (set_game_over true s)).
Proof.
  intros Hm Hy. unfold gravity.
  destruct (move 0 1 s) as [[[] s1]|] eqn:E; simplify_eq/=.
  apply move_false in E as ->. by rewrite Hy.
Qed.

End GameOver.

(** C3. If in an [update] call the gravity [move(0, 1)] fails while
    [current.y] is 0, the call sets [game_over] and returns at once: the
    resulting state differs from the old one in that flag only, so
    nothing was locked and nothing spawned. From then on every [move],
    [rotate], [soft_drop] and [drop], in any number and order, returns
    the state unchanged, [move] and [rotate] answering false. *)
Theorem C3_game_over rdtsc s :
  fst <$> move 0 1 s = Some false → c_y (current s) = 0 →
  let s' := set_game_over true s in
  update rdtsc s = Some s' ∧
  game_over s' = true ∧
  well s' = well s ∧ current s' = current s ∧ bag s' = bag s ∧
  stats s' = stats s ∧ score s' = score s ∧ cleared_rows s' = cleared_rows s ∧
  (∀ dx dy, move dx dy s' = Some (false, s')) ∧
  rotate s' = Some (false, s') ∧
  soft_drop s' = Some s' ∧
  drop rdtsc s' = Some s' ∧
  (∀ acts, Forall piece_call acts → run rdtsc acts s' = Some s').
Proof.
  intros Hm Hy s'.
  assert (game_over s' = true) as Hgo by done.
  split. { unfold update. by rewrite update_stops. }
  do 7 (split; [reflexivity|]).
  split; [intros; by apply move_game_over|].
  split; [by apply rotate_game_over|].
  split; [by apply soft_drop_game_over|].
  split; [by apply drop_game_over|].
  intros. by apply run_game_over.
Qed.

(** ** Ghost (C4) *)

Lemma ghost_loop_defined w i r x fuel y :
  is_Some (tetrimino i r) → is_Some (ghost_loop w i r x fuel y).
Proof.
  intros Ht. revert y. induction fuel as [|fuel IH]; intros y; simpl; [done|].
  destruct (collide_defined w i r x y Ht) as [[] ->]; simpl; [done|apply IH].
Qed.

(** The loop stops at the first colliding row, or at the loop bound. *)
Lemma ghost_loop_first w i r x fuel y y1 :
  ghost_loop w i r x fuel y = Some y1 →
  y ≤ y1 ≤ y + Z.of_nat fuel ∧
  (∀ y', y ≤ y' < y1 → collide w i r x y' = Some false) ∧
  (y1 < y + Z.of_nat fuel → collide w i r x y1 = Some true).
Proof.
  revert y. induction fuel as [|fuel IH]; intros y; simpl.
  - intros [= <-]. repeat split; lia.
  - destruct (collide w i r x y) as [[]|] eqn:Hc; simpl; [| |done].
    + intros [= <-]. repeat split; [lia..|done].
    + intros H. apply IH in H as (Hle & Hfree & Hhit).
      split; [lia|]. split.
      * intros y' Hy'. destruct (decide (y' = y)) as [->|]; [done|].
        apply Hfree. lia.
      * intros. apply Hhit. lia.
Qed.

(** C4 as the code has it. If the current piece does not collide where
    it is and does collide at some row [y1] further down inside the well,
    [ghost] stores in [current.g] the least [g >= y] at which the piece
    rests ([collide] false at [g], true at [g + 1]); the piece fits at
    every row from [y] to [g]. Nothing else changes. *)
Theorem C4_ghost_least s y1 :
  let c := current s in
  let fits y := collide (well s) (c_i c) (c_r c) (c_x c) y in
  -128 ≤ c_y c →
  fits (c_y c) = Some false →
  c_y c < y1 < WELL_HEIGHT → fits y1 = Some true →
  ∃ g, ghost s = Some (set_current (set_g g c) s) ∧
       c_y c ≤ g < y1 ∧
       rests (well s) (c_i c) (c_r c) (c_x c) g ∧
       (∀ y', c_y c ≤ y' ≤ g → fits y' = Some false) ∧
       (∀ y', c_y c ≤ y' → rests (well s) (c_i c) (c_r c) (c_x c) y' → g ≤ y').
Proof.
  intros c fits Hlo Hfree Hy1 Hhit. unfold WELL_HEIGHT in Hy1.
  assert (is_Some (tetrimino (c_i c) (c_r c))) as Ht.
  { unfold fits, collide in Hfree. by destruct (tetrimino _ _). }
  destruct (ghost_loop_defined (well s) (c_i c) (c_r c) (c_x c)
              (Z.to_nat (WELL_HEIGHT - c_y c)) (c_y c) Ht) as [y2 Hloop].
  pose proof (ghost_loop_first _ _ _ _ _ _ _ Hloop) as (Hle & Hfits & Hstop).
  unfold WELL_HEIGHT in Hle, Hstop.
  assert (y2 ≤ y1) as Hy2.
  { destruct (decide (y2 ≤ y1)) as [|Hn]; [done|].
    unfold fits in Hhit. rewrite Hfits in Hhit by lia. done. }
  assert (c_y c < y2) as Hgt.
  { destruct (decide (y2 = c_y c)) as [Heq|]; [|lia].
    rewrite Heq in Hstop. unfold fits in Hfree.
    rewrite Hstop in Hfree by lia. done. }
  exists (y2 - 1). split.
  { unfold ghost. fold c. rewrite Hloop. simpl. by rewrite sint8_id by lia. }
  split; [lia|]. split.
  { split; [apply Hfits; lia|]. replace (y2 - 1 + 1) with y2 by lia.
    apply Hstop. lia. }
  split; [intros; apply Hfits; lia|].
  intros y' Hy' [_ Hnext].
  destruct (decide (y2 - 1 ≤ y')) as [|Hn]; [done|].
  rewrite Hfits in Hnext by lia. done.
Qed.

Lemma C4_ghost_least_witness :
  let s := under_overhang in
  let c := current s in
  ∃ g, ghost s = Some (set_current (set_g g c) s) ∧
       c_y c ≤ g < 15 ∧
       rests (well s) (c_i c) (c_r c) (c_x c) g ∧
       (∀ y', c_y c ≤ y' ≤ g →
              collide (well s) (c_i c) (c_r c) (c_x c) y' = Some false) ∧
       (∀ y', c_y c ≤ y' → rests (well s) (c_i c) (c_r c) (c_x c) y' → g ≤ y').
Proof.
  apply (C4_ghost_least under_overhang 15);
    [simpl; lia | reflexivity | unfold WELL_HEIGHT; simpl; lia | reflexivity].
Defined.

(** C4, counterexample: under the overhang the O rests at row 14, where
    [ghost] puts it, and again at row 19 on the floor. *)
Lemma C4_unique_counterexample :
  c_g <$> (current <$> ghost under_overhang) = Some 14 ∧
  rests overhang_well KIND_O 0 0 14 ∧
  rests overhang_well KIND_O 0 0 19 ∧
  ¬ ghost_is_only_rest under_overhang.
Proof.
  split; [reflexivity|]. split; [by split|]. split; [by split|].
  intros H. destruct (H _ eq_refl) as [_ Huniq].
  specialize (Huniq 19). simpl in Huniq.
  assert (19 = 14) as Habs; [|lia].
  apply Huniq; [lia|]. by split.
Qed.

(** ** The bag (C9) *)

Section Bag.

Variable rdtsc : nat → Z.

Lemma rand_spec range n :
  0 < range →
  ∃ j, rand rdtsc range n = Some (j, S n) ∧ 0 ≤ j < range.
Proof.
  intros Hr. unfold rand. destruct (Z.eqb_spec range 0); [lia|].
  eexists. split; [done|]. by apply Z.mod_pos_bound.
Qed.

(** [shuffle] only swaps elements. *)
Lemma shuffle_loop_Permutation i : ∀ arr n arr' n',
  shuffle_loop rdtsc i arr n = Some (arr', n') → arr' ≡ₚ arr.
Proof.
  induction i as [|i IH]; intros arr n arr' n'; cbn [shuffle_loop].
  - by intros [= <- <-].
  - intros H.
    apply bind_Some in H as ([j n1] & _ & H). simpl in H.
    apply bind_Some in H as (t & Ht & H).
    apply bind_Some in H as (aj & Haj & H).
    apply IH in H. rewrite H.
    by apply Permutation_insert_swap.
Qed.

Lemma shuffle_Permutation arr len n arr' n' :
  shuffle rdtsc arr len n = Some (arr', n') → arr' ≡ₚ arr.
Proof. apply shuffle_loop_Permutation. Qed.

(** [shuffle] stays inside an array that has [len] elements. *)
Lemma shuffle_loop_defined i : ∀ arr n,
  (i < length arr)%nat → Z.of_nat i + 1 < 4294967296 →
  is_Some (shuffle_loop rdtsc i arr n).
Proof.
  induction i as [|i IH]; intros arr n Hi Hr; cbn [shuffle_loop]; [done|].
  rewrite uint32_id by lia.
  destruct (rand_spec (Z.of_nat (S i) + 1) n) as (j & -> & Hj); [lia|].
  simpl.
  destruct (lookup_lt_is_Some_2 arr (S i)) as [t ->]; [done|]. simpl.
  destruct (lookup_lt_is_Some_2 arr (Z.to_nat j)) as [aj ->]; [lia|]. simpl.
  apply IH; [|lia]. rewrite !length_insert. lia.
Qed.

Lemma shuffle_defined arr n :
  length arr = Z.to_nat BAG_SIZE →
  ∃ arr' n', shuffle rdtsc arr BAG_SIZE n = Some (arr', n').
Proof.
  intros Hlen. unfold BAG_SIZE in *.
  destruct (shuffle_loop_defined 6 arr n) as [[arr' n'] H]; [lia..|].
  by exists arr', n'.
Qed.

Lemma bag_ok_length b : bag_ok b → length b = Z.to_nat BAG_SIZE.
Proof. intros H. apply Permutation_length in H. by rewrite H. Qed.

Lemma bag_ok_kind b p k :
  bag_ok b → b !! p = Some k → 0 ≤ k < BAG_SIZE.
Proof.
  intros Hb Hk. apply list_elem_of_lookup_2 in Hk.
  unfold bag_ok in Hb. rewrite Hb in Hk. apply elem_of_seqZ in Hk. lia.
Qed.

(** What [spawn] does, step by step. *)
Lemma spawn_spec s :
  let c := current s in
  bag_ok (bag s) → 0 ≤ c_p c < BAG_SIZE →
  length (stats s) = Z.to_nat BAG_SIZE →
  ∃ k st b n,
    bag s !! Z.to_nat (c_p c) = Some k ∧ 0 ≤ k < BAG_SIZE ∧
    stats s !! Z.to_nat k = Some st ∧
    (if decide (c_p c + 1 = BAG_SIZE)
     then shuffle rdtsc (bag s) BAG_SIZE (tsc s) = Some (b, n)
     else b = bag s ∧ n = tsc s) ∧
    spawn rdtsc s =
      Some (Game (well s)
              (Piece k 0 (if decide (c_p c + 1 = BAG_SIZE) then 0 else c_p c + 1)
                     3 0 (c_g c))
              b (<[Z.to_nat k := uint32 (st + 1)]> (stats s))
              (score s) (level s) (speed s) (level_up s) (paused s)
              (game_over s) (cleared_rows s) (level_rows s) n).
Proof.
  intros c Hb Hp Hst. pose proof (bag_ok_length _ Hb) as Hlen.
  unfold BAG_SIZE in *.
  destruct (lookup_lt_is_Some_2 (bag s) (Z.to_nat (c_p c))) as [k Hk]; [lia|].
  pose proof (bag_ok_kind _ _ _ Hb Hk) as Hkr. unfold BAG_SIZE in Hkr.
  destruct (lookup_lt_is_Some_2 (stats s) (Z.to_nat k)) as [st Hs]; [lia|].
  assert (array_get (bag s) (c_p c) = Some k) as Hk'.
  { apply array_get_Some. split; [lia|done]. }
  assert (array_get (stats s) k = Some st) as Hs'.
  { apply array_get_Some. split; [lia|done]. }
  unfold spawn, BAG_SIZE. fold c. rewrite Hk'. simpl. rewrite Hs'. simpl.
  rewrite uint8_id by lia.
  destruct (decide (c_p c + 1 = 7)) as [Heq|Hne].
  - destruct (shuffle_defined (bag s) (tsc s)) as (b & n & Hsh); [done|].
    unfold BAG_SIZE in *. exists k, st, b, n. rewrite Heq. simpl.
    rewrite Hsh. split_and!; done || lia.
  - exists k, st, (bag s), (tsc s).
    destruct (Z.eqb_spec (c_p c + 1) 7); [done|].
    split; [done|]. split; [lia|]. by repeat split.
Qed.

Lemma spawn_bag s s' :
  spawn rdtsc s = Some s' →
  bag s' ≡ₚ bag s ∧ length (stats s') = length (stats s) ∧
  (c_p (current s') ≠ 0 → bag s' = bag s).
Proof.
  unfold spawn. intros H.
  apply bind_Some in H as (k & Hk & H).
  apply bind_Some in H as (st & Hst & H).
  destruct (_ =? BAG_SIZE).
  - apply bind_Some in H as ([b n] & Hsh & [= <-]). simpl.
    apply shuffle_Permutation in Hsh.
    split; [done|]. split; [by rewrite length_insert|done].
  - injection H as <-. simpl. split; [done|]. by rewrite length_insert.
Qed.

End Bag.

(** *** Every operation but [spawn] leaves the bag alone *)

Lemma quiet_refl s : quiet s s.
Proof. by repeat split. Qed.

Lemma quiet_trans s1 s2 s3 : quiet s1 s2 → quiet s2 s3 → quiet s1 s3.
Proof.
  intros (Hb & Hp & Hs) (Hb' & Hp' & Hs'). unfold quiet.
  rewrite Hb', Hp', Hs'. by repeat split.
Qed.

Lemma move_quiet dx dy s ok s' : move dx dy s = Some (ok, s') → quiet s s'.
Proof.
  intros H. apply move_frame in H as (x & y & [-> | ->]);
    [by repeat split | apply quiet_refl].
Qed.

Lemma rotate_quiet s ok s' : rotate s = Some (ok, s') → quiet s s'.
Proof.
  unfold rotate. destruct (game_over s); [by intros [= <- <-]|].
  destruct (collide _ _ _ _ _) as [[]|]; simpl; intros [= <- <-]; by repeat split.
Qed.

Lemma soft_drop_quiet s s' : soft_drop s = Some s' → quiet s s'.
Proof.
  unfold soft_drop. intros H.
  apply bind_Some in H as ([ok s1] & Hm & H). apply move_quiet in Hm.
  destruct ok; injection H as <-; [|done].
  eapply quiet_trans; [exact Hm|]. by repeat split.
Qed.

Lemma ghost_quiet s s' : ghost s = Some s' → quiet s s'.
Proof.
  unfold ghost. intros H. apply bind_Some in H as (y & _ & [= <-]).
  by repeat split.
Qed.

Lemma lock_quiet s s' : lock s = Some s' → quiet s s'.
Proof.
  unfold lock. intros H. apply bind_Some in H as (t & _ & H).
  apply bind_Some in H as (w & _ & [= <-]). by repeat split.
Qed.

Lemma clear_rows_quiet s s' : clear_rows s = Some s' → quiet s s'.
Proof.
  unfold clear_rows. intros H.
  apply bind_Some in H as ([w cr] & _ & [= <-]). by repeat split.
Qed.

Lemma leveling_quiet rows s s' : leveling rows s = Some s' → quiet s s'.
Proof.
  unfold leveling. destruct (_ >=? _); [destruct (_ =? 0); [done|]|];
    intros [= <-]; by repeat split.
Qed.

Lemma update_rows_quiet s s' : update_rows s = Some s' → quiet s s'.
Proof.
  unfold update_rows. intros H.
  apply bind_Some in H as ([[cr i] rows] & _ & H).
  apply leveling_quiet in H. eapply quiet_trans; [|exact H]. by repeat split.
Qed.

Section Runs.

Variable rdtsc : nat → Z.

Lemma draws_app s ks1 s1 ks2 s2 :
  draws rdtsc s ks1 s1 → draws rdtsc s1 ks2 s2 →
  draws rdtsc s (ks1 ++ ks2) s2.
Proof.
  induction 1 as [s|s s1 ks s2' Hq _ IH|s s1 ks s2' Hs _ IH]; intros H2.
  - done.
  - eapply draws_quiet; [done|]. by apply IH.
  - simpl. eapply draws_spawn; [done|]. by apply IH.
Qed.

Lemma quiet_draws s s' : quiet s s' → draws rdtsc s [] s'.
Proof. intros. eapply draws_quiet; [done|]. apply draws_done. Qed.

Lemma draws_nil_quiet s ks s' : draws rdtsc s ks s' → ks = [] → quiet s s'.
Proof.
  induction 1 as [s|s s1 ks s2 Hq _ IH|]; intros Hks.
  - apply quiet_refl.
  - eapply quiet_trans; [done|]. by apply IH.
  - done.
Qed.

(** The gravity step deals at most one piece. *)
Lemma gravity_draws s g :
  gravity rdtsc s = Some g →
  match g with
  | Stopped s' => quiet s s'
  | Falling s' => ∃ ks, draws rdtsc s ks s' ∧ (length ks ≤ 1)%nat
  end.
Proof.
  unfold gravity. intros H.
  apply bind_Some in H as ([ok s1] & Hm & H). apply move_quiet in Hm.
  destruct ok.
  - injection H as <-. exists []. split; [by apply quiet_draws | simpl; lia].
  - destruct (_ =? 0).
    + injection H as <-. eapply quiet_trans; [done|]. by repeat split.
    + apply bind_Some in H as (s2 & Hl & H). apply lock_quiet in Hl.
      apply bind_Some in H as (s3 & Hs & [= <-]).
      exists [c_i (current s3)]. split; [|simpl; lia].
      eapply draws_quiet; [by eapply quiet_trans|].
      eapply draws_spawn; [done|]. apply draws_done.
Qed.

Lemma update_draws s s' :
  update rdtsc s = Some s' →
  ∃ ks, draws rdtsc s ks s' ∧ (length ks ≤ 1)%nat.
Proof.
  unfold update. intros H. apply bind_Some in H as (g & Hg & H).
  apply gravity_draws in Hg. destruct g as [s1|s1].
  - injection H as <-. exists []. split; [by apply quiet_draws | simpl; lia].
  - destruct Hg as (ks & Hd & Hlen). apply update_rows_quiet in H.
    exists ks. split; [|done].
    rewrite <- (app_nil_r ks). eapply draws_app; [done|]. by apply quiet_draws.
Qed.

Lemma step_draws a s s' :
  step rdtsc a s = Some s' →
  ∃ ks, draws rdtsc s ks s' ∧ (length ks ≤ 1)%nat.
Proof.
  destruct a; simpl; intros H.
  - apply fmap_Some in H as ([ok s1] & Hm & ->). apply move_quiet in Hm.
    exists []. split; [by apply quiet_draws | simpl; lia].
  - apply fmap_Some in H as ([ok s1] & Hm & ->). apply rotate_quiet in Hm.
    exists []. split; [by apply quiet_draws | simpl; lia].
  - apply soft_drop_quiet in H.
    exists []. split; [by apply quiet_draws | simpl; lia].
  - unfold drop in H. destruct (game_over s).
    + injection H as <-. exists []. split; [apply draws_done | simpl; lia].
    + apply update_draws in H as (ks & Hd & Hlen). exists ks. split; [|done].
      eapply draws_quiet; [|exact Hd]. by repeat split.
  - by apply update_draws.
  - apply clear_rows_quiet in H.
    exists []. split; [by apply quiet_draws | simpl; lia].
  - apply ghost_quiet in H.
    exists []. split; [by apply quiet_draws | simpl; lia].
Qed.

(** Every run of the engine is a sequence of draws. *)
Lemma run_draws acts : ∀ s s',
  run rdtsc acts s = Some s' → ∃ ks, draws rdtsc s ks s'.
Proof.
  unfold run. induction acts as [|a acts IH]; intros s s'; simpl.
  - intros [= <-]. exists []. apply draws_done.
  - intros H. apply bind_Some in H as (s1 & Ha & H).
    apply step_draws in Ha as (ks1 & Hd1 & _). apply IH in H as (ks2 & Hd2).
    exists (ks1 ++ ks2). by eapply draws_app.
Qed.

Lemma deal_draws n : ∀ s ks s',
  deal rdtsc n s = Some (ks, s') →
  draws rdtsc s ks s' ∧ length ks = n.
Proof.
  induction n as [|n IH]; intros s ks s'; simpl.
  - intros [= <- <-]. split; [apply draws_done | done].
  - intros H. apply bind_Some in H as (s1 & Hs & H).
    apply bind_Some in H as ([ks1 s2] & Hd & [= <- <-]).
    apply IH in Hd as [Hd <-]. split; [|done]. by eapply draws_spawn.
Qed.

(** Draws never change what the bag holds. *)
Lemma draws_bag s ks s' :
  draws rdtsc s ks s' →
  bag s' ≡ₚ bag s ∧ length (stats s') = length (stats s).
Proof.
  induction 1 as [s|s s1 ks s2 (Hb & _ & Hs) _ [IHb IHs]|s s1 ks s2 Hs _ [IHb IHs]].
  - done.
  - by rewrite IHb, IHs, Hb, Hs.
  - apply spawn_bag in Hs as (Hb & Hs & _). by rewrite IHb, IHs, Hb, Hs.
Qed.

(** The draws that fit into what is left of the current bag are its
    next elements; taking the last one brings the cursor back to 0. *)
Lemma draws_window s ks s' :
  draws rdtsc s ks s' →
  let p := c_p (current s) in
  bag_ok (bag s) → 0 ≤ p < BAG_SIZE →
  length (stats s) = Z.to_nat BAG_SIZE →
  Z.of_nat (length ks) ≤ BAG_SIZE - p →
  ks = take (length ks) (skipn (Z.to_nat p) (bag s)) ∧
  if decide (Z.of_nat (length ks) = BAG_SIZE - p)
  then c_p (current s') = 0
  else bag s' = bag s ∧ c_p (current s') = p + Z.of_nat (length ks).
Proof.
  induction 1 as [s|s s1 ks s2 (Hb & Hp & Hs) _ IH|s s1 ks s2 Hs Hd IH];
    intros p Hbag Hpr Hst Hlen; subst p; unfold BAG_SIZE in *.
  - split; [done|]. simpl. rewrite decide_False by lia. split; [done|lia].
  - rewrite Hb, Hp, Hs in IH. specialize (IH Hbag Hpr Hst Hlen).
    destruct IH as [IH1 IH2]. split; [done|]. exact IH2.
  - destruct (spawn_spec rdtsc s Hbag Hpr Hst)
      as (k & st & b & n & Hk & Hkr & Hsk & Hsh & Heq).
    rewrite Heq in Hs. injection Hs as <-.
    cbn [current c_i c_p bag stats] in *.
    simpl in Hlen. unfold BAG_SIZE in *.
    rewrite (drop_S _ _ _ Hk). simpl.
    destruct (decide (c_p (current s) + 1 = 7)) as [Hp7|Hp7].
    + assert (ks = []) as -> by (destruct ks; [done|simpl in Hlen; lia]).
      split; [done|]. simpl. rewrite decide_True by lia.
      apply draws_nil_quiet in Hd as (_ & -> & _); done.
    + destruct Hsh as [-> ->].
      destruct IH as [IH1 IH2]; [done | lia | by rewrite length_insert | lia |].
      replace (Z.to_nat (c_p (current s) + 1))
        with (S (Z.to_nat (c_p (current s)))) in IH1 by lia.
      split; [by rewrite <- IH1|].
      do 2 case_decide; try lia; try done.
      destruct IH2 as [-> ->]. split; [done|lia].
Qed.

End Runs.

(** C9. The bag holds a permutation of the kinds 0..6 at all times: its
    initial value does, [shuffle] returns a permutation of the array it
    is given, [spawn] leaves the bag as it is unless it reshuffles, and
    so every run of the engine keeps the property. Therefore seven draws
    that start with the cursor at 0, with anything but a draw in between,
    deal the seven elements of the bag in order, each kind exactly once,
    and bring the cursor back to 0. *)
Theorem C9_bag_permutation rdtsc s ks s' :
  bag_ok (bag s) → length (stats s) = Z.to_nat BAG_SIZE →
  draws rdtsc s ks s' →
  bag_ok (bag boot_state) ∧
  (∀ arr len n arr' n',
     shuffle rdtsc arr len n = Some (arr', n') → arr' ≡ₚ arr) ∧
  (∀ s1 s2, spawn rdtsc s1 = Some s2 →
            bag s2 ≡ₚ bag s1 ∧ (c_p (current s2) ≠ 0 → bag s2 = bag s1)) ∧
  (∀ acts s1 s2, bag_ok (bag s1) → run rdtsc acts s1 = Some s2 →
                 bag_ok (bag s2)) ∧
  bag_ok (bag s') ∧
  (c_p (current s) = 0 → length ks = Z.to_nat BAG_SIZE →
   ks = bag s ∧ ks ≡ₚ seqZ 0 BAG_SIZE ∧ c_p (current s') = 0).
Proof.
  intros Hbag Hst Hd. split; [by unfold bag_ok|]. split.
  { intros *. apply shuffle_Permutation. }
  split.
  { intros s1 s2 H. apply spawn_bag in H as (? & _ & ?). done. }
  split.
  { intros acts s1 s2 Hb Hr. apply run_draws in Hr as [ks' Hr].
    apply draws_bag in Hr as [Hr _]. unfold bag_ok. by rewrite Hr. }
  split.
  { apply draws_bag in Hd as [Hd _]. unfold bag_ok. by rewrite Hd. }
  intros Hp Hlen.
  pose proof (bag_ok_length _ Hbag) as Hbl.
  destruct (draws_window rdtsc s ks s' Hd) as [Hks Hp']; try done.
  { rewrite Hp. unfold BAG_SIZE. lia. }
  { rewrite Hp, Hlen. unfold BAG_SIZE. lia. }
  rewrite Hp, Hlen in Hks. change (Z.to_nat 0) with 0%nat in Hks.
  rewrite drop_0, <- Hbl, firstn_all in Hks.
  rewrite decide_True in Hp' by (rewrite Hp, Hlen; unfold BAG_SIZE; lia).
  split; [done|]. split; [by rewrite Hks|done].
Qed.

Lemma C9_bag_permutation_witness :
  ∃ ks s',
    first_seven = Some (ks, s') ∧
    ks = [0; 1; 2; 3; 4; 5; 6] ∧
    bag_ok (bag s') ∧
    (c_p (current boot_state) = 0 → length ks = Z.to_nat BAG_SIZE →
     ks = bag boot_state ∧ ks ≡ₚ seqZ 0 BAG_SIZE ∧ c_p (current s') = 0).
Proof.
  eexists _, _. split; [reflexivity|]. split; [reflexivity|].
  eapply (C9_bag_permutation still_clock boot_state).
  - by unfold bag_ok.
  - reflexivity.
  - apply (deal_draws still_clock 7). vm_compute. reflexivity.
Defined.

(** ** Spawning (C10) *)

Section Spawn.

Variable rdtsc : nat → Z.

(** [spawn] never looks at the well. *)
Lemma spawn_any_well w s s' :
  spawn rdtsc s = Some s' →
  spawn rdtsc (set_well w s) = Some (set_well w s').
Proof.
  unfold spawn. cbn [set_well current bag stats tsc]. intros H.
  apply bind_Some in H as (k & -> & H). cbn [mbind option_bind].
  apply bind_Some in H as (st & -> & H). cbn [mbind option_bind].
  destruct (_ =? BAG_SIZE).
  - apply bind_Some in H as ([b n] & -> & [= <-]). done.
  - by injection H as <-.
Qed.

Lemma spawn_game_over s s' :
  spawn rdtsc s = Some s' → game_over s' = game_over s.
Proof.
  unfold spawn. intros H.
  apply bind_Some in H as (k & _ & H). apply bind_Some in H as (st & _ & H).
  destruct (_ =? BAG_SIZE).
  - by apply bind_Some in H as ([b n] & _ & [= <-]).
  - by injection H as <-.
Qed.

Lemma lock_game_over s s' : lock s = Some s' → game_over s' = game_over s.
Proof.
  unfold lock. intros H. apply bind_Some in H as (t & _ & H).
  by apply bind_Some in H as (w & _ & [= <-]).
Qed.

Lemma move_keeps_game_over dx dy s ok s' :
  move dx dy s = Some (ok, s') → game_over s' = game_over s.
Proof. intros H. by apply move_frame in H as (x & y & [-> | ->]). Qed.

Lemma update_rows_game_over s s' :
  update_rows s = Some s' → game_over s' = game_over s.
Proof.
  unfold update_rows, leveling. intros H.
  apply bind_Some in H as ([[cr i] rows] & _ & H).
  destruct (_ >=? _); [destruct (_ =? 0); [done|]|]; by injection H as <-.
Qed.

(** [game_over] is set in one place: the early return of [update]. *)
Lemma gravity_game_over s g :
  gravity rdtsc s = Some g →
  match g with
  | Stopped s' => fst <$> move 0 1 s = Some false ∧ c_y (current s) = 0 ∧
                  s' = set_game_over true s
  | Falling s' => game_over s' = game_over s
  end.
Proof.
  unfold gravity. intros H.
  apply bind_Some in H as ([ok s1] & Hm & H). destruct ok.
  - injection H as <-. by eapply move_keeps_game_over.
  - pose proof (move_false _ _ _ _ Hm) as ->. rewrite Hm.
    destruct (Z.eqb_spec (c_y (current s)) 0).
    + by injection H as <-.
    + apply bind_Some in H as (s2 & Hl & H).
      apply bind_Some in H as (s3 & Hs & [= <-]).
      apply lock_game_over in Hl. apply spawn_game_over in Hs. congruence.
Qed.

Lemma update_game_over s s' :
  update rdtsc s = Some s' → game_over s = false → game_over s' = true →
  fst <$> move 0 1 s = Some false ∧ c_y (current s) = 0.
Proof.
  unfold update. intros H Hgo Hgo'.
  apply bind_Some in H as (g & Hg & H).
  apply gravity_game_over in Hg. destruct g as [s1|s1].
  - by destruct Hg as (? & ? & _).
  - apply update_rows_game_over in H. congruence.
Qed.

Lemma step_game_over a s s' :
  game_over s = false → step rdtsc a s = Some s' → game_over s' = true →
  ∃ s0, (a = Update ∧ s0 = s ∨ a = HardDrop ∧ s0 = drop_stores s) ∧
        fst <$> move 0 1 s0 = Some false ∧ c_y (current s0) = 0.
Proof.
  intros Hgo H Hgo'. destruct a; simpl in H.
  - apply fmap_Some in H as ([ok s1] & Hm & ->).
    apply move_keeps_game_over in Hm. simpl in Hgo'. congruence.
  - apply fmap_Some in H as ([ok s1] & Hm & ->).
    unfold rotate in Hm. rewrite Hgo in Hm.
    destruct (collide _ _ _ _ _) as [[]|]; simplify_eq/=; congruence.
  - unfold soft_drop in H. apply bind_Some in H as ([ok s1] & Hm & H).
    apply move_keeps_game_over in Hm. destruct ok; simplify_eq/=; congruence.
  - unfold drop in H. rewrite Hgo in H.
    exists (drop_stores s). split; [by right|].
    by apply (update_game_over _ s').
  - exists s. split; [by left|]. by apply (update_game_over _ s').
  - unfold clear_rows in H. apply bind_Some in H as ([w cr] & _ & [= <-]).
    simpl in Hgo'. congruence.
  - unfold ghost in H. apply bind_Some in H as (y & _ & [= <-]).
    simpl in Hgo'. congruence.
Qed.

(** Every kind collides at the spawn position of a full well. *)
Lemma full_well_collides k :
  0 ≤ k < BAG_SIZE → collide full_well k 0 3 0 = Some true.
Proof.
  unfold BAG_SIZE. intros Hk.
  assert (k = 0 ∨ k = 1 ∨ k = 2 ∨ k = 3 ∨ k = 4 ∨ k = 5 ∨ k = 6) as Hk' by lia.
  cases Hk'; reflexivity.
Qed.

End Spawn.

(** C10. Whatever the well holds, [spawn] makes the preview kind
    [bag[current.p]] the current piece, with rotation 0, [x] =
    [WELL_WIDTH / 2 - 2] = 3 and [y] = 0, adds one to that kind's entry
    of [stats] and to no other, and moves the cursor on by one, or back
    to 0 with a reshuffled bag when it has reached [BAG_SIZE]. The well,
    [game_over] and the score are not touched and the well is not read:
    the same call on any other well gives the same piece, even on a full
    well, where the piece collides where it stands. [game_over] only
    ever becomes true in an [update] (the one of [drop] included) whose
    [move(0, 1)] fails while [current.y] is 0. *)
Theorem C10_spawn_unconditional rdtsc s :
  let c := current s in
  bag_ok (bag s) → 0 ≤ c_p c < BAG_SIZE →
  length (stats s) = Z.to_nat BAG_SIZE →
  ∃ k st s',
    spawn rdtsc s = Some s' ∧
    array_get (bag s) (c_p c) = Some k ∧ array_get (stats s) k = Some st ∧
    current s' =
      Piece k 0 (if decide (c_p c + 1 = BAG_SIZE) then 0 else c_p c + 1)
            (WELL_WIDTH / 2 - 2) 0 (c_g c) ∧
    WELL_WIDTH / 2 - 2 = 3 ∧
    stats s' = <[Z.to_nat k := uint32 (st + 1)]> (stats s) ∧
    (0 ≤ st → st + 1 < 4294967296 → stats s' !! Z.to_nat k = Some (st + 1)) ∧
    (∀ j, j ≠ Z.to_nat k → stats s' !! j = stats s !! j) ∧
    (if decide (c_p c + 1 = BAG_SIZE)
     then shuffle rdtsc (bag s) BAG_SIZE (tsc s) = Some (bag s', tsc s')
     else bag s' = bag s ∧ tsc s' = tsc s) ∧
    well s' = well s ∧ game_over s' = game_over s ∧ score s' = score s ∧
    level s' = level s ∧ cleared_rows s' = cleared_rows s ∧
    (∀ w, spawn rdtsc (set_well w s) = Some (set_well w s')) ∧
    (spawn rdtsc (set_well full_well s) = Some (set_well full_well s') ∧
     collide full_well (c_i (current s')) (c_r (current s'))
             (c_x (current s')) (c_y (current s')) = Some true) ∧
    (∀ a s1 s2,
       game_over s1 = false → step rdtsc a s1 = Some s2 →
       game_over s2 = true →
       ∃ s0, (a = Update ∧ s0 = s1 ∨ a = HardDrop ∧ s0 = drop_stores s1) ∧
             fst <$> move 0 1 s0 = Some false ∧ c_y (current s0) = 0).
Proof.
  intros c Hbag Hp Hst.
  destruct (spawn_spec rdtsc s Hbag Hp Hst)
    as (k & st & b & n & Hk & Hkr & Hsk & Hsh & Heq).
  fold c in Hk, Hsh, Heq.
  eexists k, st, _. split; [exact Heq|].
  cbn [current stats bag tsc well game_over score level cleared_rows
       c_i c_r c_x c_y].
  split; [apply array_get_Some; split; [lia|done]|].
  split; [apply array_get_Some; split; [lia|done]|].
  split; [done|]. split; [done|]. split; [done|].
  split.
  { intros. rewrite uint32_id by lia.
    apply list_lookup_insert_eq. by eapply lookup_lt_Some. }
  split; [intros; by apply list_lookup_insert_ne|].
  split; [done|].
  do 5 (split; [done|]).
  split; [intros; by apply spawn_any_well|].
  split; [|apply step_game_over].
  split; [by apply spawn_any_well | by apply full_well_collides].
Qed.

(** ** The row scan, scoring and leveling (C5, C6) *)

Lemma scan_row_full w y cr (m : nat) rows old :
  full_count w y = WELL_WIDTH → cr !! m = Some old →
  scan_row w y (cr, Z.of_nat m, rows) =
    Some (<[m := y]> cr, Z.of_nat (S m), rows + 1).
Proof.
  intros Hfull Hold. unfold scan_row.
  rewrite Hfull, Z.eqb_refl, array_get_nat, Hold. cbn [mbind option_bind].
  rewrite Nat2Z.id. do 3 f_equal. lia.
Qed.

Lemma scan_row_other w y st :
  full_count w y ≠ WELL_WIDTH → scan_row w y st = Some st.
Proof.
  intros Hne. unfold scan_row. destruct st as [[cr i] rows].
  by destruct (Z.eqb_spec (full_count w y) WELL_WIDTH).
Qed.

(** The scan appends the full rows of [l] to the first [m] entries of
    [cleared_rows], as long as they fit. *)
Lemma scan_rows_spec w l : ∀ cr (m : nat) rows,
  let fl := filter (λ y, full_count w y = WELL_WIDTH) l in
  (m + length fl ≤ length cr)%nat →
  for_each (scan_row w) l (cr, Z.of_nat m, rows) =
    Some (take m cr ++ fl ++ skipn (m + length fl) cr,
          Z.of_nat (m + length fl), rows + Z.of_nat (length fl)).
Proof.
  induction l as [|a l IH]; intros cr m rows fl Hfit; subst fl.
  - simpl. rewrite Nat.add_0_r, Z.add_0_r. by rewrite take_drop.
  - cbn [for_each]. rewrite filter_cons in Hfit |- *.
    destruct (decide (full_count w a = WELL_WIDTH)) as [Hfull|Hfull].
    + simpl in Hfit.
      destruct (lookup_lt_is_Some_2 cr m) as [old Hold]; [lia|].
      rewrite (scan_row_full _ _ _ _ _ old) by done.
      cbn [mbind option_bind].
      rewrite IH by (rewrite length_insert; lia).
      rewrite (take_S_r _ _ a)
        by (apply list_lookup_insert_eq; by eapply lookup_lt_Some).
      rewrite take_insert_ge by lia. rewrite drop_insert_lt by lia.
      rewrite <- app_assoc. simpl.
      rewrite <- Nat.add_succ_r. do 2 f_equal. lia.
    + rewrite scan_row_other by done.
      cbn [mbind option_bind]. by apply IH.
Qed.

Lemma scan_spec w cr :
  (length (full_rows w) ≤ length cr)%nat →
  scan w cr =
    Some (full_rows w ++ skipn (length (full_rows w)) cr,
          Z.of_nat (length (full_rows w)), Z.of_nat (length (full_rows w))).
Proof.
  intros H. unfold scan. by apply (scan_rows_spec w _ cr 0%nat 0).
Qed.

Lemma update_rows_spec s :
  let k := Z.of_nat (length (full_rows (well s))) in
  (length (full_rows (well s)) ≤ length (cleared_rows s))%nat →
  update_rows s =
    leveling k
      (set_score (row_score k (level s) (score s))
         (set_cleared_rows
            (full_rows (well s) ++
             skipn (length (full_rows (well s))) (cleared_rows s)) s)).
Proof. intros k H. unfold update_rows. by rewrite scan_spec. Qed.

Lemma row_score_factor k lv sc :
  row_score k lv sc =
    if decide (1 ≤ k ≤ 4) then uint32 (sc + score_factor k * lv) else sc.
Proof.
  unfold row_score, score_factor.
  destruct (Z.eqb_spec k 1); [by rewrite decide_True, uint32_add_idemp by lia|].
  destruct (Z.eqb_spec k 2); [by rewrite decide_True, uint32_add_idemp by lia|].
  destruct (Z.eqb_spec k 3); [by rewrite decide_True, uint32_add_idemp by lia|].
  destruct (Z.eqb_spec k 4); [by rewrite decide_True, uint32_add_idemp by lia|].
  by rewrite decide_False by lia.
Qed.

Section Scoring.

Variable rdtsc : nat → Z.

Lemma spawn_same_scoring s s' : spawn rdtsc s = Some s' → same_scoring s s'.
Proof.
  unfold spawn. intros H.
  apply bind_Some in H as (k & _ & H). apply bind_Some in H as (st & _ & H).
  destruct (_ =? BAG_SIZE).
  - by apply bind_Some in H as ([b n] & _ & [= <-]).
  - by injection H as <-.
Qed.

Lemma same_scoring_trans s1 s2 s3 :
  same_scoring s1 s2 → same_scoring s2 s3 → same_scoring s1 s3.
Proof.
  intros (H1 & H2 & H3 & H4 & H5 & H6) (K1 & K2 & K3 & K4 & K5 & K6).
  unfold same_scoring. rewrite K1, K2, K3, K4, K5, K6. by repeat split.
Qed.

Lemma move_same_scoring dx dy s ok s' :
  move dx dy s = Some (ok, s') → same_scoring s s'.
Proof.
  intros H. apply move_frame in H as (x & y & [-> | ->]); by repeat split.
Qed.

Lemma lock_same_scoring s s' : lock s = Some s' → same_scoring s s'.
Proof.
  unfold lock. intros H. apply bind_Some in H as (t & _ & H).
  apply bind_Some in H as (w & _ & [= <-]). by repeat split.
Qed.

Lemma gravity_same_scoring s s' :
  gravity rdtsc s = Some (Falling s') → same_scoring s s'.
Proof.
  unfold gravity. intros H.
  apply bind_Some in H as ([ok s1] & Hm & H).
  apply move_same_scoring in Hm. destruct ok.
  - by injection H as <-.
  - destruct (_ =? 0); [done|].
    apply bind_Some in H as (s2 & Hl & H).
    apply bind_Some in H as (s3 & Hs & [= <-]).
    apply lock_same_scoring in Hl. apply spawn_same_scoring in Hs.
    eauto using same_scoring_trans.
Qed.

(** What an [update] call does to the scoring variables, given the
    outcome [g] of its gravity step. *)
Lemma update_scoring s g :
  gravity rdtsc s = Some g →
  let k := detected g in
  k ≤ 4 → length (cleared_rows s) = 4%nat →
  uint32 (level s + 1) ≠ 0 →
  ∃ s', update rdtsc s = Some s' ∧
        score s' = row_score k (level s) (score s) ∧
        match g with
        | Stopped _ =>
            level s' = level s ∧ speed s' = speed s ∧
            level_up s' = level_up s ∧ level_rows s' = level_rows s
        | Falling _ =>
            let lr := uint8 (level_rows s + k) in
            if decide (ROWS_PER_LEVEL ≤ lr)
            then level s' = uint32 (level s + 1) ∧
                 speed s' = speed_of_level (level s') ∧ level_up s' = 1 ∧
                 level_rows s' = uint8 (lr - ROWS_PER_LEVEL)
            else level s' = level s ∧ speed s' = speed s ∧
                 level_up s' = level_up s ∧ level_rows s' = lr
        end.
Proof.
  intros Hg k Hk Hcr Hlv. unfold update. rewrite Hg. cbn [mbind option_bind].
  destruct g as [s1|s1].
  - apply gravity_game_over in Hg as (_ & _ & ->). by exists (set_game_over true s).
  - apply gravity_same_scoring in Hg as (Hsc & Hl & Hsp & Hup & Hc & Hlr).
    subst k. cbn [detected] in *.
    rewrite update_rows_spec by (rewrite Hc, Hcr; lia).
    unfold leveling. cbn [level_rows level set_score set_cleared_rows score].
    rewrite Hl, Hlr, Hsc.
    destruct (Z.geb_spec (uint8 (level_rows s + Z.of_nat (length (full_rows (well s1)))))
                ROWS_PER_LEVEL) as [Hge|Hlt].
    + destruct (Z.eqb_spec (uint32 (level s + 1)) 0); [done|].
      eexists. split; [done|]. rewrite decide_True by lia. by cbn.
    + eexists. split; [done|]. rewrite decide_False by lia.
      cbn. by rewrite Hsp, Hup.
Qed.

End Scoring.

(** C5. An [update] call that finds exactly [k] rows full, [k] from 1 to
    4, adds [F_k * level] to the score, with (F1, F2, F3, F4) = (100,
    300, 500, 800) and [level] as it is when the call starts; the sum is
    taken in [uint32_t], and is the plain sum whenever that fits. A call
    that finds no row full, or returns early, leaves the score as it
    was. The call is defined for up to four full rows. *)
Theorem C5_row_score rdtsc s g :
  gravity rdtsc s = Some g →
  let k := detected g in
  k ≤ 4 → length (cleared_rows s) = 4%nat → uint32 (level s + 1) ≠ 0 →
  ∃ s', update rdtsc s = Some s' ∧
        0 ≤ k ∧
        (k = 0 → score s' = score s) ∧
        (1 ≤ k → score s' = uint32 (score s + score_factor k * level s)) ∧
        (1 ≤ k → 0 ≤ score s + score_factor k * level s < 4294967296 →
         score s' = score s + score_factor k * level s) ∧
        score_factor 1 = 100 ∧ score_factor 2 = 300 ∧
        score_factor 3 = 500 ∧ score_factor 4 = 800.
Proof.
  intros Hg k Hk Hcr Hlv.
  destruct (update_scoring rdtsc s g Hg Hk Hcr Hlv) as (s' & Hu & Hsc & _).
  fold k in Hsc. rewrite row_score_factor in Hsc.
  assert (0 ≤ k) as Hk0 by (subst k; destruct g; simpl; lia).
  exists s'. split; [done|]. split; [done|]. split_and!; try done.
  - intros ->. by rewrite decide_False in Hsc by lia.
  - intros. by rewrite decide_True in Hsc by lia.
  - intros ? ?. rewrite decide_True in Hsc by lia. by rewrite uint32_id in Hsc.
Qed.

Lemma C5_row_score_witness :
  ∃ s', update still_clock level_32_state = Some s' ∧ score s' = 3200.
Proof.
  destruct (C5_row_score still_clock level_32_state (Falling level_32_fallen))
    as (s' & Hu & _ & _ & _ & Hsc & _).
  - reflexivity.
  - by vm_compute.
  - reflexivity.
  - by vm_compute.
  - exists s'. split; [exact Hu|]. apply Hsc; by vm_compute.
Defined.

Lemma interval_at_mono l1 l2 :
  1 ≤ l1 → l1 ≤ l2 → interval_at l2 ≤ interval_at l1.
Proof.
  intros. unfold interval_at.
  apply Z.add_le_mono_l, Z.div_le_compat_l; lia.
Qed.

Lemma interval_at_step l :
  1 ≤ l < 32 → interval_at (l + 1) < interval_at l.
Proof.
  intros Hl.
  assert (forallb (λ l, interval_at (l + 1) <? interval_at l) (seqZ 1 31) = true)
    as Hall by (by vm_compute).
  rewrite forallb_forall in Hall.
  apply Z.ltb_lt, Hall, list_elem_of_In, elem_of_seqZ. lia.
Qed.

(** C6 as the code has it. The static counter [level_rows] accumulates
    the rows each [update] call finds full. On the call that brings it
    to 10 or more, [level] goes up by exactly one, the counter goes down
    by exactly 10 and stays below 10, [level_up] is raised, and [speed]
    becomes [10 + 990 / level] for the new level, in integer division.
    That interval is never larger for a larger level; it is strictly
    smaller from each level to the next up to level 32, and equal for
    levels 32 and 33. *)
Theorem C6_leveling rdtsc s g :
  gravity rdtsc s = Some g →
  let k := detected g in
  k ≤ 4 → length (cleared_rows s) = 4%nat →
  0 ≤ level s < 4294967295 → 0 ≤ level_rows s < ROWS_PER_LEVEL →
  ∃ s', update rdtsc s = Some s' ∧
        (if decide (level_rows s + k < ROWS_PER_LEVEL)
         then level_rows s' = level_rows s + k ∧ level s' = level s ∧
              speed s' = speed s ∧ level_up s' = level_up s
         else level s' = level s + 1 ∧
              level_rows s' = level_rows s + k - ROWS_PER_LEVEL ∧
              speed s' = 10 + 990 / (level s + 1) ∧
              speed s' = interval_at (level s') ∧ level_up s' = 1) ∧
        0 ≤ level_rows s' < ROWS_PER_LEVEL ∧
        (∀ l1 l2, 1 ≤ l1 → l1 ≤ l2 → interval_at l2 ≤ interval_at l1) ∧
        (∀ l1 l2, 1 ≤ l1 → l1 < l2 → l2 ≤ 32 →
                  interval_at l2 < interval_at l1) ∧
        interval_at 33 = interval_at 32.
Proof.
  intros Hg k Hk Hcr Hlv Hlr. unfold ROWS_PER_LEVEL in *.
  assert (0 ≤ k) as Hk0 by (subst k; destruct g; simpl; lia).
  destruct (update_scoring rdtsc s g Hg Hk Hcr) as (s' & Hu & _ & Hs).
  { rewrite uint32_id; lia. }
  fold k in Hs. exists s'. split; [done|].
  assert (∀ l1 l2, 1 ≤ l1 → l1 < l2 → l2 ≤ 32 →
                   interval_at l2 < interval_at l1) as Hstrict.
  { intros l1 l2 H1 H12 H2.
    pose proof (interval_at_step l1). pose proof (interval_at_mono (l1 + 1) l2).
    lia. }
  assert (0 ≤ 990 `div` (level s + 1) ≤ 990) as Hdiv.
  { split; [apply Z.div_pos; lia|]. apply Z.div_le_upper_bound; nia. }
  destruct g as [s1|s1].
  - destruct Hs as (Hl & Hsp & Hup & Hr). subst k. cbn [detected].
    rewrite decide_True by lia. rewrite Hl, Hsp, Hup, Hr.
    split_and!; try done; try lia. apply interval_at_mono.
  - unfold ROWS_PER_LEVEL in Hs.
    rewrite (uint8_id (level_rows s + k)) in Hs by lia.
    destruct (decide (10 ≤ level_rows s + k)) as [Hge|Hlt].
    + destruct Hs as (Hl & Hsp & Hup & Hr).
      rewrite uint32_id in Hl by lia. rewrite uint8_id in Hr by lia.
      rewrite decide_False by lia. rewrite Hsp, Hl, Hup, Hr.
      unfold speed_of_level, interval_at. rewrite uint32_id by lia.
      split_and!; try done; try lia. apply interval_at_mono.
    + destruct Hs as (Hl & Hsp & Hup & Hr).
      rewrite decide_True by lia. rewrite Hsp, Hl, Hup, Hr.
      split_and!; try done; try lia. apply interval_at_mono.
Qed.

Lemma C6_leveling_witness :
  ∃ s', update still_clock level_32_state = Some s' ∧
        level s' = 33 ∧ level_rows s' = 0 ∧ speed s' = 40.
Proof.
  destruct (C6_leveling still_clock level_32_state (Falling level_32_fallen))
    as (s' & Hu & Hs & _).
  - reflexivity.
  - by vm_compute.
  - reflexivity.
  - by vm_compute.
  - by vm_compute.
  - exists s'. split; [exact Hu|].
    rewrite decide_False in Hs by (by vm_compute).
    destruct Hs as (Hl & Hr & Hsp & _). by rewrite Hl, Hr, Hsp.
Defined.

(** C6, counterexample: the interval is 40 ms at level 32 and at level
    33, and the [update] that takes the game from level 32 to 33 leaves
    [speed] at 40. *)
Lemma C6_strict_counterexample :
  interval_at 32 = 40 ∧ interval_at 33 = 40 ∧
  speed level_32_state = 40 ∧
  level <$> update still_clock level_32_state = Some 33 ∧
  speed <$> update still_clock level_32_state = Some 40 ∧
  ¬ speed_strictly_decreasing.
Proof.
  do 5 (split; [reflexivity|]).
  intros H. assert (interval_at 33 < interval_at 32) as Hlt by (apply H; lia).
  by vm_compute in Hlt.
Qed.

(** ** Row compaction (C2) *)

Lemma well_shape_row w y :
  well_shape w → 0 ≤ y < WELL_HEIGHT →
  ∃ row, w !! Z.to_nat y = Some row ∧ length row = Z.to_nat WELL_WIDTH.
Proof.
  intros [Hlen Hrows] Hy.
  destruct (lookup_lt_is_Some_2 w (Z.to_nat y)) as [row Hrow]; [lia|].
  exists row. split; [done|].
  by eapply (Forall_lookup_1 _ _ _ _ Hrows).
Qed.

Lemma well_shape_insert w n row :
  well_shape w → length row = Z.to_nat WELL_WIDTH →
  well_shape (<[n := row]> w).
Proof.
  intros [Hlen Hrows] Hrow. split; [by rewrite length_insert|].
  by apply Forall_insert.
Qed.

(** The inner loop of [clear_rows], as far as it has got through the
    columns [xs]: row [y] holds the cells of row [y - 1] there. *)
Lemma copy_cells y xs : ∀ ra rb w,
  1 ≤ y < WELL_HEIGHT →
  w !! Z.to_nat (y - 1) = Some ra → w !! Z.to_nat y = Some rb →
  Forall (λ x, 0 ≤ x < WELL_WIDTH ∧ is_Some (ra !! Z.to_nat x)) xs →
  for_each (copy_cell y) xs w =
    Some (<[Z.to_nat y :=
            foldl (λ row x, <[Z.to_nat x := default 0 (ra !! Z.to_nat x)]> row)
                  rb xs]> w).
Proof.
  induction xs as [|x xs IH]; intros ra rb w Hy Ha Hb Hxs; simpl.
  - by rewrite list_insert_id.
  - inversion Hxs as [|? ? [Hx [v Hv]] Hxs']; subst.
    unfold WELL_HEIGHT, WELL_WIDTH in *.
    assert (copy_cell y x w = Some (<[Z.to_nat y := <[Z.to_nat x := v]> rb]> w))
      as ->.
    { unfold copy_cell, well_get, well_put, in_well, array_get,
        WELL_HEIGHT, WELL_WIDTH.
      destruct (Z.leb_spec 0 (y - 1)), (Z.ltb_spec (y - 1) 22),
        (Z.leb_spec 0 x), (Z.ltb_spec x 10), (Z.leb_spec 0 y),
        (Z.ltb_spec y 22); try lia; simpl.
      rewrite Ha. simpl. rewrite Hv. simpl. by rewrite Hb. }
    simpl. rewrite (IH ra (<[Z.to_nat x := v]> rb)); try done.
    + rewrite list_insert_insert_eq. by rewrite Hv.
    + rewrite list_lookup_insert_ne by lia. done.
    + apply list_lookup_insert_eq. by eapply lookup_lt_Some.
Qed.

Lemma copy_row_spec y w :
  well_shape w → 1 ≤ y < WELL_HEIGHT →
  copy_row y w = Some (<[Z.to_nat y := well_row w (y - 1)]> w).
Proof.
  intros Hw Hy. unfold WELL_HEIGHT in Hy.
  destruct (well_shape_row w (y - 1) Hw) as (ra & Ha & Hla);
    [unfold WELL_HEIGHT; lia|].
  destruct (well_shape_row w y Hw) as (rb & Hb & Hlb);
    [unfold WELL_HEIGHT; lia|].
  unfold copy_row. rewrite (copy_cells y _ ra rb); try done.
  - unfold well_row, array_get.
    destruct (Z.leb_spec 0 (y - 1)); [|lia]. rewrite Ha. simpl.
    do 11 (destruct ra as [|? ra]; try done).
    do 11 (destruct rb as [|? rb]; try done).
  - apply Forall_forall. intros x Hx.
    apply list_elem_of_In, elem_of_seqZ in Hx.
    split; [done|]. apply lookup_lt_is_Some_2.
    unfold WELL_WIDTH in *. lia.
Qed.

(** [for (y = n; y > 0; y--)] copies rows [n - 1 .. 0] into rows
    [n .. 1]; row 0 keeps what it had. *)
Lemma shift_down_spec n : ∀ w,
  well_shape w → (n < 22)%nat →
  ∃ w', shift_down n w = Some w' ∧ well_shape w' ∧
        ∀ k, w' !! k = if decide (1 ≤ k ≤ n)%nat then w !! (k - 1)%nat
                       else w !! k.
Proof.
  induction n as [|n IH]; intros w Hw Hn.
  - exists w. repeat split; try done; try apply Hw.
    intros k. case_decide; [lia|done].
  - cbn [shift_down].
    rewrite copy_row_spec by (unfold WELL_HEIGHT; done || lia).
    destruct (well_shape_row w (Z.of_nat (S n) - 1) Hw) as (ra & Ha & Hla);
      [unfold WELL_HEIGHT; lia|].
    assert (well_row w (Z.of_nat (S n) - 1) = ra) as ->.
    { unfold well_row, array_get.
      destruct (Z.leb_spec 0 (Z.of_nat (S n) - 1)); [|lia]. by rewrite Ha. }
    replace (Z.to_nat (Z.of_nat (S n) - 1)) with n in Ha by lia.
    rewrite Nat2Z.id. simpl.
    destruct (IH (<[S n := ra]> w)) as (w' & Hs & Hw' & Hrows);
      [by apply well_shape_insert | lia |].
    exists w'. split; [done|]. split; [done|].
    intros k. rewrite Hrows.
    destruct Hw as [Hlen _]. unfold WELL_HEIGHT in Hlen.
    destruct (decide (k = S n)) as [->|Hk].
    + rewrite decide_False by lia. rewrite decide_True by lia.
      rewrite list_lookup_insert_eq by lia.
      by replace (S n - 1)%nat with n by lia.
    + repeat case_decide; try lia; by rewrite list_lookup_insert_ne by lia.
Qed.

Lemma well_row_lookup w y :
  0 ≤ y → well_row w y = default [] (w !! Z.to_nat y).
Proof.
  intros. unfold well_row, array_get. by destruct (Z.leb_spec 0 y); [|lia].
Qed.

(** Two recorded rows, neither of them row 0: what [clear_rows] does
    to every row of the well. *)
Lemma clear_two_rows_shift s R1 R2 :
  well_shape (well s) →
  cleared_rows s = [R1; R2; 0; 0] →
  0 < R1 → R1 < R2 → R2 < WELL_HEIGHT →
  ∃ w', clear_rows s = Some (set_cleared_rows [0; 0; 0; 0] (set_well w' s)) ∧
        well_shape w' ∧
        (∀ y, 0 ≤ y < R1 → well_row w' (y + 2) = well_row (well s) y) ∧
        (∀ y, R1 < y < R2 → well_row w' (y + 1) = well_row (well s) y) ∧
        (∀ y, R2 < y < WELL_HEIGHT → well_row w' y = well_row (well s) y) ∧
        well_row w' 0 = well_row (well s) 0 ∧
        well_row w' 1 = well_row (well s) 0 ∧
        (well_row (well s) 0 = empty_row →
         well_row w' 0 = empty_row ∧ well_row w' 1 = empty_row).
Proof.
  intros Hw Hcr H0 H12 H2. unfold WELL_HEIGHT in *.
  destruct (shift_down_spec (Z.to_nat R1) (well s)) as (w1 & Hs1 & Hw1 & Hr1);
    [done | lia |].
  destruct (shift_down_spec (Z.to_nat R2) w1) as (w2 & Hs2 & Hw2 & Hr2);
    [done | lia |].
  assert (∀ k, w2 !! k =
               if decide (k ≤ 1)%nat then well s !! 0%nat
               else if decide (k ≤ Z.to_nat R1 + 1)%nat then well s !! (k - 2)%nat
               else if decide (k ≤ Z.to_nat R2)%nat then well s !! (k - 1)%nat
               else well s !! k) as Hrows.
  { intros k. rewrite Hr2, !Hr1.
    repeat case_decide; try lia; f_equal; lia. }
  exists w2. split.
  { unfold clear_rows. rewrite Hcr. simpl.
    unfold array_get. simpl.
    destruct (Z.eqb_spec R1 0); [lia|]. rewrite Hs1. simpl.
    destruct (Z.eqb_spec R2 0); [lia|]. rewrite Hs2. simpl. done. }
  split; [done|].
  assert (well_row w2 0 = well_row (well s) 0) as Htop0.
  { rewrite !well_row_lookup by lia. by rewrite Hrows. }
  assert (well_row w2 1 = well_row (well s) 0) as Htop1.
  { rewrite !well_row_lookup by lia. by rewrite Hrows. }
  split_and!; try done.
  - intros y Hy. rewrite !well_row_lookup by lia. rewrite Hrows.
    rewrite decide_False by lia. rewrite decide_True by lia.
    do 2 f_equal. lia.
  - intros y Hy. rewrite !well_row_lookup by lia. rewrite Hrows.
    rewrite decide_False by lia. rewrite decide_False by lia.
    rewrite decide_True by lia. do 2 f_equal. lia.
  - intros y Hy. rewrite !well_row_lookup by lia. rewrite Hrows.
    by rewrite !decide_False by lia.
  - intros He. by rewrite Htop0, Htop1.
Qed.

Lemma elem_of_full_rows w y :
  y ∈ full_rows w ↔ 0 ≤ y < WELL_HEIGHT ∧ full_count w y = WELL_WIDTH.
Proof.
  unfold full_rows. rewrite list_elem_of_filter, elem_of_seqZ. lia.
Qed.

Lemma empty_top_not_full w :
  well_row w 0 = empty_row → full_count w 0 ≠ WELL_WIDTH.
Proof.
  destruct w as [|r0 w]; [done|]. intros H.
  change (r0 = empty_row) in H. subst r0. by vm_compute.
Qed.

(** C2 as the code has it. In a well whose full rows are exactly
    [R1 < R2] and whose top row is empty, [update] records
    [R1, R2, 0, 0], and with that record [clear_rows] moves every row
    above [R1] down by two and every row between [R1] and [R2] down by
    one, leaves every row below [R2] as it was, leaves the two top rows
    empty, and zeroes [cleared_rows]. Nothing else changes. *)
Theorem C2_clear_two_rows s R1 R2 :
  well_shape (well s) →
  full_rows (well s) = [R1; R2] → R1 < R2 →
  well_row (well s) 0 = empty_row →
  cleared_rows s = [R1; R2; 0; 0] →
  scan (well s) [0; 0; 0; 0] = Some ([R1; R2; 0; 0], 2, 2) ∧
  ∃ w', clear_rows s = Some (set_cleared_rows [0; 0; 0; 0] (set_well w' s)) ∧
        well_shape w' ∧
        (∀ y, 0 ≤ y < R1 → well_row w' (y + 2) = well_row (well s) y) ∧
        (∀ y, R1 < y < R2 → well_row w' (y + 1) = well_row (well s) y) ∧
        (∀ y, R2 < y < WELL_HEIGHT → well_row w' y = well_row (well s) y) ∧
        well_row w' 0 = empty_row ∧ well_row w' 1 = empty_row.
Proof.
  intros Hw Hfull H12 Htop Hcr.
  assert (0 ≤ R1 < WELL_HEIGHT ∧ full_count (well s) R1 = WELL_WIDTH) as [HR1 HR1f].
  { apply elem_of_full_rows. rewrite Hfull. apply list_elem_of_In. simpl. tauto. }
  assert (0 ≤ R2 < WELL_HEIGHT) as HR2.
  { apply (elem_of_full_rows (well s)). rewrite Hfull.
    apply list_elem_of_In. simpl. tauto. }
  assert (R1 ≠ 0) as HR0.
  { intros ->. by apply (empty_top_not_full (well s)). }
  split.
  { rewrite scan_spec by (rewrite Hfull; simpl; lia). by rewrite Hfull. }
  destruct (clear_two_rows_shift s R1 R2) as (w' & Hc & Hw' & H1 & H2 & H3 & _ & _ & H4);
    try done; try lia.
  destruct (H4 Htop) as [Htop0 Htop1].
  exists w'. do 5 (split; [done|]). by split.
Qed.

(** ** The opening piece (C8) *)

Section Opening.

Variable rdtsc : nat → Z.

(** When the reshuffle loop ends, the bag is a permutation of what it
    was and its first element is neither 4 nor 6. *)
Lemma first_bag_spec fuel : ∀ b n b' n',
  first_bag rdtsc fuel b n = Some (b', n') →
  b' ≡ₚ b ∧ ∃ b0, b' !! 0%nat = Some b0 ∧ b0 ≠ KIND_S ∧ b0 ≠ KIND_Z.
Proof.
  induction fuel as [|fuel IH]; intros b n b' n'; cbn [first_bag]; [done|].
  intros H. apply bind_Some in H as ([b1 n1] & Hsh & H).
  apply shuffle_Permutation in Hsh.
  apply bind_Some in H as (b0 & Hb0 & H).
  destruct (Z.eqb_spec b0 4) as [|H4]; simpl in H.
  { apply IH in H as [H ?]. split; [by rewrite H|done]. }
  destruct (Z.eqb_spec b0 6) as [|H6]; simpl in H.
  { apply IH in H as [H ?]. split; [by rewrite H|done]. }
  injection H as <- <-. split; [done|]. by exists b0.
Qed.

(** More iterations allowed do not change the outcome. *)
Lemma first_bag_fuel fuel : ∀ fuel' b n r,
  first_bag rdtsc fuel b n = Some r → (fuel ≤ fuel')%nat →
  first_bag rdtsc fuel' b n = Some r.
Proof.
  induction fuel as [|fuel IH]; intros fuel' b n r; cbn [first_bag]; [done|].
  intros H Hle. destruct fuel' as [|fuel']; [lia|]. cbn [first_bag].
  destruct (shuffle rdtsc b BAG_SIZE n) as [[b1 n1]|]; [|done].
  cbn [mbind option_bind] in *.
  destruct (b1 !! 0%nat) as [b0|]; [|done]. cbn [mbind option_bind] in *.
  destruct ((b0 =? 4) || (b0 =? 6)); [|done]. apply IH; [done|lia].
Qed.

End Opening.

(** C8. Whenever the reshuffle loop of the game setup terminates, the
    game that starts has as its first active piece the first element of
    the bag, which is neither S (4) nor Z (6); it is one of the seven
    kinds, the bag is a permutation of them, and the cursor stands on
    the second element. Allowing the loop more iterations gives the same
    game. *)
Theorem C8_opening_piece rdtsc fuel s :
  new_game rdtsc fuel = Some s →
  c_i (current s) ≠ KIND_S ∧ c_i (current s) ≠ KIND_Z ∧
  0 ≤ c_i (current s) < BAG_SIZE ∧
  bag s !! 0%nat = Some (c_i (current s)) ∧
  bag_ok (bag s) ∧ c_p (current s) = 1 ∧
  stats s = <[Z.to_nat (c_i (current s)) := 1]> (replicate 7%nat 0) ∧
  (∀ fuel', (fuel ≤ fuel')%nat → new_game rdtsc fuel' = Some s).
Proof.
  unfold new_game. intros H.
  apply bind_Some in H as ([b n] & Hfb & H).
  apply bind_Some in H as (s1 & Hsp & Hgh).
  pose proof (first_bag_spec _ _ _ _ _ _ Hfb) as (Hperm & b0 & Hb0 & HS & HZ).
  assert (∀ fuel', (fuel ≤ fuel')%nat →
            (first_bag rdtsc fuel' (bag boot_state) (tsc boot_state)
             ≫= λ '(b, n), spawn rdtsc (set_bag b n boot_state) ≫= ghost)
            = Some s) as Hfuel.
  { intros fuel' Hle. rewrite (first_bag_fuel _ _ _ _ _ _ Hfb Hle).
    cbn [mbind option_bind]. rewrite Hsp. exact Hgh. }
  assert (bag_ok b) as Hbag by (unfold bag_ok; by rewrite Hperm).
  destruct (spawn_spec rdtsc (set_bag b n boot_state))
    as (k & st & b1 & n1 & Hk & Hkr & Hst & Hsh & Heq); [done..|].
  cbn [set_bag current bag c_p stats boot_state tsc] in *.
  change (Z.to_nat 0) with 0%nat in Hk. rewrite Hb0 in Hk. injection Hk as <-.
  rewrite decide_False in Hsh by (unfold BAG_SIZE; lia).
  rewrite decide_False in Heq by (unfold BAG_SIZE; lia).
  destruct Hsh as [-> ->].
  assert (st = 0) as ->.
  { apply list_elem_of_lookup_2, elem_of_replicate in Hst. by destruct Hst. }
  rewrite Heq in Hsp. injection Hsp as <-.
  unfold ghost in Hgh. apply bind_Some in Hgh as (y & _ & [= <-]).
  cbn [set_current current set_g c_i c_p bag stats].
  do 2 (split; [done|]). split; [exact Hkr|]. do 4 (split; [done|]).
  exact Hfuel.
Qed.

Lemma C8_opening_piece_witness :
  ∃ s, opening = Some s ∧ c_i (current s) = KIND_J ∧
       c_i (current s) ≠ KIND_S ∧ c_i (current s) ≠ KIND_Z ∧
       bag s = [1; 2; 3; 4; 5; 6; 0].
Proof.
  eexists. split; [reflexivity|]. split; [reflexivity|].
  destruct (C8_opening_piece still_clock 1 (default boot_state opening))
    as (HS & HZ & _).
  - by vm_compute.
  - split; [exact HS|]. split; [exact HZ|]. reflexivity.
Defined.

(** ** The theorems at concrete states *)

Lemma C7_move_rotate_witness :
  move 1 0 free_state =
    Some (true, set_current (Piece KIND_T 0 1 4 0 0) free_state) ∧
  rotate free_state =
    Some (true, set_current (Piece KIND_T 1 1 3 0 0) free_state).
Proof.
  destruct (C7_move_rotate free_state 1 0) as (_ & _ & _ & Hm & _ & _ & Hr & _);
    [reflexivity|].
  split; [apply Hm | apply Hr]; reflexivity.
Defined.

Lemma C3_game_over_witness :
  update still_clock stuck_state = Some (set_game_over true stuck_state) ∧
  run still_clock [Move (-1) 0; Rotate; SoftDrop; HardDrop]
      (set_game_over true stuck_state)
    = Some (set_game_over true stuck_state).
Proof.
  destruct (C3_game_over still_clock stuck_state) as (Hu & _ & Hrest);
    [reflexivity | reflexivity |].
  split; [exact Hu|].
  apply Hrest. repeat constructor.
Defined.

Lemma C10_spawn_unconditional_witness :
  ∃ s', spawn still_clock boot_state = Some s' ∧
        current s' = Piece KIND_I 0 1 3 0 0 ∧
        stats s' = [1; 0; 0; 0; 0; 0; 0] ∧
        collide full_well KIND_I 0 3 0 = Some true.
Proof.
  destruct (C10_spawn_unconditional still_clock boot_state)
    as (k & st & s' & Hs & Hk & Hst & Hc & _ & Hstats & _).
  - by unfold bag_ok.
  - by vm_compute.
  - reflexivity.
  - injection Hk as <-. injection Hst as <-.
    exists s'. split; [exact Hs|]. split; [exact Hc|].
    split; [exact Hstats | reflexivity].
Defined.

Lemma two_rows_clean_shape : well_shape (well two_rows_clean).
Proof. split; [reflexivity|]. repeat constructor. Qed.

Lemma C2_clear_two_rows_witness :
  ∃ w', clear_rows two_rows_clean =
          Some (set_cleared_rows [0; 0; 0; 0] (set_well w' two_rows_clean)) ∧
        well_row w' 16 = [0; 5; 0; 0; 0; 0; 0; 0; 0; 0] ∧
        well_row w' 11 = empty_row ∧
        well_row w' 0 = empty_row ∧ well_row w' 1 = empty_row.
Proof.
  destruct (C2_clear_two_rows two_rows_clean 10 20)
    as (_ & w' & Hc & _ & Habove & Hbetween & _ & Htop0 & Htop1).
  - exact two_rows_clean_shape.
  - vm_compute. reflexivity.
  - lia.
  - reflexivity.
  - reflexivity.
  - exists w'. split; [exact Hc|]. split; [|split; [|split]].
    + apply (Hbetween 15). lia.
    + apply (Habove 9). lia.
    + exact Htop0.
    + exact Htop1.
Defined.

(** C2, counterexample: with rows 10 and 20 full, the fragment of row
    15 moves down by one row, not by two, so row 15, which lies below
    row 10, is not left as it was; and the fragment of the top row is
    still there afterwards, in each of the three top rows. *)
Lemma C2_rows_counterexample :
  full_rows two_rows_well = [10; 20] ∧
  scan two_rows_well [0; 0; 0; 0] = Some ([10; 20; 0; 0], 2, 2) ∧
  well <$> clear_rows two_rows_pending = Some two_rows_cleared ∧
  well_row two_rows_cleared 16 = well_row two_rows_well 15 ∧
  well_row two_rows_cleared 17 ≠ well_row two_rows_well 15 ∧
  well_row two_rows_cleared 15 ≠ well_row two_rows_well 15 ∧
  well_row two_rows_cleared 0 = [3; 0; 0; 0; 0; 0; 0; 0; 0; 0] ∧
  well_row two_rows_cleared 1 = [3; 0; 0; 0; 0; 0; 0; 0; 0; 0] ∧
  ¬ clears_two_rows two_rows_pending 10 20.
Proof.
  assert (full_rows two_rows_well = [10; 20]) as Hfull
    by (vm_compute; reflexivity).
  assert (well <$> clear_rows two_rows_pending = Some two_rows_cleared) as Hw
    by (vm_compute; reflexivity).
  split; [exact Hfull|].
  split; [vm_compute; reflexivity|].
  split; [exact Hw|].
  do 5 (split; [by vm_compute|]).
  intros H. destruct (H Hfull eq_refl) as (s' & Hc & Habove & _).
  rewrite Hc in Hw. injection Hw as Hw.
  specialize (Habove 15). rewrite Hw in Habove.
  assert (well_row two_rows_cleared 17 = well_row two_rows_well 15) as Habs.
  { apply Habove; lia. }
  by vm_compute in Habs.
Qed.

(** * Further properties of the engine *)

(** ** The piece table *)

(** Every grid of the table has a nonzero cell below its top row. *)
Lemma low_cell i r t :
  tetrimino i r = Some t →
  ∃ yy xx, 1 ≤ yy < 4 ∧ 0 ≤ xx < 4 ∧ grid_at t yy xx ≠ 0.
Proof.
  intros Ht. destruct (tetrimino_range _ _ _ Ht) as [Hi Hr].
  assert (i = 0 ∨ i = 1 ∨ i = 2 ∨ i = 3 ∨ i = 4 ∨ i = 5 ∨ i = 6) as Hi' by lia.
  assert (r = 0 ∨ r = 1 ∨ r = 2 ∨ r = 3) as Hr' by lia.
  cases Hi'; cases Hr'; injection Ht as <-;
    first [ by exists 1, 0 | by exists 1, 1 | by exists 1, 2 ].
Qed.

(** No piece fits with its grid at row 21 or lower. *)
Lemma collide_floor w i r x y :
  is_Some (tetrimino i r) → WELL_HEIGHT - 1 ≤ y →
  collide w i r x y = Some true.
Proof.
  intros [t Ht] Hy. unfold collide. rewrite Ht. simpl. f_equal.
  apply collide_grid_true.
  destruct (low_cell _ _ _ Ht) as (yy & xx & Hyy & Hxx & Hne).
  exists yy, xx. split; [lia|]. split; [done|]. split; [done|].
  unfold hits. right. right. right. left. lia.
Qed.

(** A piece that fits has every nonzero cell on an empty cell of the
    well. *)
Lemma collide_false_cells w i r x y t :
  tetrimino i r = Some t → collide w i r x y = Some false →
  ∀ yy xx, 0 ≤ yy < 4 → 0 ≤ xx < 4 → grid_at t yy xx ≠ 0 →
           in_well (y + yy) (x + xx) = true ∧ ¬ occupied w (y + yy) (x + xx).
Proof.
  intros Ht Hc yy xx Hyy Hxx Hne.
  unfold collide in Hc. rewrite Ht in Hc. simpl in Hc. injection Hc as Hc.
  assert (¬ hits w x y xx yy) as Hh.
  { intros Hh. assert (collide_grid t w x y = true) as Habs; [|congruence].
    apply collide_grid_true. by exists yy, xx. }
  unfold hits in Hh. unfold in_well, WELL_WIDTH, WELL_HEIGHT in *. split.
  - repeat (apply andb_true_intro; split); (apply Z.leb_le || apply Z.ltb_lt); lia.
  - tauto.
Qed.

(** ** Player moves *)

Lemma sint8_sint8_add a b : sint8 (sint8 a + b) = sint8 (a + b).
Proof.
  unfold sint8. f_equal.
  replace ((a + 128) `mod` 256 - 128 + b + 128) with ((a + 128) `mod` 256 + b) by lia.
  rewrite Zplus_mod_idemp_l. f_equal. lia.
Qed.

Lemma set_current_same s : set_current (current s) s = s.
Proof. by destruct s. Qed.

Lemma move_fit dx dy s ok s' :
  move dx dy s = Some (ok, s') → fits s →
  fits s' ∧ well s' = well s ∧ game_over s' = game_over s ∧
  c_i (current s') = c_i (current s) ∧ c_r (current s') = c_r (current s).
Proof.
  unfold move. destruct (game_over s) eqn:Hgo; [by intros [= <- <-]|].
  destruct (collide _ _ _ _ _) as [[]|] eqn:Hc; simpl; intros [= <- <-]; [done|].
  intros _. by repeat split.
Qed.

Lemma rotate_fit s ok s' :
  rotate s = Some (ok, s') → fits s →
  fits s' ∧ well s' = well s ∧ game_over s' = game_over s ∧
  c_i (current s') = c_i (current s).
Proof.
  unfold rotate. destruct (game_over s) eqn:Hgo; [by intros [= <- <-]|].
  destruct (collide _ _ _ _ _) as [[]|] eqn:Hc; simpl; intros [= <- <-]; [done|].
  intros _. by repeat split.
Qed.

(** X1. Key presses never put the active piece on an occupied cell or
    outside the well: if the piece fits, then after any sequence of
    [move], [rotate] and [soft_drop] calls, whether they succeed or not,
    and of [ghost] recomputations, it still fits; the well, the kind of
    the piece and [game_over] are as before. *)
Theorem X1_moves_keep_fit rdtsc acts s s' :
  Forall player_move acts → run rdtsc acts s = Some s' → fits s →
  fits s' ∧ well s' = well s ∧ game_over s' = game_over s ∧
  c_i (current s') = c_i (current s).
Proof.
  unfold run. intros Hacts. revert s.
  induction Hacts as [|a acts Ha _ IH]; intros s; simpl.
  { by intros [= <-]. }
  intros H Hfit. apply bind_Some in H as (s1 & Hstep & H).
  assert (fits s1 ∧ well s1 = well s ∧ game_over s1 = game_over s ∧
          c_i (current s1) = c_i (current s)) as (Hf1 & Hw1 & Hg1 & Hi1).
  { destruct a; simpl in Ha, Hstep; try done.
    - apply fmap_Some in Hstep as ([ok s2] & Hm & ->).
      destruct (move_fit _ _ _ _ _ Hm Hfit) as (? & ? & ? & ? & _). done.
    - apply fmap_Some in Hstep as ([ok s2] & Hm & ->).
      by apply (rotate_fit _ _ _ Hm).
    - unfold soft_drop in Hstep.
      apply bind_Some in Hstep as ([ok s2] & Hm & Hstep).
      destruct (move_fit _ _ _ _ _ Hm Hfit) as (? & ? & ? & ? & _).
      by destruct ok; injection Hstep as <-.
    - unfold ghost in Hstep. apply bind_Some in Hstep as (y & _ & [= <-]).
      done. }
  destruct (IH s1 H Hf1) as (? & -> & -> & ->). done.
Qed.

Lemma X1_moves_keep_fit_witness :
  run still_clock [Move (-1) 0; Rotate; SoftDrop; Move 9 0; Ghost] mid_state
    = Some moved_state ∧
  fits moved_state ∧ well moved_state = empty_well ∧
  current moved_state = Piece KIND_T 1 1 2 11 19.
Proof.
  assert (run still_clock [Move (-1) 0; Rotate; SoftDrop; Move 9 0; Ghost]
              mid_state = Some moved_state) as Hrun by (by vm_compute).
  split; [exact Hrun|].
  destruct (X1_moves_keep_fit still_clock
              [Move (-1) 0; Rotate; SoftDrop; Move 9 0; Ghost]
              mid_state moved_state)
    as (Hf & Hw & _); [repeat constructor | exact Hrun | by vm_compute |].
  split; [exact Hf|]. split; [exact Hw | reflexivity].
Defined.

(** X2. A move can be taken back: if the piece fits and [move dx dy]
    succeeds, then [move (-dx) (-dy)] succeeds as well and restores the
    state exactly. *)
Theorem X2_move_back s dx dy s1 :
  -128 ≤ c_x (current s) < 128 → -128 ≤ c_y (current s) < 128 →
  fits s → move dx dy s = Some (true, s1) →
  move (- dx) (- dy) s1 = Some (true, s).
Proof.
  intros Hx Hy Hfit. unfold move.
  destruct (game_over s) eqn:Hgo; [done|].
  destruct (collide _ _ _ _ _) as [[]|] eqn:Hc; simpl; intros [= <-].
  cbn [game_over set_current current well set_xy c_i c_r c_x c_y].
  rewrite Hgo, !sint8_sint8_add.
  replace (c_x (current s) + dx + - dx) with (c_x (current s)) by lia.
  replace (c_y (current s) + dy + - dy) with (c_y (current s)) by lia.
  rewrite (sint8_id (c_x (current s))), (sint8_id (c_y (current s))) by done.
  unfold fits in Hfit. rewrite Hfit. simpl.
  do 2 f_equal. destruct s as [w c]. by destruct c.
Qed.

Lemma X2_move_back_witness :
  move 1 0 mid_state =
    Some (true, set_current (Piece KIND_T 0 1 4 10 0) mid_state) ∧
  move (-1) 0 (set_current (Piece KIND_T 0 1 4 10 0) mid_state) =
    Some (true, mid_state).
Proof.
  split; [reflexivity|].
  apply (X2_move_back mid_state 1 0); [simpl; lia | simpl; lia | | ];
    reflexivity.
Defined.

(** X3. Four successful rotations bring the piece back: [rotate] steps
    the rotation through 0, 1, 2, 3 and changes nothing else. *)
Theorem X3_rotate_cycle s s1 s2 s3 s4 :
  0 ≤ c_r (current s) < 4 →
  rotate s = Some (true, s1) → rotate s1 = Some (true, s2) →
  rotate s2 = Some (true, s3) → rotate s3 = Some (true, s4) →
  s4 = s ∧
  c_r (current s1) = (c_r (current s) + 1) `mod` 4 ∧
  c_r (current s2) = (c_r (current s) + 2) `mod` 4 ∧
  c_r (current s3) = (c_r (current s) + 3) `mod` 4.
Proof.
  intros Hr.
  assert (∀ a b, rotate a = Some (true, b) →
            b = set_current (set_r ((c_r (current a) + 1) `mod` 4) (current a)) a)
    as Hrot.
  { intros a b. unfold rotate. destruct (game_over a); [done|].
    destruct (collide _ _ _ _ _) as [[]|]; simpl; intros [= <-].
    rewrite uint8_id; [done|].
    pose proof (Z.mod_pos_bound (c_r (current a) + 1) 4). lia. }
  intros H1 H2 H3 H4.
  apply Hrot in H1, H2, H3, H4. subst s1 s2 s3 s4.
  cbn [current set_current set_r c_r].
  assert (c_r (current s) = 0 ∨ c_r (current s) = 1 ∨ c_r (current s) = 2 ∨
          c_r (current s) = 3) as Hr' by lia.
  destruct s as [w c]. destruct c as [i r p x y g]. simpl in *.
  repeat (destruct Hr' as [Hr'|Hr']); subst r; by vm_compute.
Qed.

Lemma X3_rotate_cycle_witness :
  ∃ s1 s2 s3,
    rotate mid_state = Some (true, s1) ∧ rotate s1 = Some (true, s2) ∧
    rotate s2 = Some (true, s3) ∧ rotate s3 = Some (true, mid_state) ∧
    c_r (current s3) = 3.
Proof.
  eexists _, _, _.
  split; [reflexivity|]. split; [reflexivity|]. split; [reflexivity|].
  split; [reflexivity|].
  refine (proj2 (proj2 (proj2 (X3_rotate_cycle mid_state _ _ _ mid_state
                                 _ eq_refl eq_refl eq_refl eq_refl)))).
  simpl. lia.
Defined.

(** ** Locking *)

Lemma well_get_shape w y x :
  well_shape w → in_well y x = true → is_Some (well_get w y x).
Proof.
  intros Hw Hin. unfold well_get. rewrite Hin.
  unfold in_well in Hin. apply andb_prop in Hin as [Hin Hx2].
  apply andb_prop in Hin as [Hin Hx1]. apply andb_prop in Hin as [Hy1 Hy2].
  apply Z.leb_le in Hy1, Hx1. apply Z.ltb_lt in Hy2, Hx2.
  destruct (well_shape_row w y Hw) as (row & Hrow & Hlen); [lia|].
  unfold array_get. destruct (Z.leb_spec 0 y); [|lia]. rewrite Hrow. simpl.
  destruct (Z.leb_spec 0 x); [|lia].
  apply lookup_lt_is_Some_2. unfold WELL_WIDTH in *. lia.
Qed.

(** One store into the well: defined inside the well, and read back by
    [well_get] at that cell only. *)
Lemma well_put_spec w y x v :
  well_shape w → in_well y x = true →
  ∃ w', well_put w y x v = Some w' ∧ well_shape w' ∧
        ∀ y' x', well_get w' y' x' =
                 if decide (y' = y ∧ x' = x) then Some v else well_get w y' x'.
Proof.
  intros Hw Hin. unfold well_put. rewrite Hin.
  pose proof Hin as Hin'. unfold in_well in Hin'.
  apply andb_prop in Hin' as [Hin' Hx2]. apply andb_prop in Hin' as [Hin' Hx1].
  apply andb_prop in Hin' as [Hy1 Hy2].
  apply Z.leb_le in Hy1, Hx1. apply Z.ltb_lt in Hy2, Hx2.
  destruct (well_shape_row w y Hw) as (row & Hrow & Hlen); [lia|].
  unfold array_get at 1. destruct (Z.leb_spec 0 y); [|lia]. rewrite Hrow. simpl.
  eexists. split; [done|]. split.
  { apply well_shape_insert; [done|]. by rewrite length_insert. }
  intros y' x'. unfold well_get.
  destruct (in_well y' x') eqn:Hin2.
  - unfold in_well in Hin2.
    apply andb_prop in Hin2 as [Hin2 Hx2']. apply andb_prop in Hin2 as [Hin2 Hx1'].
    apply andb_prop in Hin2 as [Hy1' Hy2'].
    apply Z.leb_le in Hy1', Hx1'. apply Z.ltb_lt in Hy2', Hx2'.
    unfold array_get. destruct (Z.leb_spec 0 y'); [|lia].
    destruct (Z.leb_spec 0 x'); [|lia].
    destruct (decide (y' = y)) as [->|Hy].
    + rewrite list_lookup_insert_eq by (by eapply lookup_lt_Some).
      rewrite Hrow. simpl.
      destruct (decide (x' = x)) as [->|Hx].
      * rewrite decide_True by done.
        apply list_lookup_insert_eq. unfold WELL_WIDTH in *. lia.
      * rewrite decide_False by (intros [_ ?]; done).
        apply list_lookup_insert_ne. lia.
    + rewrite decide_False by (intros [? _]; done).
      by rewrite list_lookup_insert_ne by lia.
  - rewrite decide_False; [done|]. intros [-> ->]. congruence.
Qed.

Lemma lock_cell_zero t cx cy yy xx w :
  grid_at t yy xx = 0 → lock_cell t cx cy yy xx w = Some w.
Proof. intros H. unfold lock_cell. by rewrite H. Qed.

Lemma lock_cell_put t cx cy yy xx w :
  grid_at t yy xx ≠ 0 →
  lock_cell t cx cy yy xx w = well_put w (cy + yy) (cx + xx) (grid_at t yy xx).
Proof.
  intros H. unfold lock_cell. by destruct (Z.eqb_spec (grid_at t yy xx) 0).
Qed.

(** The inner loop of [lock]: the cells of grid row [yy]. *)
Lemma lock_row_spec t cx cy yy xs : ∀ w,
  well_shape w →
  (∀ xx, xx ∈ xs → grid_at t yy xx ≠ 0 → in_well (cy + yy) (cx + xx) = true) →
  ∃ w', for_each (lock_cell t cx cy yy) xs w = Some w' ∧ well_shape w' ∧
        ∀ y x, well_get w' y x =
               if decide (y = cy + yy ∧ x - cx ∈ xs ∧ grid_at t yy (x - cx) ≠ 0)
               then Some (grid_at t yy (x - cx)) else well_get w y x.
Proof.
  induction xs as [|xx xs IH]; intros w Hw Hin; cbn [for_each].
  - exists w. split; [done|]. split; [done|]. intros y x.
    rewrite decide_False; [done|]. intros (_ & Habs & _). by apply elem_of_nil in Habs.
  - destruct (decide (grid_at t yy xx = 0)) as [Hz|Hnz].
    + rewrite lock_cell_zero by done. cbn [mbind option_bind].
      destruct (IH w Hw) as (w' & Hl & Hw' & Hget).
      { intros. apply Hin; [by right|done]. }
      exists w'. split; [done|]. split; [done|]. intros y x. rewrite Hget.
      destruct (decide (y = cy + yy ∧ x - cx ∈ xs ∧ grid_at t yy (x - cx) ≠ 0))
        as [(? & ? & ?)|Hn].
      * rewrite decide_True; [done|]. split; [done|]. split; [by right|done].
      * rewrite decide_False; [done|]. intros (? & Hel & ?). apply Hn.
        apply elem_of_cons in Hel as [Heq|?]; [|done]. congruence.
    + rewrite lock_cell_put by done.
      destruct (well_put_spec w (cy + yy) (cx + xx) (grid_at t yy xx) Hw)
        as (w1 & -> & Hw1 & Hget1).
      { apply Hin; [by left|done]. }
      cbn [mbind option_bind].
      destruct (IH w1 Hw1) as (w' & Hl & Hw' & Hget).
      { intros. apply Hin; [by right|done]. }
      exists w'. split; [done|]. split; [done|]. intros y x.
      rewrite Hget, Hget1.
      destruct (decide (y = cy + yy ∧ x - cx ∈ xs ∧ grid_at t yy (x - cx) ≠ 0))
        as [(? & ? & ?)|Hn].
      * rewrite decide_True; [done|]. split; [done|]. split; [by right|done].
      * destruct (decide (y = cy + yy ∧ x = cx + xx)) as [[-> ->]|Hn2].
        -- replace (cx + xx - cx) with xx by lia.
           rewrite decide_True; [done|]. split; [done|]. split; [by left|done].
        -- rewrite decide_False; [done|]. intros (? & Hel & ?).
           apply elem_of_cons in Hel as [Heq|?]; [|by apply Hn].
           apply Hn2. split; [done|lia].
Qed.

(** The outer loop of [lock]. *)
Lemma lock_rows_spec t cx cy xs yys : ∀ w,
  well_shape w →
  (∀ yy xx, yy ∈ yys → xx ∈ xs → grid_at t yy xx ≠ 0 →
            in_well (cy + yy) (cx + xx) = true) →
  ∃ w', for_each (λ yy, for_each (lock_cell t cx cy yy) xs) yys w = Some w' ∧
        well_shape w' ∧
        ∀ y x, well_get w' y x =
               if decide (y - cy ∈ yys ∧ x - cx ∈ xs ∧
                          grid_at t (y - cy) (x - cx) ≠ 0)
               then Some (grid_at t (y - cy) (x - cx)) else well_get w y x.
Proof.
  induction yys as [|yy yys IH]; intros w Hw Hin; cbn [for_each].
  - exists w. split; [done|]. split; [done|]. intros y x.
    rewrite decide_False; [done|]. intros (Habs & _). by apply elem_of_nil in Habs.
  - destruct (lock_row_spec t cx cy yy xs w Hw) as (w1 & -> & Hw1 & Hget1).
    { intros. apply Hin; [by left|done..]. }
    cbn [mbind option_bind].
    destruct (IH w1 Hw1) as (w' & Hl & Hw' & Hget).
    { intros. apply Hin; [by right|done..]. }
    exists w'. split; [done|]. split; [done|]. intros y x.
    rewrite Hget, Hget1.
    destruct (decide (y - cy ∈ yys ∧ x - cx ∈ xs ∧
                      grid_at t (y - cy) (x - cx) ≠ 0)) as [(? & ? & ?)|Hn].
    + rewrite decide_True; [done|]. split; [by right|done].
    + destruct (decide (y = cy + yy ∧ x - cx ∈ xs ∧ grid_at t yy (x - cx) ≠ 0))
        as [(-> & ? & ?)|Hn2].
      * replace (cy + yy - cy) with yy by lia.
        rewrite decide_True; [done|]. split; [by left|done].
      * rewrite decide_False; [done|]. intros (Hel & ? & ?).
        apply elem_of_cons in Hel as [Heq|?]; [|by apply Hn].
        apply Hn2. split; [lia|]. by rewrite <- Heq.
Qed.

(** X4. Locking a piece that fits stays inside the well and only fills
    empty cells: [lock] is defined, every cell under a nonzero cell of
    the piece was 0 and now holds that cell's colour, every other cell
    of the well is as before, and the piece collides where it stands
    from then on. *)
Theorem X4_lock_fills_empty_cells s t :
  let c := current s in
  well_shape (well s) → tetrimino (c_i c) (c_r c) = Some t → fits s →
  ∃ w', lock s = Some (set_well w' s) ∧ well_shape w' ∧
        (∀ y x, covers t (c_x c) (c_y c) y x →
                well_get (well s) y x = Some 0 ∧
                well_get w' y x = Some (grid_at t (y - c_y c) (x - c_x c))) ∧
        (∀ y x, ¬ covers t (c_x c) (c_y c) y x →
                well_get w' y x = well_get (well s) y x) ∧
        collide w' (c_i c) (c_r c) (c_x c) (c_y c) = Some true.
Proof.
  intros c Hw Ht Hfit. unfold fits in Hfit. fold c in Hfit.
  pose proof (collide_false_cells _ _ _ _ _ _ Ht Hfit) as Hcells.
  destruct (lock_rows_spec t (c_x c) (c_y c) offsets offsets (well s) Hw)
    as (w' & Hl & Hw' & Hget).
  { intros yy xx Hyy Hxx Hne. apply elem_of_seqZ in Hyy, Hxx.
    apply Hcells; [lia..|done]. }
  assert (∀ y x, covers t (c_x c) (c_y c) y x ↔
                 y - c_y c ∈ offsets ∧ x - c_x c ∈ offsets ∧
                 grid_at t (y - c_y c) (x - c_x c) ≠ 0) as Hcov.
  { intros y x. unfold covers, offsets. rewrite !elem_of_seqZ. lia. }
  exists w'. split.
  { unfold lock. fold c. rewrite Ht. cbn [mbind option_bind]. by rewrite Hl. }
  split; [done|]. split; [|split].
  - intros y x Hc. pose proof Hc as (Hy & Hx & Hne). split.
    + destruct (Hcells (y - c_y c) (x - c_x c)) as [Hin Hocc]; [done..|].
      replace (c_y c + (y - c_y c)) with y in * by lia.
      replace (c_x c + (x - c_x c)) with x in * by lia.
      destruct (well_get_shape _ _ _ Hw Hin) as [v Hv]. rewrite Hv. f_equal.
      destruct (decide (v = 0)); [done|]. exfalso. apply Hocc. by exists v.
    + rewrite Hget. by rewrite decide_True by (by apply Hcov).
  - intros y x Hc. rewrite Hget. rewrite decide_False; [done|].
    intros H. by apply Hc, Hcov.
  - unfold collide. rewrite Ht. simpl. f_equal. apply collide_grid_true.
    destruct (low_cell _ _ _ Ht) as (yy & xx & Hyy & Hxx & Hne).
    exists yy, xx. split; [lia|]. split; [done|]. split; [done|].
    unfold hits. do 4 right. exists (grid_at t yy xx). split; [|done].
    rewrite Hget. rewrite decide_True.
    + do 2 f_equal; lia.
    + apply Hcov. unfold covers.
      replace (c_y c + yy - c_y c) with yy by lia.
      replace (c_x c + xx - c_x c) with xx by lia. lia.
Qed.

Lemma X4_lock_fills_empty_cells_witness :
  ∃ w', lock mid_state = Some (set_well w' mid_state) ∧
        well_get w' 11 4 = Some 6 ∧ well_get w' 10 3 = Some 0.
Proof.
  destruct (X4_lock_fills_empty_cells mid_state
              [[0;6;0;0]; [6;6;6;0]; [0;0;0;0]; [0;0;0;0]])
    as (w' & Hl & _ & Hin & Hout & _).
  - split; [reflexivity|]. repeat constructor.
  - reflexivity.
  - reflexivity.
  - exists w'. split; [exact Hl|]. split.
    + apply (Hin 11 4). by vm_compute.
    + rewrite (Hout 10 3); [reflexivity|]. intros (_ & _ & Hne). by apply Hne.
Defined.

(** ** Well-formed states *)

Lemma for_each_inv {A S} (I : S → Prop) (body : A → S → option S) l :
  (∀ a s s', a ∈ l → body a s = Some s' → I s → I s') →
  ∀ s s', for_each body l s = Some s' → I s → I s'.
Proof.
  induction l as [|a l IH]; intros Hbody s s'; simpl.
  - by intros [= <-].
  - intros H Hs. apply bind_Some in H as (s1 & Ha & H).
    apply (IH (λ b t t' Hb, Hbody b t t' (list_elem_of_further _ _ _ Hb)) s1 s' H).
    apply (Hbody a s s1); [by left|done..].
Qed.

Lemma well_put_shape w y x v w' :
  well_put w y x v = Some w' → well_shape w → well_shape w'.
Proof.
  unfold well_put. destruct (in_well y x); [|done]. intros H Hw.
  apply bind_Some in H as (row & Hrow & [= <-]).
  apply array_get_Some in Hrow as [_ Hrow].
  apply well_shape_insert; [done|]. rewrite length_insert.
  destruct Hw as [_ Hrows]. by eapply (Forall_lookup_1 _ _ _ _ Hrows).
Qed.

Lemma lock_shape s s' :
  lock s = Some s' → well_shape (well s) → well_shape (well s').
Proof.
  unfold lock. intros H Hw. apply bind_Some in H as (t & _ & H).
  apply bind_Some in H as (w & Hl & [= <-]). simpl.
  revert Hl Hw. apply for_each_inv. intros yy w1 w2 _.
  apply for_each_inv. intros xx w3 w4 _. unfold lock_cell.
  destruct (_ =? 0); [by intros [= <-]|]. apply well_put_shape.
Qed.

(** [clear_rows] on recorded rows that are rows of the well. *)
Lemma clear_rows_loop_wf idx : ∀ w cr,
  well_shape w → length cr = 4%nat →
  Forall (λ y, 0 ≤ y < WELL_HEIGHT) cr → Forall (λ i, 0 ≤ i < 4) idx →
  ∃ w' cr', clear_rows_loop idx w cr = Some (w', cr') ∧ well_shape w' ∧
            length cr' = 4%nat ∧ Forall (λ y, 0 ≤ y < WELL_HEIGHT) cr'.
Proof.
  induction idx as [|i idx IH]; intros w cr Hw Hlen Hcr Hidx; cbn [clear_rows_loop].
  { by exists w, cr. }
  inversion Hidx as [|? ? Hi Hidx']; subst.
  destruct (lookup_lt_is_Some_2 cr (Z.to_nat i)) as [y Hy]; [lia|].
  assert (array_get cr i = Some y) as -> by (apply array_get_Some; split; [lia|done]).
  cbn [mbind option_bind].
  destruct (Z.eqb_spec y 0); [by exists w, cr|].
  pose proof (Forall_lookup_1 _ _ _ _ Hcr Hy) as Hyr. unfold WELL_HEIGHT in Hyr.
  destruct (shift_down_spec (Z.to_nat y) w Hw) as (w1 & -> & Hw1 & _); [lia|].
  cbn [mbind option_bind].
  apply IH; [done | by rewrite length_insert | | done].
  apply Forall_insert; [done|]. unfold WELL_HEIGHT. lia.
Qed.

(** Five or more full rows do not fit into [cleared_rows]. *)
Lemma scan_rows_overflow w l : ∀ cr (m : nat) rows,
  (m ≤ length cr)%nat →
  (length cr < m + length (filter (λ y, full_count w y = WELL_WIDTH) l))%nat →
  for_each (scan_row w) l (cr, Z.of_nat m, rows) = None.
Proof.
  induction l as [|a l IH]; intros cr m rows Hm Hover; cbn [for_each].
  - simpl in Hover. lia.
  - rewrite filter_cons in Hover.
    destruct (decide (full_count w a = WELL_WIDTH)) as [Hfull|Hfull].
    + simpl in Hover. destruct (cr !! m) as [old|] eqn:Hold.
      * rewrite (scan_row_full _ _ _ _ _ old) by done. cbn [mbind option_bind].
        apply lookup_lt_Some in Hold.
        apply IH; rewrite length_insert; lia.
      * unfold scan_row. by rewrite Hfull, Z.eqb_refl, array_get_nat, Hold.
    + rewrite scan_row_other by done. cbn [mbind option_bind]. by apply IH.
Qed.

Lemma full_rows_range w : Forall (λ y, 0 ≤ y < WELL_HEIGHT) (full_rows w).
Proof.
  apply Forall_forall. intros y Hy.
  apply list_elem_of_In, elem_of_full_rows in Hy. tauto.
Qed.

Lemma scan_wf w cr cr' i rows :
  scan w cr = Some (cr', i, rows) →
  length cr = 4%nat → Forall (λ y, 0 ≤ y < WELL_HEIGHT) cr →
  length cr' = 4%nat ∧ Forall (λ y, 0 ≤ y < WELL_HEIGHT) cr'.
Proof.
  intros Hs Hlen Hcr.
  destruct (decide (length (full_rows w) ≤ length cr)%nat) as [Hle|Hgt].
  - rewrite scan_spec in Hs by done. injection Hs as <- _ _. split.
    + rewrite length_app, length_skipn. lia.
    + apply Forall_app. split; [apply full_rows_range|].
      by apply Forall_drop.
  - unfold scan in Hs.
    rewrite (scan_rows_overflow w _ cr 0%nat 0) in Hs; [done|lia|].
    unfold full_rows in Hgt. lia.
Qed.

Lemma wf_frame s s' :
  well s' = well s → bag s' = bag s →
  c_p (current s') = c_p (current s) → stats s' = stats s →
  cleared_rows s' = cleared_rows s →
  c_i (current s') = c_i (current s) → c_r (current s') = c_r (current s) →
  wf s → wf s'.
Proof. unfold wf. by intros -> -> -> -> -> -> ->. Qed.

Section WellFormed.

Variable rdtsc : nat → Z.

Lemma move_wf dx dy s ok s' : move dx dy s = Some (ok, s') → wf s → wf s'.
Proof.
  intros H. apply move_frame in H as (x & y & [-> | ->]); [|done].
  by apply wf_frame.
Qed.

Lemma rotate_wf s ok s' : rotate s = Some (ok, s') → wf s → wf s'.
Proof.
  unfold rotate. destruct (game_over s); [by intros [= <- <-]|].
  destruct (collide _ _ _ _ _) as [[]|] eqn:Hc; simpl; intros [= <- <-]; [done|].
  intros (? & ? & ? & ? & ? & ? & _). do 6 (split; [done|]).
  cbn [current set_current set_r c_i c_r].
  unfold collide in Hc. by destruct (tetrimino _ _).
Qed.

Lemma ghost_wf s s' : ghost s = Some s' → wf s → wf s'.
Proof.
  unfold ghost. intros H. apply bind_Some in H as (y & _ & [= <-]).
  by apply wf_frame.
Qed.

Lemma soft_drop_wf s s' : soft_drop s = Some s' → wf s → wf s'.
Proof.
  unfold soft_drop. intros H Hwf.
  apply bind_Some in H as ([ok s1] & Hm & H).
  apply (move_wf _ _ _ _ _ Hm) in Hwf.
  destruct ok; injection H as <-; [|done]. revert Hwf. by apply wf_frame.
Qed.

Lemma lock_wf s s' : lock s = Some s' → wf s → wf s'.
Proof.
  intros H (Hw & Hrest). pose proof (lock_shape _ _ H Hw) as Hw'.
  unfold lock in H. apply bind_Some in H as (t & _ & H).
  apply bind_Some in H as (w & _ & [= <-]). by split.
Qed.

Lemma spawn_wf s s' : spawn rdtsc s = Some s' → wf s → wf s'.
Proof.
  intros H (Hw & Hbag & Hp & Hst & Hcl & Hcr & _).
  destruct (spawn_spec rdtsc s Hbag Hp Hst)
    as (k & st & b & n & Hk & Hkr & Hsk & Hsh & Heq).
  rewrite Heq in H. injection H as <-. unfold wf.
  cbn [well bag current c_p c_i c_r stats cleared_rows].
  split; [done|]. split.
  { destruct (decide (c_p (current s) + 1 = BAG_SIZE)).
    - apply shuffle_Permutation in Hsh. unfold bag_ok. by rewrite Hsh.
    - by destruct Hsh as [-> _]. }
  split. { case_decide; unfold BAG_SIZE in *; lia. }
  split; [by rewrite length_insert|]. split; [done|]. split; [done|].
  apply tetrimino_defined; unfold BAG_SIZE in *; lia.
Qed.

Lemma update_rows_wf s s' : update_rows s = Some s' → wf s → wf s'.
Proof.
  unfold update_rows. intros H (Hw & Hbag & Hp & Hst & Hcl & Hcr & Ht).
  apply bind_Some in H as ([[cr i] rows] & Hs & H).
  destruct (scan_wf _ _ _ _ _ Hs Hcl Hcr) as [Hcl' Hcr'].
  unfold leveling in H.
  destruct (_ >=? _); [destruct (_ =? 0); [done|]|]; injection H as <-;
    by do 6 (split; [done|]).
Qed.

Lemma update_wf s s' : update rdtsc s = Some s' → wf s → wf s'.
Proof.
  unfold update, gravity. intros H Hwf.
  apply bind_Some in H as (g & Hg & H).
  apply bind_Some in Hg as ([ok s1] & Hm & Hg).
  apply (move_wf _ _ _ _ _ Hm) in Hwf. destruct ok.
  - injection Hg as <-. by apply (update_rows_wf s1).
  - destruct (_ =? 0).
    + injection Hg as <-. injection H as <-. revert Hwf. by apply wf_frame.
    + apply bind_Some in Hg as (s2 & Hl & Hg).
      apply bind_Some in Hg as (s3 & Hs & [= <-]).
      apply (update_rows_wf s3); [done|].
      apply (spawn_wf s2); [done|]. by apply (lock_wf s1).
Qed.

Lemma clear_rows_wf s :
  wf s → ∃ s', clear_rows s = Some s' ∧ wf s'.
Proof.
  intros (Hw & Hbag & Hp & Hst & Hcl & Hcr & Ht).
  destruct (clear_rows_loop_wf (seqZ 0 4) (well s) (cleared_rows s))
    as (w' & cr' & Hc & Hw' & Hcl' & Hcr'); try done.
  { apply Forall_forall. intros i Hi. apply list_elem_of_In, elem_of_seqZ in Hi. lia. }
  unfold clear_rows. rewrite Hc. eexists. split; [done|].
  by do 6 (split; [done|]).
Qed.

Lemma step_wf a s s' : step rdtsc a s = Some s' → wf s → wf s'.
Proof.
  destruct a; simpl; intros H Hwf.
  - apply fmap_Some in H as ([ok s1] & Hm & ->). by apply (move_wf _ _ _ _ _ Hm).
  - apply fmap_Some in H as ([ok s1] & Hm & ->). by apply (rotate_wf _ _ _ Hm).
  - by apply (soft_drop_wf s).
  - unfold drop in H. destruct (game_over s); [by injection H as <-|].
    apply (update_wf _ _ H). revert Hwf. by apply wf_frame.
  - by apply (update_wf s).
  - destruct (clear_rows_wf s Hwf) as (s1 & Hc & Hwf1). congruence.
  - by apply (ghost_wf s).
Qed.

Lemma new_game_wf fuel s : new_game rdtsc fuel = Some s → wf s.
Proof.
  unfold new_game. intros H.
  apply bind_Some in H as ([b n] & Hfb & H).
  apply bind_Some in H as (s1 & Hsp & Hgh).
  apply first_bag_spec in Hfb as [Hperm _].
  apply (ghost_wf _ _ Hgh), (spawn_wf _ _ Hsp).
  unfold wf. cbn [set_bag boot_state well bag current c_p stats cleared_rows c_i c_r].
  split. { split; [reflexivity|]. repeat constructor. }
  split. { unfold bag_ok. by rewrite Hperm. }
  split; [by vm_compute|]. split; [done|]. split; [done|].
  split; [|by eexists]. repeat constructor; by vm_compute.
Qed.

End WellFormed.

(** X5. Every state the engine reaches is well formed: the game that
    [efi_main] sets up is, and every operation that is defined on a
    well-formed state yields one. In particular the kind and rotation
    of the active piece always index the piece table, the bag cursor
    stays inside the bag and the recorded rows are rows of the well. *)
Theorem X5_reachable_states_wf rdtsc fuel acts s0 s :
  new_game rdtsc fuel = Some s0 → run rdtsc acts s0 = Some s →
  wf s0 ∧ wf s ∧
  0 ≤ c_i (current s) < 7 ∧ 0 ≤ c_r (current s) < 4 ∧
  0 ≤ c_p (current s) < BAG_SIZE.
Proof.
  intros Hnew Hrun. pose proof (new_game_wf _ _ _ Hnew) as Hwf0.
  assert (wf s) as Hwf.
  { revert Hrun Hwf0. unfold run. apply for_each_inv.
    intros a s1 s2 _. apply step_wf. }
  split; [done|]. split; [done|].
  destruct Hwf as (_ & _ & Hp & _ & _ & _ & [t Ht]).
  apply tetrimino_range in Ht. tauto.
Qed.

Lemma run_wf rdtsc acts s s' : run rdtsc acts s = Some s' → wf s → wf s'.
Proof.
  unfold run. apply for_each_inv. intros a s1 s2 _. apply step_wf.
Qed.

Lemma second_piece_wf : wf second_piece.
Proof.
  apply (run_wf still_clock [HardDrop; Move (-1) 0; Ghost]
           (default boot_state opening)); [by vm_compute|].
  apply (new_game_wf still_clock 1). by vm_compute.
Qed.

Lemma X5_reachable_states_wf_witness :
  new_game still_clock 1 = opening ∧
  run still_clock [HardDrop; Move (-1) 0; Ghost] (default boot_state opening)
    = Some second_piece ∧
  wf second_piece ∧ c_i (current second_piece) = KIND_L.
Proof.
  assert (new_game still_clock 1 = Some (default boot_state opening)) as Hnew
    by (by vm_compute).
  assert (run still_clock [HardDrop; Move (-1) 0; Ghost]
              (default boot_state opening) = Some second_piece) as Hrun
    by (by vm_compute).
  split; [exact Hnew|]. split; [exact Hrun|].
  destruct (X5_reachable_states_wf still_clock 1 [HardDrop; Move (-1) 0; Ghost]
              (default boot_state opening) second_piece Hnew Hrun)
    as (_ & Hwf & _).
  split; [exact Hwf | reflexivity].
Defined.

(** X6. On a well-formed state the calls a key press or the clear timer
    makes are always defined: [move], [rotate], [soft_drop], [ghost] and
    [clear_rows] index no array outside its bounds, and they leave the
    state well formed. *)
Theorem X6_calls_defined rdtsc a s :
  wf s → quiet_call a → ∃ s', step rdtsc a s = Some s' ∧ wf s'.
Proof.
  intros Hwf Ha.
  assert (is_Some (step rdtsc a s)) as [s' Hs'].
  { pose proof Hwf as (_ & _ & _ & _ & _ & _ & Ht).
    destruct Ha as [Ha| ->]; [destruct a; simpl in Ha; try done; simpl|].
    - unfold move. destruct (game_over s); [by eexists|].
      destruct (collide_defined (well s) _ _ (sint8 (c_x (current s) + dx))
                  (sint8 (c_y (current s) + dy)) Ht) as [[] ->]; by eexists.
    - unfold rotate. destruct (game_over s); [by eexists|].
      destruct Ht as [t Ht]. apply tetrimino_range in Ht as [Hi _].
      pose proof (Z.mod_pos_bound (c_r (current s) + 1) 4).
      rewrite uint8_id by lia.
      destruct (collide_defined (well s) (c_i (current s))
                  ((c_r (current s) + 1) `mod` 4) (c_x (current s))
                  (c_y (current s))) as [[] ->]; [|by eexists..].
      apply tetrimino_defined; lia.
    - unfold soft_drop, move. destruct (game_over s); [by eexists|].
      destruct (collide_defined (well s) _ _ (sint8 (c_x (current s) + 0))
                  (sint8 (c_y (current s) + 1)) Ht) as [[] ->]; by eexists.
    - unfold ghost.
      destruct (ghost_loop_defined (well s) _ _ (c_x (current s))
                  (Z.to_nat (WELL_HEIGHT - c_y (current s))) (c_y (current s)) Ht)
        as [y ->]. by eexists.
    - destruct (clear_rows_wf s Hwf) as (s1 & Hc & _). by eexists. }
  exists s'. split; [done|]. by apply (step_wf rdtsc a s).
Qed.

Lemma X6_calls_defined_witness :
  ∃ s', step still_clock Rotate second_piece = Some s' ∧ wf s'.
Proof.
  apply X6_calls_defined.
  - exact second_piece_wf.
  - by left.
Defined.

(** ** The ghost and the hard drop *)

(** [ghost] stops at the first colliding row at or below the piece, and
    the floor makes row 21 collide at the latest. *)
Lemma ghost_first s :
  let c := current s in
  is_Some (tetrimino (c_i c) (c_r c)) → -128 < c_y c < WELL_HEIGHT →
  ∃ y2, ghost s = Some (set_current (set_g (y2 - 1) c) s) ∧
        c_y c ≤ y2 ≤ WELL_HEIGHT - 1 ∧
        (∀ y', c_y c ≤ y' < y2 →
               collide (well s) (c_i c) (c_r c) (c_x c) y' = Some false) ∧
        collide (well s) (c_i c) (c_r c) (c_x c) y2 = Some true.
Proof.
  intros c Ht Hy. unfold ghost. fold c.
  destruct (ghost_loop_defined (well s) (c_i c) (c_r c) (c_x c)
              (Z.to_nat (WELL_HEIGHT - c_y c)) (c_y c) Ht) as [y2 Hg].
  rewrite Hg. simpl.
  assert (collide (well s) (c_i c) (c_r c) (c_x c) (WELL_HEIGHT - 1) = Some true)
    as Hfloor by (by apply collide_floor).
  destruct (ghost_loop_first (well s) (c_i c) (c_r c) (c_x c)
              (Z.to_nat (WELL_HEIGHT - c_y c)) (c_y c) y2 Hg)
    as (Hle & Hfree & Hhit).
  assert (y2 ≤ WELL_HEIGHT - 1) as Hy2.
  { destruct (decide (y2 ≤ WELL_HEIGHT - 1)) as [|Hn]; [done|].
    rewrite Hfree in Hfloor; [done|]. unfold WELL_HEIGHT in *. lia. }
  exists y2. unfold WELL_HEIGHT in *.
  rewrite sint8_id by lia. split_and!; try done; try lia.
  apply Hhit. lia.
Qed.

(** A piece that fits has its grid within three cells of the well. *)
Lemma fits_range w i r x y :
  collide w i r x y = Some false → -3 ≤ x ≤ 9 ∧ -3 ≤ y ≤ 20.
Proof.
  intros Hc.
  assert (is_Some (tetrimino i r)) as [t Ht].
  { unfold collide in Hc. destruct (tetrimino i r); [by eexists|done]. }
  destruct (low_cell _ _ _ Ht) as (yy & xx & Hyy & Hxx & Hne).
  destruct (collide_false_cells _ _ _ _ _ _ Ht Hc yy xx) as [Hin _];
    [lia|done..|].
  unfold in_well, WELL_WIDTH, WELL_HEIGHT in Hin.
  repeat (apply andb_prop in Hin as [Hin ?]).
  rewrite ?Z.leb_le, ?Z.ltb_lt in *. lia.
Qed.

(** [lock] is defined on a piece that fits. *)
Lemma lock_defined s :
  well_shape (well s) → fits s →
  ∃ w', lock s = Some (set_well w' s) ∧ well_shape w'.
Proof.
  intros Hw Hfit. unfold fits in Hfit.
  assert (is_Some (tetrimino (c_i (current s)) (c_r (current s)))) as [t Ht].
  { unfold collide in Hfit. destruct (tetrimino _ _); [by eexists|done]. }
  pose proof (collide_false_cells _ _ _ _ _ _ Ht Hfit) as Hcells.
  destruct (lock_rows_spec t (c_x (current s)) (c_y (current s))
              offsets offsets (well s) Hw) as (w' & Hl & Hw' & _).
  { intros yy xx Hyy Hxx Hne. apply elem_of_seqZ in Hyy, Hxx.
    apply Hcells; [lia..|done]. }
  exists w'. split; [|done].
  unfold lock. rewrite Ht. cbn [mbind option_bind]. by rewrite Hl.
Qed.

(** X7. A hard drop right after [ghost], on a piece that fits: the ghost
    row [g] is a row where the piece rests, at or below the piece and
    above the floor; [drop] adds twice the distance to the score and
    puts the piece on row [g], and the [update] it calls never moves the
    piece further. If [g] is 0 the game is over (the piece could not
    fall from the spawn row); otherwise the piece is locked at row [g],
    the next piece is spawned and the row scan runs on that state. *)
Theorem X7_drop_lands rdtsc s s1 :
  let c := current s in
  wf s → game_over s = false → fits s → ghost s = Some s1 →
  let g := c_g (current s1) in
  let s2 := drop_stores s1 in
  c_y c ≤ g ≤ 20 ∧ rests (well s) (c_i c) (c_r c) (c_x c) g ∧
  s2 = set_current (Piece (c_i c) (c_r c) (c_p c) (c_x c) g g)
         (set_score (uint32 (score s + 2 * (g - c_y c))) s) ∧
  (g = 0 → drop rdtsc s1 = Some (set_game_over true s2)) ∧
  (g ≠ 0 → ∃ w' s3, lock s2 = Some (set_well w' s2) ∧
                     spawn rdtsc (set_well w' s2) = Some s3 ∧
                     drop rdtsc s1 = update_rows s3).
Proof.
  intros c Hwf Hgo Hfit Hg g s2.
  pose proof Hwf as (Hw & Hbag & Hp & Hst & _ & _ & Ht).
  unfold fits in Hfit. fold c in Hfit.
  destruct (fits_range _ _ _ _ _ Hfit) as [Hx Hy].
  destruct (ghost_first s Ht) as (y2 & Hg' & Hy2 & Hfree & Hhit);
    [fold c; unfold WELL_HEIGHT; lia|].
  fold c in Hg', Hy2, Hfree, Hhit. rewrite Hg in Hg'. injection Hg' as ->.
  unfold WELL_HEIGHT in Hy2.
  assert (g = y2 - 1) as Hgv by done.
  assert (y2 ≠ c_y c) as Hne by (intros ->; congruence).
  assert (rests (well s) (c_i c) (c_r c) (c_x c) g) as [Hr1 Hr2].
  { unfold rests. rewrite Hgv. split; [apply Hfree; lia|].
    by replace (y2 - 1 + 1) with y2 by lia. }
  assert (s2 = set_current (Piece (c_i c) (c_r c) (c_p c) (c_x c) g g)
                 (set_score (uint32 (score s + 2 * (g - c_y c))) s)) as Hs2.
  { subst s2 g. unfold drop_stores, set_current, set_score, set_xy, set_g,
      HARD_DROP_SCORE_FACTOR. by simpl. }
  assert (move 0 1 s2 = Some (false, s2)) as Hmove.
  { unfold move. rewrite Hs2.
    cbn [game_over set_current set_score current well c_i c_r c_x c_y].
    rewrite Hgo, Z.add_0_r, !sint8_id by lia. by rewrite Hr2. }
  split; [lia|]. split; [done|]. split; [done|].
  unfold drop. replace (game_over (set_current _ s)) with false by done.
  fold s2. unfold update, gravity. rewrite Hmove. cbn [mbind option_bind].
  split.
  - intros H0. replace (c_y (current s2)) with g by (by rewrite Hs2).
    by rewrite H0.
  - intros H0. replace (c_y (current s2)) with g by (by rewrite Hs2).
    destruct (g =? 0) eqn:E; [apply Z.eqb_eq in E; lia|].
    destruct (lock_defined s2) as (w' & Hl & Hw').
    { by rewrite Hs2. }
    { unfold fits. by rewrite Hs2. }
    destruct (spawn_spec rdtsc (set_well w' s2))
      as (k & st & b & n & _ & _ & _ & _ & Hsp); [by rewrite Hs2..|].
    exists w'. eexists. split; [done|]. split; [exact Hsp|].
    rewrite Hl. cbn [mbind option_bind]. by rewrite Hsp.
Qed.

Lemma state_with_wf w c :
  well_shape w → 0 ≤ c_p c < BAG_SIZE → is_Some (tetrimino (c_i c) (c_r c)) →
  wf (state_with w c).
Proof.
  intros Hw Hp Ht. unfold wf, state_with. simpl.
  split; [exact Hw|]. split; [unfold bag_ok; reflexivity|]. split; [exact Hp|].
  split; [reflexivity|]. split; [reflexivity|]. split; [|exact Ht].
  repeat constructor; unfold WELL_HEIGHT; lia.
Qed.

Lemma empty_well_shape : well_shape empty_well.
Proof. split; [done|]. by repeat constructor. Qed.

Lemma moved_state_wf : wf moved_state.
Proof.
  apply (run_wf still_clock [Move (-1) 0; Rotate; SoftDrop; Move 9 0; Ghost]
           mid_state); [by vm_compute|].
  apply state_with_wf; [apply empty_well_shape|done|by eexists].
Qed.

Lemma X7_drop_lands_witness :
  drop_stores moved_state
    = set_current (Piece KIND_T 1 1 2 19 19) (set_score 17 mid_state) ∧
  ∃ w' s3, lock (drop_stores moved_state)
             = Some (set_well w' (drop_stores moved_state)) ∧
           spawn still_clock (set_well w' (drop_stores moved_state)) = Some s3 ∧
           drop still_clock moved_state = update_rows s3.
Proof.
  destruct (X7_drop_lands still_clock moved_state moved_state moved_state_wf)
    as (_ & _ & Hs2 & _ & Hlock); [reflexivity|by vm_compute|by vm_compute|].
  split; [exact Hs2|]. apply Hlock. by vm_compute.
Defined.

(** A row of [lock] whose cells all lie outside the well: the first
    nonzero cell of the grid row is stored out of bounds. *)
Lemma lock_row_outside t cx cy yy xs : ∀ w,
  (∀ xx, xx ∈ xs → in_well (cy + yy) (cx + xx) = false) →
  (∃ xx, xx ∈ xs ∧ grid_at t yy xx ≠ 0) →
  for_each (lock_cell t cx cy yy) xs w = None.
Proof.
  induction xs as [|x xs IH]; intros w Hout (xx & Hxx & Hne).
  - by apply elem_of_nil in Hxx.
  - cbn [for_each].
    destruct (decide (grid_at t yy x = 0)) as [Hz|Hnz].
    + rewrite lock_cell_zero by done. cbn [mbind option_bind].
      apply IH; [intros; apply Hout; by right|].
      exists xx. split; [|done].
      apply elem_of_cons in Hxx as [->|]; [done|done].
    + unfold lock_cell. apply Z.eqb_neq in Hnz. rewrite Hnz.
      unfold well_put. rewrite Hout by (by left). done.
Qed.

(** X8. The hard drop of a piece that stands on an occupied cell (a
    piece that [spawn] has just put onto the stack): [ghost] stores the
    row above the piece, so that [drop] lowers the score by two, modulo
    2^32, and lifts the piece by one row. If the piece stood on the
    spawn row and its grid has a cell in its top row (J, L or T as they
    are spawned), the [update] in [drop] neither ends the game nor
    stays inside the well: [lock] stores that cell in row -1. *)
Theorem X8_drop_overlapping rdtsc s s1 t :
  let c := current s in
  tetrimino (c_i c) (c_r c) = Some t →
  -128 ≤ c_x c < 128 → -128 < c_y c < WELL_HEIGHT →
  game_over s = false →
  collide (well s) (c_i c) (c_r c) (c_x c) (c_y c) = Some true →
  ghost s = Some s1 →
  c_g (current s1) = c_y c - 1 ∧
  drop_stores s1
    = set_current (Piece (c_i c) (c_r c) (c_p c) (c_x c) (c_y c - 1) (c_y c - 1))
        (set_score (uint32 (score s - 2)) s) ∧
  (c_y c = 0 → (∃ xx, 0 ≤ xx < 4 ∧ grid_at t 0 xx ≠ 0) →
   drop rdtsc s1 = None).
Proof.
  intros c Ht Hx Hy Hgo Hhit Hg.
  destruct (ghost_first s) as (y2 & Hg' & Hy2 & Hfree & _);
    [by eexists|done|].
  fold c in Hg', Hy2, Hfree. rewrite Hg in Hg'. injection Hg' as ->.
  assert (y2 = c_y c) as ->.
  { destruct (decide (y2 = c_y c)) as [|Hne]; [done|].
    rewrite Hfree in Hhit; [done|lia]. }
  split; [done|].
  assert (drop_stores (set_current (set_g (c_y c - 1) c) s)
          = set_current (Piece (c_i c) (c_r c) (c_p c) (c_x c) (c_y c - 1)
                           (c_y c - 1))
              (set_score (uint32 (score s - 2)) s)) as Hs2.
  { unfold drop_stores, set_current, set_score, set_xy, set_g,
      HARD_DROP_SCORE_FACTOR. simpl. do 2 f_equal. lia. }
  split; [done|]. intros H0 Htop.
  unfold drop. replace (game_over (set_current _ s)) with false by done.
  rewrite Hs2. unfold update, gravity, move.
  cbn [game_over set_current set_score current well c_i c_r c_x c_y].
  rewrite Hgo, Z.add_0_r, sint8_id by lia.
  replace (c_y c - 1 + 1) with (c_y c) by lia.
  rewrite sint8_id by (unfold WELL_HEIGHT in Hy; lia).
  rewrite Hhit. cbn [mbind option_bind current set_current c_y].
  rewrite H0. change (0 - 1 =? 0) with false. cbv iota.
  unfold lock. cbn [current set_current c_i c_r c_x c_y well]. rewrite Ht.
  cbn [mbind option_bind]. unfold offsets at 2.
  change (seqZ 0 4) with (0 :: seqZ 1 3). cbn [for_each].
  rewrite lock_row_outside; [done| |].
  - intros xx _. done.
  - destruct Htop as (xx & Hxx & Hne). exists xx. split; [|done].
    apply elem_of_seqZ. lia.
Qed.

Lemma X8_drop_overlapping_witness :
  ∃ s1, ghost overlapped_state = Some s1 ∧ c_g (current s1) = -1 ∧
        score (drop_stores s1) = 4294967294 ∧
        drop still_clock s1 = None.
Proof.
  exists (set_current (Piece KIND_J 0 2 3 0 (-1)) overlapped_state).
  assert (ghost overlapped_state
          = Some (set_current (Piece KIND_J 0 2 3 0 (-1)) overlapped_state))
    as Hg by (by vm_compute).
  assert (tetrimino KIND_J 0
          = Some [[7; 0; 0; 0]; [7; 7; 7; 0]; [0; 0; 0; 0]; [0; 0; 0; 0]])
    as Ht by reflexivity.
  destruct (X8_drop_overlapping still_clock overlapped_state
              (set_current (Piece KIND_J 0 2 3 0 (-1)) overlapped_state) _ Ht)
    as (Hgv & Hs2 & Hdrop); [simpl; lia|simpl; unfold WELL_HEIGHT; lia|
                             reflexivity|by vm_compute|exact Hg|].
  split; [exact Hg|]. split; [exact Hgv|]. split; [by rewrite Hs2|].
  apply Hdrop; [reflexivity|]. exists 0. split; [lia|by vm_compute].
Defined.

(** ** Row removal in general *)

Lemma filter_ext_in {A} (P Q : A → Prop) `{!∀ x, Decision (P x)}
    `{!∀ x, Decision (Q x)} (l : list A) :
  (∀ x, x ∈ l → P x ↔ Q x) → filter P l = filter Q l.
Proof.
  induction l as [|a l IH]; intros Heq; [done|].
  rewrite !filter_cons.
  destruct (decide (P a)) as [HP|HP], (decide (Q a)) as [HQ|HQ].
  - f_equal. apply IH. intros. apply Heq. by right.
  - exfalso. apply HQ, Heq; [by left|done].
  - exfalso. apply HP, Heq; [by left|done].
  - apply IH. intros. apply Heq. by right.
Qed.

Lemma delete_app_l {A} (l k : list A) i :
  (i < length l)%nat → delete i (l ++ k) = delete i l ++ k.
Proof.
  revert i. induction l as [|a l IH]; intros [|i] Hi; simpl in *; try lia.
  - done.
  - f_equal. apply IH. lia.
Qed.

(** Removing rows of a front part leaves the rows behind it alone. *)
Lemma remove_rows_app r0 x ps : ∀ m,
  Forall (λ p, 0 ≤ p < Z.of_nat (length m)) ps →
  foldl (remove_row r0) (m ++ [x]) ps = foldl (remove_row r0) m ps ++ [x] ∧
  length (foldl (remove_row r0) m ps) = length m.
Proof.
  induction ps as [|p ps IH]; intros m Hps; [done|].
  apply Forall_cons_1 in Hps as [Hp Hps]. cbn [foldl].
  assert (length (remove_row r0 m p) = length m) as Hlen.
  { unfold remove_row. simpl. rewrite length_delete.
    - destruct m; simpl in *; lia.
    - apply lookup_lt_is_Some. lia. }
  assert (remove_row r0 (m ++ [x]) p = remove_row r0 m p ++ [x]) as ->.
  { unfold remove_row. simpl. f_equal. apply delete_app_l. lia. }
  destruct (IH (remove_row r0 m p)) as [-> ->]; [by rewrite Hlen|done].
Qed.

(** Taking out the full rows one after the other, top row first, as
    [clear_rows] does, takes out exactly the full rows. *)
Lemma remove_rows_compact r0 l :
  let keep := filter (λ row, ¬ row_full row) l in
  foldl (remove_row r0) l (filter (full_at l) (seqZ 0 (Z.of_nat (length l))))
    = replicate (length l - length keep) r0 ++ keep.
Proof.
  induction l as [|x l IH] using rev_ind; [done|]. intros keep. subst keep.
  rewrite length_app. simpl.
  rewrite Nat.add_1_r, seqZ_S, list.filter_app, Z.add_0_l, foldl_app.
  assert (filter (full_at (l ++ [x])) (seqZ 0 (Z.of_nat (length l)))
          = filter (full_at l) (seqZ 0 (Z.of_nat (length l)))) as ->.
  { apply filter_ext_in. intros y Hy. apply elem_of_seqZ in Hy.
    unfold full_at. by rewrite lookup_app_l by lia. }
  destruct (remove_rows_app r0 x
              (filter (full_at l) (seqZ 0 (Z.of_nat (length l)))) l)
    as [-> Hlen].
  { apply Forall_forall. intros y Hy.
    apply list_elem_of_In, list_elem_of_filter in Hy as [_ Hy].
    apply elem_of_seqZ in Hy. lia. }
  simpl in IH. rewrite IH in Hlen |- *. rewrite list.filter_app.
  pose proof (list.length_filter (λ row, ¬ row_full row) l) as Hle.
  assert (full_at (l ++ [x]) (Z.of_nat (length l)) ↔ row_full x) as Hx.
  { unfold full_at. rewrite Nat2Z.id.
    rewrite lookup_app_r, Nat.sub_diag by lia. done. }
  rewrite !list.filter_cons, !list.filter_nil.
  set (keep := filter (λ row, ¬ row_full row) l) in *.
  set (R := replicate (length l - length keep) r0 ++ keep) in *.
  destruct (decide (row_full x)) as [Hf|Hf].
  - rewrite decide_True by (by apply Hx).
    rewrite decide_False by (intros Hn; by apply Hn).
    cbn [foldl]. unfold remove_row. rewrite Nat2Z.id.
    assert (delete (length l) (R ++ [x]) = R ++ []) as ->
      by (rewrite <- Hlen; apply delete_middle).
    rewrite !app_nil_r. subst R.
    change (r0 :: replicate (length l - length keep) r0 ++ keep)
      with (replicate (S (length l - length keep)) r0 ++ keep).
    do 2 f_equal. lia.
  - rewrite decide_False by (by rewrite Hx).
    rewrite decide_True by done. cbn [foldl]. subst R.
    rewrite length_app. simpl. rewrite <- app_assoc. do 2 f_equal. lia.
Qed.

(** The inner loops of [clear_rows] for one recorded row, on the well
    as a list of rows. *)
Lemma shift_down_remove n w r0 :
  well_shape w → w !! 0%nat = Some r0 → (n < 22)%nat →
  shift_down n w = Some (remove_row r0 w (Z.of_nat n)) ∧
  well_shape (remove_row r0 w (Z.of_nat n)).
Proof.
  intros Hw H0 Hn.
  destruct (shift_down_spec n w Hw Hn) as (w' & Hs & Hw' & Hrows).
  assert (w' = remove_row r0 w (Z.of_nat n)) as <-; [|done].
  apply list_eq. intros k. rewrite Hrows. unfold remove_row.
  rewrite Nat2Z.id. destruct k as [|k].
  - by rewrite decide_False by lia.
  - simpl. destruct (decide (1 ≤ S k ≤ n)%nat).
    + rewrite list_lookup_delete_lt by lia. f_equal. lia.
    + by rewrite list_lookup_delete_ge by lia.
Qed.

Lemma length_filter_all {A} (P : A → Prop) `{!∀ x, Decision (P x)} l :
  length (filter P l) = length l ↔ Forall P l.
Proof.
  induction l as [|a l IH]; [done|]. rewrite list.filter_cons.
  pose proof (list.length_filter P l).
  destruct (decide (P a)); simpl.
  - split.
    + intros Hl. apply Forall_cons_2; [done|]. apply IH. lia.
    + intros Hf. apply Forall_cons_1 in Hf as [_ Hl]. apply IH in Hl. lia.
  - split; [lia|]. intros Hf. by apply Forall_cons_1 in Hf as [? _].
Qed.

(** The counter of the row scan reaches 10 on the rows that are full. *)
Lemma full_count_row w y row :
  0 ≤ y < WELL_HEIGHT → w !! Z.to_nat y = Some row →
  length row = Z.to_nat WELL_WIDTH →
  full_count w y = WELL_WIDTH ↔ row_full row.
Proof.
  intros Hy Hrow Hlen. unfold full_count, row_full.
  assert (filter (λ x, default 0 (well_get w y x) ≠ 0) (seqZ 0 WELL_WIDTH)
          = filter (λ x, default 0 (row !! Z.to_nat x) ≠ 0) (seqZ 0 WELL_WIDTH))
    as ->.
  { apply filter_ext_in. intros x Hx. apply elem_of_seqZ in Hx.
    unfold well_get, in_well, array_get.
    destruct (Z.leb_spec 0 y); [|lia]. destruct (Z.ltb_spec y WELL_HEIGHT); [|lia].
    destruct (Z.leb_spec 0 x); [|lia]. destruct (Z.ltb_spec x WELL_WIDTH); [|lia].
    simpl. by rewrite Hrow. }
  unfold WELL_WIDTH in *.
  replace 10 with (Z.of_nat (length (seqZ 0 10))) at 2 by done.
  rewrite Nat2Z.inj_iff, length_filter_all.
  rewrite Forall_forall, (Forall_lookup (λ v, v ≠ 0)). split.
  - intros H i v Hv. apply lookup_lt_Some in Hv as Hi.
    specialize (H (Z.of_nat i)). rewrite Nat2Z.id, Hv in H. apply H.
    apply list_elem_of_In, elem_of_seqZ. lia.
  - intros H x Hx. apply list_elem_of_In, elem_of_seqZ in Hx.
    destruct (lookup_lt_is_Some_2 row (Z.to_nat x)) as [v Hv]; [lia|].
    rewrite Hv. simpl. by eapply H.
Qed.

Lemma full_rows_full_at w :
  well_shape w → full_rows w = filter (full_at w) (seqZ 0 (Z.of_nat (length w))).
Proof.
  intros [Hlen Hrows]. unfold full_rows. rewrite Hlen.
  replace (Z.of_nat (Z.to_nat WELL_HEIGHT)) with WELL_HEIGHT by done.
  apply filter_ext_in. intros y Hy. apply elem_of_seqZ in Hy.
  destruct (lookup_lt_is_Some_2 w (Z.to_nat y)) as [row Hrow];
    [unfold WELL_HEIGHT in *; lia|].
  unfold full_at. rewrite Hrow. simpl.
  apply full_count_row; [lia|done|].
  exact (Forall_lookup_1 _ _ _ _ Hrows Hrow).
Qed.

(** The outer loop of [clear_rows] on a record that holds the rows [rs],
    none of them row 0, between entries that are zero. *)
Lemma clear_rows_loop_fold r0 rs : ∀ (j z : nat) w,
  well_shape w → w !! 0%nat = Some r0 →
  Forall (λ r, 0 < r < WELL_HEIGHT) rs →
  clear_rows_loop (seqZ (Z.of_nat j) (Z.of_nat (length rs + z))) w
                  (replicate j 0 ++ rs ++ replicate z 0)
    = Some (foldl (remove_row r0) w rs, replicate (j + length rs + z) 0) ∧
  well_shape (foldl (remove_row r0) w rs).
Proof.
  induction rs as [|r rs IH]; intros j z w Hw H0 Hrs.
  - split; [|done]. simpl. rewrite <- replicate_add, Nat.add_0_r.
    destruct z as [|z]; [done|].
    rewrite seqZ_cons by lia. cbn [clear_rows_loop].
    rewrite array_get_nat, lookup_replicate_2 by lia. done.
  - apply Forall_cons_1 in Hrs as [Hr Hrs]. unfold WELL_HEIGHT in Hr.
    cbn [length foldl]. rewrite seqZ_cons by lia. cbn [clear_rows_loop].
    rewrite array_get_nat.
    rewrite lookup_app_r by (by rewrite length_replicate).
    rewrite length_replicate, Nat.sub_diag. cbn [lookup list_lookup app].
    cbn [mbind option_bind].
    destruct (Z.eqb_spec r 0) as [|_]; [lia|].
    destruct (shift_down_remove (Z.to_nat r) w r0 Hw H0) as [Hs Hw1]; [lia|].
    rewrite Z2Nat.id in Hs, Hw1 by lia. rewrite Hs. cbn [mbind option_bind].
    rewrite Nat2Z.id.
    assert (<[j := 0]> (replicate j 0 ++ r :: rs ++ replicate z 0)
            = replicate (S j) 0 ++ rs ++ replicate z 0) as ->.
    { rewrite insert_app_r_alt by (by rewrite length_replicate).
      rewrite length_replicate, Nat.sub_diag. simpl.
      change (0 :: replicate j 0 ++ rs ++ replicate z 0)
        with (replicate (S j) 0 ++ rs ++ replicate z 0).
      by rewrite replicate_S_end, <- app_assoc. }
    replace (Z.succ (Z.of_nat j)) with (Z.of_nat (S j)) by lia.
    replace (Z.pred (Z.of_nat (S (length rs) + z)))
      with (Z.of_nat (length rs + z)) by lia.
    destruct (IH (S j) z (remove_row r0 w r) Hw1) as [-> Hw2]; [done..|].
    split; [|done]. do 3 f_equal. lia.
Qed.

Lemma filter_none {A} (P : A → Prop) `{!∀ x, Decision (P x)} (l : list A) :
  (∀ x, x ∈ l → ¬ P x) → filter P l = [].
Proof.
  intros Hno. destruct (filter P l) as [|x k] eqn:E; [done|].
  assert (x ∈ filter P l) as Hx by (rewrite E; by left).
  apply list_elem_of_filter in Hx as [HP Hx]. by destruct (Hno x Hx).
Qed.

(** X9. Line clearing in general. For a well whose top row is not full
    and a record [cleared_rows] that is what the row scan of [update]
    stores into a zeroed record (so at most four rows are full),
    [clear_rows] takes exactly the full rows out of the well: the other
    rows keep their order and move to the bottom, a copy of the top row
    comes in at the top for every row taken out, the record is zeroed,
    nothing else changes, and no full row is left. The scan counted the
    full rows; with none of them the well is as it was. *)
Theorem X9_clear_rows_compacts s i rows :
  well_shape (well s) →
  ¬ row_full (well_row (well s) 0) →
  scan (well s) [0; 0; 0; 0] = Some (cleared_rows s, i, rows) →
  clear_rows s
    = Some (set_cleared_rows [0; 0; 0; 0] (set_well (compact (well s)) s)) ∧
  well_shape (compact (well s)) ∧
  full_rows (compact (well s)) = [] ∧
  rows = Z.of_nat (length (full_rows (well s))) ∧ 0 ≤ rows ≤ 4 ∧
  (rows = 0 → compact (well s) = well s).
Proof.
  intros Hw Htop Hscan. pose proof Hw as [Hlen Hrows].
  set (rs := full_rows (well s)) in *.
  assert (length rs ≤ 4)%nat as Hk.
  { destruct (decide (length rs ≤ 4)%nat) as [|Hn]; [done|]. unfold scan in Hscan.
    rewrite (scan_rows_overflow _ _ [0; 0; 0; 0] 0%nat 0) in Hscan;
      [done|simpl; lia|]. subst rs. unfold full_rows in Hn. simpl. lia. }
  rewrite scan_spec in Hscan by done. fold rs in Hscan.
  injection Hscan as Hcr _ <-.
  destruct (lookup_lt_is_Some_2 (well s) 0%nat) as [r0 H0];
    [rewrite Hlen; unfold WELL_HEIGHT; lia|].
  assert (well_row (well s) 0 = r0) as Hr0.
  { rewrite well_row_lookup by lia. change (Z.to_nat 0) with 0%nat.
    by rewrite H0. }
  rewrite Hr0 in Htop.
  assert (Forall (λ r, 0 < r < WELL_HEIGHT) rs) as Hrs.
  { apply Forall_forall. intros y Hy.
    apply list_elem_of_In, elem_of_full_rows in Hy as [Hy Hfull].
    destruct (decide (y = 0)) as [->|]; [|lia].
    exfalso. apply Htop.
    apply (full_count_row (well s) 0 r0); [done|done| |done].
    exact (Forall_lookup_1 _ _ _ _ Hrows H0). }
  destruct (clear_rows_loop_fold r0 rs 0 (4 - length rs) (well s) Hw H0 Hrs)
    as [Hloop Hw'].
  assert (foldl (remove_row r0) (well s) rs = compact (well s)) as Hfold.
  { subst rs. rewrite full_rows_full_at by done.
    unfold compact. rewrite Hr0. apply remove_rows_compact. }
  rewrite Hfold in Hloop, Hw'.
  assert (skipn (length rs) [0; 0; 0; 0] = replicate (4 - length rs) 0) as Hz.
  { revert Hk. generalize (length rs). intros k Hk.
    do 5 (destruct k as [|k]; [done|]). lia. }
  split.
  { unfold clear_rows. rewrite <- Hcr, Hz.
    replace (seqZ 0 4)
      with (seqZ (Z.of_nat 0) (Z.of_nat (length rs + (4 - length rs))))
      by (f_equal; lia).
    change (rs ++ replicate (4 - length rs) 0)
      with (replicate 0 0 ++ rs ++ replicate (4 - length rs) 0).
    rewrite Hloop. cbn [mbind option_bind].
    by replace (0 + length rs + (4 - length rs))%nat with 4%nat by lia. }
  split; [done|]. split.
  { rewrite full_rows_full_at by done. apply filter_none.
    intros y _ Hy. unfold full_at in Hy.
    destruct (compact (well s) !! Z.to_nat y) as [row|] eqn:Hrow; [|done].
    simpl in Hy. apply list_elem_of_lookup_2 in Hrow.
    unfold compact in Hrow. apply elem_of_app in Hrow as [Hrow|Hrow].
    - apply elem_of_replicate in Hrow as [-> _]. by rewrite Hr0 in Hy.
    - by apply list_elem_of_filter in Hrow as [Hn _]. }
  split; [done|]. split; [lia|].
  intros Hnone. assert (rs = []) as Hnil by (destruct rs; [done|simpl in *; lia]).
  rewrite <- Hfold, Hnil. done.
Qed.

Lemma X9_clear_rows_compacts_witness :
  clear_rows four_rows_pending
    = Some (set_cleared_rows [0; 0; 0; 0]
              (set_well (compact four_rows_well) four_rows_pending)) ∧
  compact four_rows_well
    = replicate 21%nat empty_row ++ [[0; 0; 0; 3; 3; 0; 0; 0; 0; 0]].
Proof.
  destruct (X9_clear_rows_compacts four_rows_pending 4 4) as (Hc & _).
  - split; [done|]. by repeat constructor.
  - intros H. by apply Forall_cons_1 in H as [? _].
  - by vm_compute.
  - split; [exact Hc|]. by vm_compute.
Defined.

(** ** The bounds of [update] *)

(** The gravity step is defined on a piece that fits. *)
Lemma gravity_defined rdtsc s :
  wf s → fits s → ∃ g, gravity rdtsc s = Some g ∧ wf (after g).
Proof.
  intros Hwf Hfit. pose proof Hwf as (Hw & _ & _ & _ & _ & _ & Ht).
  unfold gravity.
  assert (is_Some (move 0 1 s)) as [[ok s1] Hm].
  { unfold move. destruct (game_over s); [by eexists|].
    destruct (collide_defined (well s) _ _ (sint8 (c_x (current s) + 0))
                (sint8 (c_y (current s) + 1)) Ht) as [[] ->]; by eexists. }
  rewrite Hm. cbn [mbind option_bind].
  pose proof (move_wf _ _ _ _ _ Hm Hwf) as Hwf1. destruct ok.
  - by eexists.
  - apply move_false in Hm as ->. destruct (_ =? 0).
    + eexists. split; [done|]. simpl. revert Hwf. by apply wf_frame.
    + destruct (lock_defined s Hw Hfit) as (w' & Hl & Hw').
      rewrite Hl. cbn [mbind option_bind].
      pose proof (lock_wf _ _ Hl Hwf) as Hwf2.
      pose proof Hwf2 as (_ & Hbag & Hp & Hst & _).
      destruct (spawn_spec rdtsc (set_well w' s) Hbag Hp Hst)
        as (k & st & b & n & _ & _ & _ & _ & Hsp).
      rewrite Hsp. cbn [mbind option_bind]. eexists. split; [done|].
      simpl. exact (spawn_wf rdtsc _ _ Hsp Hwf2).
Qed.

(** X10. The bounds of [update] on a well-formed state whose piece fits
    and whose level is below [UINT32_MAX]. The gravity step is always
    defined: no store leaves the well, the bag or [stats]. The row scan
    that follows stays inside [cleared_rows] exactly when the well then
    holds at most four full rows: with five or more, the fifth is stored
    past the end of the array. *)
Theorem X10_update_bounds rdtsc s :
  wf s → fits s → 0 ≤ level s < 2 ^ 32 - 1 →
  ∃ g, gravity rdtsc s = Some g ∧
       (detected g ≤ 4 → ∃ s', update rdtsc s = Some s' ∧ wf s') ∧
       (4 < detected g → update rdtsc s = None).
Proof.
  intros Hwf Hfit Hlv.
  destruct (gravity_defined rdtsc s Hwf Hfit) as (g & Hg & Hwfg).
  exists g. split; [done|]. unfold update. rewrite Hg. cbn [mbind option_bind].
  destruct g as [s1|s1]; simpl in *.
  - split; [|lia]. intros _. by exists s1.
  - pose proof Hwfg as (_ & _ & _ & _ & Hcl & _).
    apply gravity_same_scoring in Hg as (_ & Hlevel & _). split.
    + intros Hk.
      assert (is_Some (update_rows s1)) as [s' Hs'].
      { rewrite update_rows_spec by (rewrite Hcl; lia).
        unfold leveling. destruct (_ >=? _); [|by eexists].
        cbn [level set_score set_cleared_rows]. rewrite Hlevel.
        rewrite uint32_id by lia.
        destruct (Z.eqb_spec (level s + 1) 0); [lia|by eexists]. }
      exists s'. split; [done|]. by apply (update_rows_wf s1).
    + intros Hk. unfold update_rows, scan.
      rewrite (scan_rows_overflow _ _ _ 0%nat 0); [done|lia|].
      rewrite Hcl. unfold full_rows in Hk. lia.
Qed.

Lemma X10_update_bounds_witness :
  update still_clock five_rows_state = None ∧
  ∃ s', update still_clock mid_state = Some s' ∧ wf s'.
Proof.
  assert (wf five_rows_state) as Hwf5.
  { apply state_with_wf; [|done|by eexists]. split; [done|].
    by repeat constructor. }
  assert (wf mid_state) as Hwfm.
  { apply state_with_wf; [apply empty_well_shape|done|by eexists]. }
  split.
  - destruct (X10_update_bounds still_clock five_rows_state Hwf5)
      as (g & Hg & _ & Hover); [by vm_compute|simpl; lia|].
    apply Hover.
    assert (gravity still_clock five_rows_state
            = Some (Falling (set_current (Piece KIND_O 0 1 3 1 0)
                               five_rows_state))) as Hg' by (by vm_compute).
    rewrite Hg' in Hg. injection Hg as <-. by vm_compute.
  - destruct (X10_update_bounds still_clock mid_state Hwfm)
      as (g & Hg & Hok & _); [by vm_compute|simpl; lia|].
    apply Hok.
    assert (gravity still_clock mid_state
            = Some (Falling (set_current (Piece KIND_T 0 1 3 11 0) mid_state)))
      as Hg' by (by vm_compute).
    rewrite Hg' in Hg. injection Hg as <-. by vm_compute.
Defined.

(** * Formatting *)

Lemma digits_of_length r m : ∀ n, length (digits_of r m n) = m.
Proof.
  induction m as [|m IH]; intros n; [done|]. simpl.
  rewrite length_app, IH. simpl. lia.
Qed.

Lemma digits_of_range r m : ∀ n,
  0 < r → Forall (λ d, 0 ≤ d < r) (digits_of r m n).
Proof.
  induction m as [|m IH]; intros n Hr; [constructor|]. simpl.
  apply Forall_app. split; [by apply IH|].
  constructor; [|constructor]. by apply Z.mod_pos_bound.
Qed.

(** The digits read back as a number give [n] up to the width. *)
Lemma number_of_digits r m : ∀ n,
  0 < r → 0 ≤ n → number_of r (digits_of r m n) = n `mod` r ^ Z.of_nat m.
Proof.
  unfold number_of.
  induction m as [|m IH]; intros n Hr Hn.
  - simpl. by rewrite Z.mod_1_r.
  - cbn [digits_of]. rewrite foldl_app. cbn [foldl].
    rewrite IH by (done || by apply Z.div_pos).
    rewrite Nat2Z.inj_succ, Z.pow_succ_r by lia.
    rewrite Z.rem_mul_r by lia. ring.
Qed.

Lemma digit_char_nonzero d : 0 ≤ d < 16 → digit_char d ≠ 0.
Proof.
  intros Hd.
  assert (d = 0 ∨ d = 1 ∨ d = 2 ∨ d = 3 ∨ d = 4 ∨ d = 5 ∨ d = 6 ∨ d = 7 ∨
          d = 8 ∨ d = 9 ∨ d = 10 ∨ d = 11 ∨ d = 12 ∨ d = 13 ∨ d = 14 ∨ d = 15)
    as Hd' by lia.
  cases Hd'; done.
Qed.

Lemma digit_char_get d :
  0 ≤ d < 16 → array_get itoa_digits d = Some (digit_char d).
Proof.
  intros Hd. unfold digit_char.
  destruct (array_get itoa_digits d) eqn:E; [done|].
  unfold array_get in E. destruct (Z.leb_spec 0 d); [|lia].
  apply lookup_ge_None in E. simpl in E. lia.
Qed.

Lemma array_put_Some {A} (arr : list A) (i : nat) v :
  (i < length arr)%nat → array_put arr (Z.of_nat i) v = Some (<[i := v]> arr).
Proof.
  intros Hi. unfold array_put.
  destruct (Z.leb_spec 0 (Z.of_nat i)); [|lia].
  destruct (Z.ltb_spec (Z.of_nat i) (Z.of_nat (length arr))); [|lia].
  simpl. by rewrite Nat2Z.id.
Qed.

(** The loop of [itoa] from index [f + m] down to [f], where it stops:
    [m] digits are written. *)
Lemma itoa_loop_spec r w f m : ∀ n s,
  2 ≤ r ≤ 16 → 0 ≤ n → (f + S m ≤ length s)%nat →
  Z.of_nat f ≤ 33 - w → (m ≠ 0%nat → Z.of_nat f = 33 - w) →
  itoa_loop (f + S m) n r w s
    = Some (f, take f s ++ (digit_char <$> digits_of r (S m) n)
                 ++ skipn (f + S m) s).
Proof.
  induction m as [|m IH]; intros n s Hr Hn Hlen Hf Hm.
  - rewrite Nat.add_1_r. cbn [itoa_loop digits_of].
    destruct (Z.eqb_spec r 0); [lia|].
    pose proof (Z.mod_pos_bound n r).
    rewrite digit_char_get by lia. cbn [mbind option_bind].
    rewrite array_put_Some by lia. cbn [mbind option_bind].
    destruct (Z.gtb_spec (Z.of_nat f) (33 - w)); [lia|].
    do 2 f_equal. simpl.
    rewrite <- (take_drop f s) at 1.
    rewrite insert_app_r_alt by (rewrite length_take; lia).
    rewrite length_take, Nat.min_l, Nat.sub_diag by lia. f_equal.
    destruct (skipn f s) as [|c rest] eqn:E.
    { apply (f_equal length) in E. rewrite length_skipn in E. simpl in E. lia. }
    simpl. f_equal.
    replace (S f) with (f + 1)%nat by lia.
    by rewrite <- drop_drop, E.
  - replace (f + S (S m))%nat with (S (f + S m)) by lia.
    cbn [itoa_loop]. destruct (Z.eqb_spec r 0); [lia|].
    pose proof (Z.mod_pos_bound n r).
    rewrite digit_char_get by lia. cbn [mbind option_bind].
    rewrite array_put_Some by lia. cbn [mbind option_bind].
    destruct (Z.gtb_spec (Z.of_nat (f + S m)) (33 - w)); [|lia].
    rewrite IH; [|done|apply Z.div_pos; lia|rewrite length_insert; lia|
                 done|intros _; apply Hm; lia].
    do 2 f_equal. rewrite take_insert_ge by lia. f_equal.
    change (digits_of r (S (S m)) n)
      with (digits_of r (S m) (n / r) ++ [n `mod` r]).
    rewrite fmap_app, <- app_assoc. f_equal. simpl.
    rewrite drop_insert_ge by lia.
    replace (f + S m - (f + S m))%nat with 0%nat by lia.
    destruct (skipn (f + S m) s) as [|c rest] eqn:E.
    { apply (f_equal length) in E. rewrite length_skipn in E. simpl in E. lia. }
    simpl. f_equal.
    replace (S (f + S m)) with (f + S m + 1)%nat by lia.
    by rewrite <- drop_drop, E.
Qed.

Lemma c_string_app l k :
  Forall (λ c, c ≠ 0) l → c_string (l ++ 0 :: k) = l.
Proof.
  induction 1 as [|c l Hc _ IH]; [done|]. simpl.
  destruct (Z.eqb_spec c 0); [done|]. by rewrite IH.
Qed.

(** X11. [itoa(n, r, w)] for a radix from 2 to 16 and a width up to 33:
    the string returned is [max(w, 1)] characters long and holds, most
    significant digit first, the digits of [n] modulo [r^max(w, 1)] in
    radix [r], written with the characters 0-9 and A-F. Read back as a
    number it gives [n] whenever [n] has no more digits than that; a
    longer [n] loses its high digits. The string ends at index 33 of
    the buffer and the part of the buffer before it is left alone. *)
Theorem X11_itoa_digits n r w s :
  length s = 34%nat → 2 ≤ r ≤ 16 → 0 ≤ n → 0 ≤ w ≤ 33 →
  let m := Z.to_nat (Z.max w 1) in
  let ds := digits_of r m n in
  ∃ s', itoa n r w s = Some ((33 - m)%nat, s') ∧
        string_at s' (33 - m) = digit_char <$> ds ∧
        length ds = m ∧ Forall (λ d, 0 ≤ d < r) ds ∧
        number_of r ds = n `mod` r ^ Z.of_nat m ∧
        (n < r ^ Z.of_nat m → number_of r ds = n) ∧
        length s' = 34%nat ∧ s' !! 33%nat = Some 0 ∧
        take (33 - m) s' = take (33 - m) s.
Proof.
  intros Hlen Hr Hn Hw m ds.
  assert (1 ≤ m ≤ 33)%nat as Hm by (subst m; lia).
  set (f := (33 - m)%nat).
  unfold itoa. change 33 with (Z.of_nat 33).
  rewrite array_put_Some by lia. cbn [mbind option_bind].
  assert (itoa_loop (f + S (m - 1)) n r w (<[33%nat := 0]> s)
          = Some (f, take f (<[33%nat := 0]> s)
                       ++ (digit_char <$> digits_of r (S (m - 1)) n)
                       ++ skipn (f + S (m - 1)) (<[33%nat := 0]> s))) as Hloop.
  { apply itoa_loop_spec;
      [done|done|rewrite length_insert; subst f; lia|subst f m; lia
      |subst f m; lia]. }
  replace (S (m - 1)) with m in Hloop by lia. fold ds in Hloop.
  replace (f + m)%nat with 33%nat in Hloop by (subst f; lia).
  rewrite Hloop. clear Hloop.
  assert (skipn 33 (<[33%nat := 0]> s) = [0]) as Hend.
  { do 34 (destruct s as [|? s]; [done|]). by destruct s. }
  rewrite Hend.
  assert (length (take f (<[33%nat := 0]> s)) = f) as Hf.
  { rewrite length_take, length_insert. subst f. lia. }
  assert (length ds = m) as Hds by apply digits_of_length.
  assert (Forall (λ d, 0 ≤ d < r) ds) as Hrange
    by (apply digits_of_range; lia).
  assert (number_of r ds = n `mod` r ^ Z.of_nat m) as Hnum
    by (apply number_of_digits; lia).
  eexists. split; [done|]. split.
  { unfold string_at. rewrite <- Hf at 1. rewrite drop_app_length.
    apply c_string_app. apply Forall_fmap.
    revert Hrange. apply Forall_impl. simpl. intros d Hd.
    apply digit_char_nonzero. lia. }
  split; [done|]. split; [done|]. split; [done|]. split.
  { intros Hsmall. rewrite Hnum. apply Z.mod_small. lia. }
  split.
  { rewrite !length_app, Hf, length_fmap, Hds. subst f. simpl. lia. }
  split.
  { rewrite lookup_app_r by lia. rewrite Hf.
    rewrite lookup_app_r by (rewrite length_fmap, Hds; subst f; lia).
    rewrite length_fmap, Hds. by replace (33 - f - m)%nat with 0%nat by (subst f; lia). }
  rewrite <- Hf at 1. rewrite take_app_length.
  rewrite take_insert_ge by (subst f; lia). done.
Qed.

Lemma X11_itoa_digits_witness :
  ∃ s', itoa 1234567 10 10 fresh_buffer = Some (23%nat, s') ∧
        string_at s' 23 = [48; 48; 48; 49; 50; 51; 52; 53; 54; 55] ∧
        number_of 10 (digits_of 10 10 1234567) = 1234567.
Proof.
  destruct (X11_itoa_digits 1234567 10 10 fresh_buffer)
    as (s' & Hi & Hs & _ & _ & _ & Hn & _); [done|lia|lia|lia|].
  exists s'. split; [exact Hi|]. split; [exact Hs|]. apply Hn. by vm_compute.
Defined.

(** The loop of [itoa] for a width above 33: the test [i > 33 - w]
    holds for every index, so the loop runs until the index wraps. *)
Lemma itoa_loop_wide r w i : ∀ n s, 33 < w → itoa_loop i n r w s = None.
Proof.
  induction i as [|i IH]; intros n s Hw; [done|]. cbn [itoa_loop].
  destruct (r =? 0); [done|].
  destruct (array_get _ _); [|done]. cbn [mbind option_bind].
  destruct (array_put _ _ _); [|done]. cbn [mbind option_bind].
  destruct (Z.gtb_spec (Z.of_nat i) (33 - w)); [by apply IH|lia].
Qed.

(** X12. Where [itoa] leaves defined behaviour: with radix 0 it divides
    by zero; with a radix above 16 and a digit of 16 or more it reads
    past the end of the digit table; with a width above 33 it goes on
    after the buffer is full and stores in front of it (at index 255,
    the [uint8_t] index having wrapped). *)
Theorem X12_itoa_undefined n r w s :
  r = 0 ∨ 16 ≤ n `mod` r ∨ 33 < w → itoa n r w s = None.
Proof.
  intros Hcase. unfold itoa.
  destruct (array_put s 33 0) as [s0|]; [|done]. cbn [mbind option_bind].
  destruct Hcase as [->|[Hd|Hw]].
  - done.
  - cbn [itoa_loop]. destruct (r =? 0); [done|].
    assert (array_get itoa_digits (n `mod` r) = None) as ->; [|done].
    unfold array_get. destruct (Z.leb_spec 0 (n `mod` r)); [|done].
    apply lookup_ge_None. simpl. lia.
  - by apply itoa_loop_wide.
Qed.

Lemma X12_itoa_undefined_witness :
  itoa 5 10 34 fresh_buffer = None ∧ itoa 35 36 2 fresh_buffer = None.
Proof.
  split; apply X12_itoa_undefined.
  - right. right. lia.
  - right. left. by vm_compute.
Defined.

(** * Pace *)

Lemma scan_rows_le w cr cr' i rows :
  scan w cr = Some (cr', i, rows) → length cr = 4%nat →
  rows = Z.of_nat (length (full_rows w)) ∧ (length (full_rows w) ≤ 4)%nat.
Proof.
  intros Hs Hlen.
  destruct (decide (length (full_rows w) ≤ length cr)%nat) as [Hle|Hgt].
  - rewrite scan_spec in Hs by done. injection Hs as _ _ <-. split; [done|lia].
  - unfold scan in Hs.
    rewrite (scan_rows_overflow w _ cr 0%nat 0) in Hs; [done|lia|].
    unfold full_rows in Hgt. lia.
Qed.

Lemma interval_at_range lv : 1 ≤ lv → 10 ≤ interval_at lv ≤ 1000.
Proof.
  intros Hlv. unfold interval_at.
  pose proof (Z.div_pos 990 lv). pose proof (Z.div_le_upper_bound 990 lv 990).
  nia.
Qed.

Lemma paced_frame s s' :
  level s' = level s → level_rows s' = level_rows s → speed s' = speed s →
  paced s → paced s'.
Proof. unfold paced. by intros -> -> ->. Qed.

Lemma update_rows_pace s s' :
  update_rows s = Some s' → length (cleared_rows s) = 4%nat → paced s →
  paced s' ∧ level s ≤ level s' ≤ level s + 1.
Proof.
  unfold update_rows. intros H Hlen (Hlv & Hlr & Hsp).
  apply bind_Some in H as ([[cr i] rows] & Hs & H).
  apply scan_rows_le in Hs as [-> Hk]; [|done].
  unfold leveling, ROWS_PER_LEVEL in *.
  cbn [level_rows level set_score set_cleared_rows] in H.
  rewrite (uint8_id (level_rows s + _)) in H by lia.
  destruct (Z.geb_spec (level_rows s + Z.of_nat (length (full_rows (well s)))) 10).
  - destruct (Z.eqb_spec (uint32 (level s + 1)) 0) as [|Hnz]; [done|].
    injection H as <-. unfold paced. simpl.
    assert (level s + 1 ≠ 4294967296) as Hlt.
    { intros E. by rewrite E in Hnz. }
    rewrite (uint32_id (level s + 1)) by lia.
    rewrite uint8_id by lia. unfold speed_of_level.
    pose proof (interval_at_range (level s + 1)).
    unfold interval_at, ROWS_PER_LEVEL in *.
    change (2 ^ 32) with 4294967296 in *.
    set (q := 990 `div` (level s + 1)) in *.
    rewrite uint32_id by lia. lia.
  - injection H as <-. unfold paced, ROWS_PER_LEVEL. simpl. lia.
Qed.

Lemma gravity_wf rdtsc s g : gravity rdtsc s = Some g → wf s → wf (after g).
Proof.
  unfold gravity. intros Hg Hwf.
  apply bind_Some in Hg as ([ok s1] & Hm & Hg).
  apply (move_wf _ _ _ _ _ Hm) in Hwf. destruct ok.
  - by injection Hg as <-.
  - destruct (_ =? 0).
    + injection Hg as <-. simpl. revert Hwf. by apply wf_frame.
    + apply bind_Some in Hg as (s2 & Hl & Hg).
      apply bind_Some in Hg as (s3 & Hs & [= <-]). simpl.
      apply (spawn_wf rdtsc s2); [done|]. by apply (lock_wf s1).
Qed.

Lemma update_pace rdtsc s s' :
  update rdtsc s = Some s' → wf s → paced s →
  paced s' ∧ level s ≤ level s' ≤ level s + 1.
Proof.
  unfold update. intros H Hwf Hp.
  apply bind_Some in H as (g & Hg & H).
  pose proof (gravity_wf _ _ _ Hg Hwf) as Hwfg. destruct g as [s1|s1].
  - injection H as <-. apply gravity_game_over in Hg as (_ & _ & ->).
    split; [|simpl; lia]. revert Hp. by apply paced_frame.
  - apply gravity_same_scoring in Hg as (_ & Hlv & Hsp & _ & _ & Hlr).
    destruct Hwfg as (_ & _ & _ & _ & Hcl & _).
    destruct (update_rows_pace s1 s' H Hcl) as [Hp' Hstep].
    + revert Hp. by apply paced_frame.
    + split; [done|]. by rewrite <- Hlv.
Qed.

Lemma step_pace rdtsc a s s' :
  step rdtsc a s = Some s' → wf s → paced s →
  paced s' ∧ level s ≤ level s' ≤ level s + 1.
Proof.
  intros H Hwf Hp.
  assert (level s' = level s → level_rows s' = level_rows s →
          speed s' = speed s →
          paced s' ∧ level s ≤ level s' ≤ level s + 1) as Hsame.
  { intros Hlv Hlr Hsp. split; [by apply (paced_frame s)|lia]. }
  destruct a; simpl in H.
  - apply fmap_Some in H as ([ok s1] & Hm & ->).
    apply move_same_scoring in Hm as (_ & ? & ? & _ & _ & ?). by apply Hsame.
  - apply fmap_Some in H as ([ok s1] & Hm & ->). unfold rotate in Hm.
    destruct (game_over s); [injection Hm as _ <-; by apply Hsame|].
    destruct (collide _ _ _ _ _) as [[]|]; simplify_eq/=; by apply Hsame.
  - unfold soft_drop in H. apply bind_Some in H as ([ok s1] & Hm & H).
    apply move_same_scoring in Hm as (_ & ? & ? & _ & _ & ?).
    destruct ok; injection H as <-; by apply Hsame.
  - unfold drop in H. destruct (game_over s); [injection H as <-; by apply Hsame|].
    apply update_pace in H; [done| |].
    + revert Hwf. by apply wf_frame.
    + revert Hp. by apply paced_frame.
  - by apply (update_pace rdtsc s).
  - unfold clear_rows in H. apply bind_Some in H as ([w cr] & _ & [= <-]).
    by apply Hsame.
  - unfold ghost in H. apply bind_Some in H as (y & _ & [= <-]). by apply Hsame.
Qed.

Lemma new_game_pace rdtsc fuel s : new_game rdtsc fuel = Some s → paced s.
Proof.
  unfold new_game. intros H.
  apply bind_Some in H as ([b n] & _ & H).
  apply bind_Some in H as (s1 & Hsp & Hgh).
  apply spawn_same_scoring in Hsp as (_ & Hlv & Hsp & _ & _ & Hlr).
  unfold ghost in Hgh. apply bind_Some in Hgh as (y & _ & [= <-]).
  unfold paced. simpl. rewrite Hlv, Hsp, Hlr. by vm_compute.
Qed.

Lemma run_pace rdtsc acts : ∀ s s',
  run rdtsc acts s = Some s' → wf s → paced s →
  paced s' ∧ level s ≤ level s'.
Proof.
  unfold run. induction acts as [|a acts IH]; intros s s' Hrun Hwf Hp.
  - injection Hrun as <-. split; [done|lia].
  - cbn [for_each] in Hrun. apply bind_Some in Hrun as (s1 & Hstep & Hrun).
    destruct (step_pace rdtsc a s s1 Hstep Hwf Hp) as [Hp1 Hl].
    destruct (IH s1 s' Hrun) as [Hp' Hl']; [by apply (step_wf rdtsc a s)|done|].
    split; [done|lia].
Qed.

(** X13. In every state a game reaches, the level is at least 1, fewer
    than 10 rows are counted towards the next level, and the gravity
    interval is [10 + 990 / level] milliseconds (1000 at level 1), so
    between 10 and 1000; the level never goes down. *)
Theorem X13_reachable_pace rdtsc fuel acts s0 s :
  new_game rdtsc fuel = Some s0 → run rdtsc acts s0 = Some s →
  1 ≤ level s ∧ level s0 ≤ level s ∧
  0 ≤ level_rows s < ROWS_PER_LEVEL ∧
  speed s = 10 + 990 / level s ∧ 10 ≤ speed s ≤ INITIAL_SPEED.
Proof.
  intros Hnew Hrun.
  pose proof (new_game_wf _ _ _ Hnew) as Hwf0.
  pose proof (new_game_pace _ _ _ Hnew) as Hp0.
  destruct (run_pace rdtsc acts s0 s Hrun Hwf0 Hp0) as [(Hlv & Hlr & Hsp) Hmono].
  pose proof (interval_at_range (level s)). unfold interval_at, INITIAL_SPEED in *.
  split_and!; lia.
Qed.

Lemma X13_reachable_pace_witness :
  run still_clock [HardDrop; HardDrop] (default boot_state opening)
    = Some third_piece ∧
  level third_piece = 1 ∧ speed third_piece = 1000.
Proof.
  assert (run still_clock [HardDrop; HardDrop] (default boot_state opening)
          = Some third_piece) as Hrun by (by vm_compute).
  split; [exact Hrun|].
  destruct (X13_reachable_pace still_clock 1 [HardDrop; HardDrop]
              (default boot_state opening) third_piece)
    as (_ & _ & _ & Hsp & _); [by vm_compute|exact Hrun|].
  split; [reflexivity|]. rewrite Hsp. reflexivity.
Defined.

(** * Timing *)

Lemma uint64_id z : 0 ≤ z < 18446744073709551616 → uint64 z = z.
Proof. intros. unfold uint64. by rewrite Z.mod_small. Qed.

(** The ticks elapsed between two readings of the counter, also when the
    counter has wrapped in between. *)
Lemma uint64_elapsed t d :
  0 ≤ d < 18446744073709551616 → uint64 (uint64 (t + d) - t) = d.
Proof.
  intros Hd. unfold uint64. rewrite Zminus_mod_idemp_l.
  replace (t + d - t) with d by lia. by apply Z.mod_small.
Qed.

Lemma set_timers_same k : set_timers (timers k) k = k.
Proof. by destruct k. Qed.

(** X14. [tps] on a change of second: [tpms] becomes the number of ticks
    since the last change divided by 1000, rounded down, exactly,
    whenever fewer than 2^35 ticks have passed (also across a wrap of
    the tick counter); the shift by 3 before the 32-bit cast loses
    nothing. Calls within the same second change nothing. *)
Theorem X14_tps_per_ms sec tf tf' d k :
  sec ≠ last_sec k → 0 ≤ d < 2 ^ 35 → tf = uint64 (ti k + d) →
  tps sec tf k = Clock tf sec (d / 1000) (timers k) ∧
  tps sec tf' (tps sec tf k) = tps sec tf k.
Proof.
  intros Hsec Hd ->. change (2 ^ 35) with 34359738368 in Hd.
  assert (tps sec (uint64 (ti k + d)) k
          = Clock (uint64 (ti k + d)) sec (d / 1000) (timers k)) as Heq.
  { unfold tps. destruct (Z.eqb_spec sec (last_sec k)); [done|].
    rewrite uint64_elapsed by lia. f_equal.
    rewrite Z.shiftr_div_pow2 by lia. change (2 ^ 3) with 8.
    assert (0 ≤ d / 8 < 4294967296) as Hq.
    { split; [apply Z.div_pos; lia|apply Z.div_lt_upper_bound; lia]. }
    rewrite uint32_id by done. rewrite Z.div_div by lia. done. }
  split; [done|]. rewrite Heq. unfold tps. simpl. by rewrite Z.eqb_refl.
Qed.

Lemma X14_tps_per_ms_witness :
  tps 30 3000000999 boot_clock = Clock 3000000999 30 3000000 [0; 0].
Proof.
  destruct (X14_tps_per_ms 30 3000000999 0 3000000999 boot_clock) as [H _];
    [done|lia|done|]. exact H.
Defined.

(** X15. [wait] as a one-shot timer. The call that finds the timer at 0
    starts it and answers false. A later call, [d] ticks after the
    start (also across a wrap of the tick counter), answers true
    exactly when [d] is at least [tpms * ms] ticks, and then puts the
    timer back to 0, so that the clock is as before the start; otherwise
    it changes nothing. *)
Theorem X15_wait_one_shot timer ms tf0 d k :
  array_get (timers k) timer = Some 0 →
  0 < tf0 < 2 ^ 64 → 0 ≤ d < 2 ^ 64 → 0 ≤ tpms k * ms < 2 ^ 64 →
  let k1 := set_timers (<[Z.to_nat timer := tf0]> (timers k)) k in
  wait timer ms tf0 k = Some (false, k1) ∧
  wait timer ms (uint64 (tf0 + d)) k1
    = Some (if decide (tpms k * ms ≤ d) then (true, k) else (false, k1)).
Proof.
  change (2 ^ 64) with 18446744073709551616. intros Ht Htf Hd Hms k1.
  apply array_get_Some in Ht as [Htimer Ht].
  assert (array_get (timers k1) timer = Some tf0) as Ht1.
  { unfold array_get. destruct (Z.leb_spec 0 timer); [|lia]. subst k1. simpl.
    apply list_lookup_insert_eq. by eapply lookup_lt_Some. }
  split.
  { unfold wait, array_get. destruct (Z.leb_spec 0 timer); [|lia]. by rewrite Ht. }
  unfold wait. rewrite Ht1. cbn [mbind option_bind].
  destruct (Z.eqb_spec tf0 0); [lia|].
  rewrite uint64_elapsed by lia.
  replace (tpms k1) with (tpms k) by done. rewrite uint64_id by lia.
  destruct (Z.geb_spec d (tpms k * ms)).
  - rewrite decide_True by lia. do 2 f_equal. subst k1. unfold set_timers. simpl.
    rewrite list_insert_insert_eq, list_insert_id by done. by destruct k.
  - by rewrite decide_False by lia.
Qed.

Lemma X15_wait_one_shot_witness :
  wait TIMER_CLEAR CLEAR_DELAY 5000 (Clock 0 30 1000 [7; 0])
    = Some (false, Clock 0 30 1000 [7; 5000]) ∧
  wait TIMER_CLEAR CLEAR_DELAY 104999 (Clock 0 30 1000 [7; 5000])
    = Some (false, Clock 0 30 1000 [7; 5000]) ∧
  wait TIMER_CLEAR CLEAR_DELAY 105000 (Clock 0 30 1000 [7; 5000])
    = Some (true, Clock 0 30 1000 [7; 0]).
Proof.
  destruct (X15_wait_one_shot TIMER_CLEAR CLEAR_DELAY 5000 99999
              (Clock 0 30 1000 [7; 0])) as [H1 H2]; [done|done|done|done|].
  destruct (X15_wait_one_shot TIMER_CLEAR CLEAR_DELAY 5000 100000
              (Clock 0 30 1000 [7; 0])) as [_ H3]; [done|done|done|done|].
  split; [exact H1|]. split; [exact H2|exact H3].
Defined.

(** X16. [interval] as a periodic timer. After a call that answered
    true, a call [d] ticks later (also across a wrap of the tick
    counter) answers true exactly when [d] is at least [tpms * ms]
    ticks, and then restarts the period at its own reading; otherwise it
    changes nothing. With [tpms] still 0 every call answers true. *)
Theorem X16_interval_period timer ms tf0 d k k1 :
  interval timer ms tf0 k = Some (true, k1) →
  0 ≤ d < 2 ^ 64 → 0 ≤ tpms k * ms < 2 ^ 64 →
  interval timer ms (uint64 (tf0 + d)) k1
    = Some (if decide (tpms k * ms ≤ d)
            then (true, set_timers (<[Z.to_nat timer := uint64 (tf0 + d)]>
                                      (timers k)) k)
            else (false, k1)) ∧
  (tpms k = 0 → fst <$> interval timer ms (uint64 (tf0 + d)) k1 = Some true).
Proof.
  change (2 ^ 64) with 18446744073709551616. intros Hi Hd Hms.
  unfold interval in Hi. apply bind_Some in Hi as (t & Ht & Hi).
  destruct (_ >=? _); [|done]. injection Hi as <-.
  apply array_get_Some in Ht as [Htimer Ht].
  assert (interval timer ms (uint64 (tf0 + d))
            (set_timers (<[Z.to_nat timer := tf0]> (timers k)) k)
          = Some (if decide (tpms k * ms ≤ d)
                  then (true, set_timers (<[Z.to_nat timer := uint64 (tf0 + d)]>
                                            (timers k)) k)
                  else (false, set_timers (<[Z.to_nat timer := tf0]> (timers k)) k)))
    as Heq.
  { unfold interval, array_get. destruct (Z.leb_spec 0 timer); [|lia].
    cbn [timers set_timers tpms].
    rewrite list_lookup_insert_eq by (by eapply lookup_lt_Some).
    cbn [mbind option_bind]. rewrite uint64_elapsed by lia.
    rewrite uint64_id by lia.
    destruct (Z.geb_spec d (tpms k * ms)).
    - rewrite decide_True by lia. do 2 f_equal. unfold set_timers. simpl.
      by rewrite list_insert_insert_eq.
    - by rewrite decide_False by lia. }
  split; [done|]. intros H0. rewrite Heq, H0.
  by rewrite decide_True by lia.
Qed.

Lemma X16_interval_period_witness :
  interval TIMER_UPDATE 1000 1999999 (Clock 0 30 1000 [1000000; 0])
    = Some (false, Clock 0 30 1000 [1000000; 0]) ∧
  interval TIMER_UPDATE 1000 2000000 (Clock 0 30 1000 [1000000; 0])
    = Some (true, Clock 0 30 1000 [2000000; 0]).
Proof.
  assert (interval TIMER_UPDATE 1000 1000000 (Clock 0 30 1000 [0; 0])
          = Some (true, Clock 0 30 1000 [1000000; 0])) as H0 by done.
  destruct (X16_interval_period TIMER_UPDATE 1000 1000000 999999 _ _ H0)
    as [H1 _]; [done|done|].
  destruct (X16_interval_period TIMER_UPDATE 1000 1000000 1000000 _ _ H0)
    as [H2 _]; [done|done|].
  split; [exact H1|exact H2].
Defined.

(** * The speaker *)

Lemma forall_byte (P : Z → bool) :
  forallb P (seqZ 0 256) = true → ∀ v, 0 ≤ v < 256 → P v = true.
Proof.
  intros H v Hv. rewrite forallb_forall in H. apply H.
  apply list_elem_of_In, elem_of_seqZ. lia.
Qed.

Lemma speaker_bits v :
  0 ≤ v < 256 →
  uint8 (Z.lor v 3) = 4 * (v / 4) + 3 ∧ uint8 (Z.land v 252) = 4 * (v / 4).
Proof.
  intros Hv.
  pose proof (forall_byte
    (λ v, (uint8 (Z.lor v 3) =? 4 * (v / 4) + 3) &&
          (uint8 (Z.land v 252) =? 4 * (v / 4)))) as H.
  specialize (H ltac:(by vm_compute) v Hv). simpl in H.
  apply andb_prop in H as [H1 H2]. by apply Z.eqb_eq in H1, H2.
Qed.

(** X17. [speaker_play(hz, time)] for any frequency: the two bytes sent
    to port 0x42 after the mode byte are the low and the high byte of
    the timer divisor [1193180 / hz'], where [hz'] is [hz] brought into
    20..20000; the divisor lies between 59 and 59659, so two bytes hold
    all of it. The speaker is switched on by setting, and off by
    clearing, the two low bits of port 0x61, the other bits are written
    back as read; in between the call stalls for [1000 * time]
    microseconds. *)
Theorem X17_speaker_divisor hz time v1 v2 :
  0 ≤ v1 < 256 → 0 ≤ v2 < 256 → 0 ≤ time < 2 ^ 54 →
  let div := 1193180 / Z.min 20000 (Z.max 20 hz) in
  ∃ lo hi,
    speaker_play hz time v1 v2
      = Some [Outb 67 182; Outb 66 lo; Outb 66 hi;
              Inb 97 v1; Outb 97 (4 * (v1 / 4) + 3);
              Stall (1000 * time);
              Inb 97 v2; Outb 97 (4 * (v2 / 4))] ∧
    0 ≤ lo < 256 ∧ 0 ≤ hi < 256 ∧ lo + 256 * hi = div ∧ 59 ≤ div ≤ 59659.
Proof.
  intros Hv1 Hv2 Htime div. change (2 ^ 54) with 18014398509481984 in Htime.
  set (hz2 := Z.min 20000 (Z.max 20 hz)) in *.
  assert (20 ≤ hz2 ≤ 20000) as Hhz by (subst hz2; lia).
  assert (59 ≤ div ≤ 59659) as Hdiv.
  { subst div. split.
    - apply Z.div_le_lower_bound; lia.
    - apply Z.div_le_upper_bound; lia. }
  exists (div `mod` 256), (div / 256).
  destruct (speaker_bits v1 Hv1) as [Hon _].
  destruct (speaker_bits v2 Hv2) as [_ Hoff].
  split.
  - unfold speaker_play.
    assert ((if (if hz <? 20 then 20 else hz) >? 20000 then 20000
             else if hz <? 20 then 20 else hz) = hz2) as ->.
    { subst hz2. destruct (Z.ltb_spec hz 20).
      - destruct (Z.gtb_spec 20 20000); lia.
      - destruct (Z.gtb_spec hz 20000); lia. }
    destruct (Z.eqb_spec hz2 0); [lia|]. fold div.
    rewrite (uint32_id div) by lia. rewrite Hon, Hoff.
    rewrite Z.shiftr_div_pow2 by lia. change (2 ^ 8) with 256.
    rewrite (uint8_id (div / 256)).
    + rewrite uint64_id by lia. unfold uint8. do 7 f_equal. f_equal. lia.
    + split; [apply Z.div_pos; lia|apply Z.div_lt_upper_bound; lia].
  - pose proof (Z.mod_pos_bound div 256). pose proof (Z.div_mod div 256).
    split; [lia|]. split.
    + split; [apply Z.div_pos; lia|apply Z.div_lt_upper_bound; lia].
    + split; [lia|done].
Qed.

Lemma X17_speaker_divisor_witness :
  ∃ lo hi,
    speaker_play 523 35 48 51
      = Some [Outb 67 182; Outb 66 lo; Outb 66 hi; Inb 97 48; Outb 97 51;
              Stall 35000; Inb 97 51; Outb 97 48] ∧
    lo + 256 * hi = 2281.
Proof.
  destruct (X17_speaker_divisor 523 35 48 51)
    as (lo & hi & H & _ & _ & Hd & _); [lia|lia|done|].
  exists lo, hi. split; [exact H|exact Hd].
Defined.

(** * The shuffle *)

Lemma shuffle_loop_frame rdtsc i : ∀ arr n,
  (i < length arr)%nat → Z.of_nat i + 1 < 4294967296 →
  ∃ arr', shuffle_loop rdtsc i arr n = Some (arr', (n + i)%nat) ∧
          arr' ≡ₚ arr ∧ skipn (S i) arr' = skipn (S i) arr.
Proof.
  induction i as [|i IH]; intros arr n Hi Hr; cbn [shuffle_loop].
  { exists arr. by rewrite Nat.add_0_r. }
  rewrite uint32_id by lia.
  destruct (rand_spec rdtsc (Z.of_nat (S i) + 1) n) as (j & -> & Hj); [lia|].
  cbn [mbind option_bind].
  destruct (lookup_lt_is_Some_2 arr (S i)) as [t Ht]; [done|].
  destruct (lookup_lt_is_Some_2 arr (Z.to_nat j)) as [aj Haj]; [lia|].
  rewrite Ht, Haj. cbn [mbind option_bind].
  destruct (IH (<[Z.to_nat j := t]> (<[S i := aj]> arr)) (S n))
    as (arr' & -> & Hperm & Hskip); [rewrite !length_insert; lia|lia|].
  exists arr'. split; [do 2 f_equal; lia|]. split.
  - rewrite Hperm. by apply Permutation_insert_swap.
  - apply (f_equal (skipn 1)) in Hskip. rewrite !drop_drop in Hskip.
    replace (S i + 1)%nat with (S (S i)) in Hskip by lia.
    rewrite Hskip. by rewrite !drop_insert_lt by lia.
Qed.

(** X18. [shuffle(arr, len)] on an array of at least [len >= 1]
    elements stays inside the array, takes exactly [len - 1] readings
    of the tick counter, permutes the first [len] elements among
    themselves and leaves the elements behind them where they are; with
    [len = 1] it changes nothing. *)
Theorem X18_shuffle_frame rdtsc arr len n :
  1 ≤ len ≤ Z.of_nat (length arr) → len < 2 ^ 32 →
  ∃ arr', shuffle rdtsc arr len n = Some (arr', (n + Z.to_nat (len - 1))%nat) ∧
          arr' ≡ₚ arr ∧ length arr' = length arr ∧
          take (Z.to_nat len) arr' ≡ₚ take (Z.to_nat len) arr ∧
          skipn (Z.to_nat len) arr' = skipn (Z.to_nat len) arr ∧
          (len = 1 → arr' = arr).
Proof.
  change (2 ^ 32) with 4294967296. intros Hlen Hmax. unfold shuffle.
  rewrite uint32_id by lia.
  destruct (shuffle_loop_frame rdtsc (Z.to_nat (len - 1)) arr n)
    as (arr' & Hs & Hperm & Hskip); [lia|lia|].
  replace (S (Z.to_nat (len - 1))) with (Z.to_nat len) in Hskip by lia.
  exists arr'. split; [done|]. split; [done|].
  split; [by apply Permutation_length|]. split; [|split; [done|]].
  - apply (Permutation_app_inv_r (skipn (Z.to_nat len) arr)).
    rewrite <- Hskip at 1. by rewrite !take_drop.
  - intros ->. change (Z.to_nat (1 - 1)) with 0%nat in Hs.
    simpl in Hs. by injection Hs as <-.
Qed.

Lemma X18_shuffle_frame_witness :
  ∃ arr', shuffle still_clock [0; 1; 2; 3; 4; 5; 6; 9; 9] BAG_SIZE 0
            = Some (arr', 6%nat) ∧
          skipn 7 arr' = [9; 9].
Proof.
  destruct (X18_shuffle_frame still_clock [0; 1; 2; 3; 4; 5; 6; 9; 9] BAG_SIZE 0)
    as (arr' & Hs & _ & _ & _ & Hskip & _); [by vm_compute|done|].
  exists arr'. split; [exact Hs|exact Hskip].
Defined.

(** The loop entered with [i = UINT32_MAX]: [i + 1] is 0 in
    [uint32_t]. *)
Lemma shuffle_loop_wrap rdtsc i arr n :
  Z.of_nat i + 1 = 4294967296 → shuffle_loop rdtsc i arr n = None.
Proof.
  intros Hi. destruct i as [|i]; [discriminate Hi|].
  cbn [shuffle_loop]. rewrite Hi. reflexivity.
Qed.

(** X19. Where [shuffle] leaves defined behaviour: with [len = 0] the
    loop starts at [i = UINT32_MAX] and calls [rand(0)], a division by
    zero; with [len] from 2 on and larger than the array the first swap
    reads behind the array. *)
Theorem X19_shuffle_undefined rdtsc arr len n :
  len = 0 ∨ (2 ≤ len < 2 ^ 32 ∧ Z.of_nat (length arr) < len) →
  shuffle rdtsc arr len n = None.
Proof.
  change (2 ^ 32) with 4294967296. unfold shuffle. intros [->|[Hlen Harr]].
  - apply shuffle_loop_wrap. rewrite Z2Nat.id; [reflexivity|].
    unfold uint32. apply Z.mod_pos_bound. reflexivity.
  - rewrite uint32_id by lia.
    replace (Z.to_nat (len - 1)) with (S (Z.to_nat (len - 2))) by lia.
    cbn [shuffle_loop]. rewrite uint32_id by lia.
    destruct (rand_spec rdtsc (Z.of_nat (S (Z.to_nat (len - 2))) + 1) n)
      as (j & -> & Hj); [lia|].
    cbn [mbind option_bind].
    rewrite (lookup_ge_None_2 arr (S (Z.to_nat (len - 2)))) by lia. done.
Qed.

Lemma X19_shuffle_undefined_witness :
  shuffle still_clock [0; 1; 2] 0 0 = None ∧
  shuffle still_clock [0; 1; 2] 4 0 = None.
Proof.
  split; apply X19_shuffle_undefined.
  - by left.
  - right. by vm_compute.
Defined.

(** Fisher-Yates reaches every order: the readings that take [arr] to
    [target], from index [i] down. *)
Lemma shuffle_loop_reach i : ∀ arr target n,
  (i < length arr)%nat → Z.of_nat i + 1 < 4294967296 →
  target ≡ₚ arr → skipn (S i) target = skipn (S i) arr →
  ∃ js : list Z, ∀ rdtsc,
    (∀ k, (k < i)%nat → rdtsc (n + k)%nat = default 0 (js !! k)) →
    shuffle_loop rdtsc i arr n = Some (target, (n + i)%nat).
Proof.
  induction i as [|i IH]; intros arr target n Hi Hr Hperm Hskip.
  - exists []. intros rdtsc _. cbn [shuffle_loop]. rewrite Nat.add_0_r.
    do 2 f_equal. symmetry.
    pose proof (Permutation_length Hperm) as Hlen.
    destruct arr as [|a arr]; [simpl in Hi; lia|].
    destruct target as [|b target]; [done|].
    change (target = arr) in Hskip. subst target.
    f_equal. apply Permutation_length_1.
    by apply (Permutation_app_inv_r arr [b] [a]).
  - pose proof (Permutation_length Hperm) as Hlen.
    destruct (lookup_lt_is_Some_2 target (S i)) as [v Hv]; [lia|].
    destruct (lookup_lt_is_Some_2 arr (S i)) as [t Ht]; [lia|].
    assert (take (S (S i)) target ≡ₚ take (S (S i)) arr) as Htake.
    { apply (Permutation_app_inv_r (skipn (S (S i)) arr)).
      rewrite <- Hskip at 1. by rewrite !take_drop. }
    assert (v ∈ take (S (S i)) arr) as Hin.
    { rewrite <- Htake. apply (list_elem_of_lookup_2 _ (S i)).
      rewrite lookup_take_lt by lia. done. }
    apply list_elem_of_lookup_1 in Hin as [j Hj].
    apply lookup_lt_Some in Hj as Hjlt. rewrite length_take in Hjlt.
    rewrite lookup_take_lt in Hj by lia.
    set (arr2 := <[j := t]> (<[S i := v]> arr)).
    assert (arr2 !! S i = Some v) as Hv2.
    { subst arr2. destruct (decide (j = S i)) as [->|Hne].
      - rewrite list_lookup_insert_eq by (rewrite length_insert; lia). congruence.
      - rewrite list_lookup_insert_ne by done.
        by rewrite list_lookup_insert_eq by lia. }
    destruct (IH arr2 target (S n)) as [js Hjs].
    + subst arr2. rewrite !length_insert. lia.
    + lia.
    + rewrite Hperm. subst arr2. symmetry. by apply Permutation_insert_swap.
    + rewrite (drop_S target v (S i)) by done.
      rewrite (drop_S arr2 v (S i)) by done. f_equal.
      subst arr2. rewrite !drop_insert_lt by lia. done.
    + exists (Z.of_nat j :: js). intros rdtsc Hrd. cbn [shuffle_loop].
      unfold rand. rewrite uint32_id by lia.
      destruct (Z.eqb_spec (Z.of_nat (S i) + 1) 0); [lia|].
      cbn [mbind option_bind].
      pose proof (Hrd 0%nat ltac:(lia)) as H0. rewrite Nat.add_0_r in H0.
      simpl in H0. rewrite H0, uint32_id by lia.
      rewrite Z.mod_small by lia. rewrite Nat2Z.id, Ht, Hj.
      cbn [mbind option_bind]. fold arr2.
      rewrite (Hjs rdtsc).
      * do 2 f_equal. lia.
      * intros k Hk. replace (S n + k)%nat with (n + S k)%nat by lia.
        rewrite Hrd by lia. done.
Qed.

(** X20. [shuffle] can produce every order: for an array of [len]
    elements and any rearrangement of it there are readings of the tick
    counter with which [shuffle(arr, len)] leaves exactly that
    rearrangement. *)
Theorem X20_shuffle_complete arr target len :
  len = Z.of_nat (length arr) → 1 ≤ len < 2 ^ 32 → target ≡ₚ arr →
  ∃ rdtsc, shuffle rdtsc arr len 0 = Some (target, Z.to_nat (len - 1)).
Proof.
  change (2 ^ 32) with 4294967296. intros -> Hlen Hperm.
  destruct (shuffle_loop_reach (length arr - 1) arr target 0)
    as [js Hjs]; [lia|lia|done| |].
  { pose proof (Permutation_length Hperm) as Hl.
    replace (S (length arr - 1)) with (length arr) by lia.
    rewrite <- Hl at 1. by rewrite !drop_all. }
  exists (λ m, default 0 (js !! m)). unfold shuffle.
  rewrite uint32_id by lia.
  replace (Z.to_nat (Z.of_nat (length arr) - 1)) with (length arr - 1)%nat by lia.
  by rewrite Hjs.
Qed.

Lemma X20_shuffle_complete_witness :
  ∃ rdtsc, shuffle rdtsc (seqZ 0 BAG_SIZE) BAG_SIZE 0
             = Some ([6; 5; 4; 3; 2; 1; 0], 6%nat).
Proof.
  apply (X20_shuffle_complete (seqZ 0 BAG_SIZE) [6; 5; 4; 3; 2; 1; 0] BAG_SIZE).
  - reflexivity.
  - by vm_compute.
  - change (seqZ 0 BAG_SIZE) with (rev [6; 5; 4; 3; 2; 1; 0]).
    apply Permutation_rev.
Defined.

(** * Game over is final *)

Lemma step_keeps_game_over rdtsc a s s' :
  game_over s = true → step rdtsc a s = Some s' → game_over s' = true.
Proof.
  intros Hgo H. destruct a; simpl in H.
  - apply fmap_Some in H as ([ok s1] & Hm & ->).
    apply move_keeps_game_over in Hm. simpl. congruence.
  - rewrite rotate_game_over in H by done. by injection H as <-.
  - rewrite soft_drop_game_over in H by done. by injection H as <-.
  - rewrite drop_game_over in H by done. by injection H as <-.
  - unfold update in H. apply bind_Some in H as (g & Hg & H).
    apply gravity_game_over in Hg. destruct g as [s1|s1].
    + destruct Hg as (_ & _ & ->). by injection H as <-.
    + apply update_rows_game_over in H. congruence.
  - unfold clear_rows in H. by apply bind_Some in H as ([w cr] & _ & [= <-]).
  - unfold ghost in H. by apply bind_Some in H as (y & _ & [= <-]).
Qed.

(** X21. Nothing in the engine takes [game_over] back: from a state
    with [game_over] set, every sequence of calls, [update] and
    [clear_rows] included, ends in a state with [game_over] set. *)
Theorem X21_game_over_final rdtsc acts s s' :
  game_over s = true → run rdtsc acts s = Some s' → game_over s' = true.
Proof.
  intros Hgo Hrun. revert Hrun Hgo. unfold run.
  apply (for_each_inv (λ s, game_over s = true)).
  intros a s1 s2 _ Hstep Hgo. by apply (step_keeps_game_over rdtsc a s1).
Qed.

Lemma X21_game_over_final_witness :
  ∃ s', run still_clock [Update; ClearRows; Ghost; Update]
          (set_game_over true mid_state) = Some s' ∧
        game_over s' = true.
Proof.
  assert (is_Some (run still_clock [Update; ClearRows; Ghost; Update]
                     (set_game_over true mid_state))) as [s' Hs']
    by (vm_compute; by eexists).
  exists s'. split; [exact Hs'|].
  exact (X21_game_over_final still_clock [Update; ClearRows; Ghost; Update]
           (set_game_over true mid_state) s' eq_refl Hs').
Defined.

(** * Rows that wait to be cleared *)

Lemma leveling_frame rows s s' :
  leveling rows s = Some s' →
  well s' = well s ∧ score s' = score s ∧ cleared_rows s' = cleared_rows s ∧
  game_over s' = game_over s ∧ current s' = current s.
Proof.
  unfold leveling. destruct (_ >=? _); [destruct (_ =? 0); [done|]|];
    by intros [= <-].
Qed.

(** An [update] call in which the piece falls freely: the rows found
    full are scored and recorded whatever the record held. *)
Lemma update_falling rdtsc s m s' :
  length (cleared_rows s) = 4%nat →
  move 0 1 s = Some (true, m) → update rdtsc s = Some s' →
  let rs := full_rows (well s) in
  (length rs ≤ 4)%nat ∧ well s' = well s ∧
  cleared_rows s' = rs ++ skipn (length rs) (cleared_rows s) ∧
  score s' = row_score (Z.of_nat (length rs)) (level s) (score s) ∧
  game_over s' = game_over s.
Proof.
  intros Hlen Hm Hu rs. unfold update, gravity in Hu. rewrite Hm in Hu.
  cbn [mbind option_bind] in Hu.
  pose proof (move_frame _ _ _ _ _ Hm) as (x & y & Hframe).
  assert (well m = well s ∧ cleared_rows m = cleared_rows s ∧
          score m = score s ∧ level m = level s ∧
          game_over m = game_over s) as (Hw & Hc & Hsc & Hlv & Hgo)
    by (by destruct Hframe as [-> | ->]).
  assert (length (full_rows (well m)) ≤ 4)%nat as Hk.
  { unfold update_rows in Hu. apply bind_Some in Hu as ([[cr i] rows] & Hs & _).
    apply scan_rows_le in Hs as [_ Hk]; [done|congruence]. }
  rewrite update_rows_spec in Hu by (rewrite Hc, Hlen; done).
  apply leveling_frame in Hu as (-> & -> & -> & -> & _). simpl.
  subst rs. rewrite <- Hw, <- Hc, <- Hsc, <- Hlv. done.
Qed.

(** X22. [update] scores the full rows that are in the well, recorded
    before or not. Two [update] calls in which the piece falls freely,
    with no [clear_rows] in between, find the same [k] full rows: each
    adds [F_k] times the level at its start to the score, and the second
    leaves the well and the record as the first left them. *)
Theorem X22_rows_scored_again rdtsc s m1 s1 m2 s2 :
  length (cleared_rows s) = 4%nat →
  move 0 1 s = Some (true, m1) → update rdtsc s = Some s1 →
  move 0 1 s1 = Some (true, m2) → update rdtsc s1 = Some s2 →
  let k := Z.of_nat (length (full_rows (well s))) in
  1 ≤ k →
  k ≤ 4 ∧
  score s1 = uint32 (score s + score_factor k * level s) ∧
  score s2 = uint32 (score s1 + score_factor k * level s1) ∧
  well s2 = well s ∧ cleared_rows s2 = cleared_rows s1 ∧
  take (Z.to_nat k) (cleared_rows s1) = full_rows (well s).
Proof.
  intros Hlen Hm1 Hu1 Hm2 Hu2 k Hk1.
  destruct (update_falling _ _ _ _ Hlen Hm1 Hu1) as (Hk & Hw1 & Hc1 & Hs1 & _).
  assert (length (cleared_rows s1) = 4%nat) as Hlen1.
  { rewrite Hc1, length_app, length_skipn. lia. }
  destruct (update_falling _ _ _ _ Hlen1 Hm2 Hu2) as (_ & Hw2 & Hc2 & Hs2 & _).
  rewrite Hw1 in Hw2, Hc2, Hs2. fold k in Hs1, Hs2.
  rewrite row_score_factor, decide_True in Hs1, Hs2 by lia.
  split; [lia|]. split; [done|]. split; [done|]. split; [done|]. split.
  - rewrite Hc2, Hc1. by rewrite drop_app_length.
  - subst k. rewrite Nat2Z.id, Hc1. by rewrite take_app_length.
Qed.

Lemma X22_rows_scored_again_witness :
  update still_clock two_rows_clean = Some scored_once ∧
  update still_clock scored_once = Some scored_twice ∧
  score two_rows_clean = 0 ∧ score scored_once = 300 ∧
  score scored_twice = 600 ∧ well scored_twice = well two_rows_clean.
Proof.
  assert (update still_clock two_rows_clean = Some scored_once) as Hu1
    by (by vm_compute).
  assert (update still_clock scored_once = Some scored_twice) as Hu2
    by (by vm_compute).
  destruct (X22_rows_scored_again still_clock two_rows_clean
              (set_current (set_xy 3 1 (current two_rows_clean)) two_rows_clean)
              scored_once
              (set_current (set_xy 3 2 (current scored_once)) scored_once)
              scored_twice)
    as (_ & H1 & H2 & Hw & _);
    [done|by vm_compute|exact Hu1|by vm_compute|exact Hu2|by vm_compute|].
  split; [exact Hu1|]. split; [exact Hu2|]. split; [reflexivity|].
  split; [rewrite H1; by vm_compute|]. split; [rewrite H2; by vm_compute|].
  exact Hw.
Defined.
